(** * computechain/explorer: the synchronization engine of the block indexer

    A shallow embedding of [backend/indexer/client.py] (canonical hashing),
    [backend/indexer/service.py] (batch fetch, persist, reorg detection and
    rewind), [backend/core/database.py] (the session context) and the unique
    keys of [backend/models], followed by the properties of the engine.

    Conventions.
    - Python values coming from [resp.json()] are values of [json].  A Python
      [str] is a [string] whose characters are read as code points 0..255; a
      Python [float] is carried by the text [json.dumps] prints for it.
    - Code that can raise returns a [result]; code that touches the store or
      the node runs in the monad [M] over a [world]: the committed store, the
      open session, the clock, the connection faults and the event trace.
    - [hashlib.sha256] is implemented on 32-bit words held in [Z]. *)

From Stdlib Require Import ZArith String Ascii List Lia Bool DecimalString DecimalZ Sorted.
From stdpp Require Import gmap strings list.
Import ListNotations.
Local Open Scope string_scope.
Local Open Scope Z_scope.
Local Open Scope list_scope.

(** ** SHA-256 (FIPS 180-4), as [hashlib.sha256(data).hexdigest()] *)

Module Sha256.

Definition w32 (x : Z) : Z := Z.land x 0xffffffff.
Definition add32 (x y : Z) : Z := w32 (x + y).
Definition rotr (n x : Z) : Z := Z.lor (Z.shiftr x n) (w32 (Z.shiftl x (32 - n))).
Definition not32 (x : Z) : Z := Z.lxor x 0xffffffff.

Definition Ch (x y z : Z) : Z := Z.lxor (Z.land x y) (Z.land (not32 x) z).
Definition Maj (x y z : Z) : Z :=
  Z.lxor (Z.lxor (Z.land x y) (Z.land x z)) (Z.land y z).
Definition Sigma0 (x : Z) : Z := Z.lxor (Z.lxor (rotr 2 x) (rotr 13 x)) (rotr 22 x).
Definition Sigma1 (x : Z) : Z := Z.lxor (Z.lxor (rotr 6 x) (rotr 11 x)) (rotr 25 x).
Definition sigma0 (x : Z) : Z := Z.lxor (Z.lxor (rotr 7 x) (rotr 18 x)) (Z.shiftr x 3).
Definition sigma1 (x : Z) : Z := Z.lxor (Z.lxor (rotr 17 x) (rotr 19 x)) (Z.shiftr x 10).

(** The constants are defined as FIPS 180-4 defines them: the first 32 bits
    of the fractional parts of the cube roots (for [K]) and of the square
    roots (for the initial state) of the first primes. *)
Definition is_prime (n : Z) : bool :=
  (1 <? n)
  && List.forallb (fun d => negb (n mod (Z.of_nat d) =? 0))
                  (List.seq 2 (Z.to_nat n - 2)).

Definition first_primes (n : nat) : list Z :=
  List.firstn n
    (List.filter is_prime (List.map Z.of_nat (List.seq 2 400))).

(** The integer cube root, one bit at a time from bit [bits - 1] down. *)
Fixpoint icbrt (bits : nat) (n r : Z) : Z :=
  match bits with
  | O => r
  | S k =>
      let r' := r + Z.shiftl 1 (Z.of_nat k) in
      icbrt k n (if r' * r' * r' <=? n then r' else r)
  end.

Definition cbrt_fraction (p : Z) : Z := w32 (icbrt 40 (Z.shiftl p 96) 0).
Definition sqrt_fraction (p : Z) : Z := w32 (Z.sqrt (Z.shiftl p 64)).

Definition K : list Z :=
  Eval vm_compute in List.map cbrt_fraction (first_primes 64).

Definition H0 : list Z :=
  Eval vm_compute in List.map sqrt_fraction (first_primes 8).

Definition bytes_of (s : string) : list Z :=
  List.map (fun c => Z.of_N (N_of_ascii c)) (list_ascii_of_string s).

(** Big-endian bytes of [x], [n] of them. *)
Fixpoint be_bytes (n : nat) (x : Z) : list Z :=
  match n with
  | O => []
  | S k => Z.land (Z.shiftr x (8 * Z.of_nat k)) 0xff :: be_bytes k x
  end.

(** The message, the bit 1, zeros up to 56 mod 64, the bit length on 8 bytes. *)
Definition pad (msg : list Z) : list Z :=
  let len := Z.of_nat (List.length msg) in
  let zeros := Z.to_nat ((55 - len) mod 64) in
  msg ++ [0x80] ++ List.repeat 0 zeros ++ be_bytes 8 (8 * len).

Fixpoint words (n : nat) (bs : list Z) : list Z :=
  match n, bs with
  | S k, b0 :: b1 :: b2 :: b3 :: rest =>
      (Z.shiftl b0 24 + Z.shiftl b1 16 + Z.shiftl b2 8 + b3) :: words k rest
  | _, _ => []
  end.

(** The message schedule: [w] holds W_0..W_{t-1}; [extend] adds [n] words. *)
Fixpoint extend (n : nat) (w : list Z) : list Z :=
  match n with
  | O => w
  | S k =>
      let t := List.length w in
      let at_ (i : nat) := List.nth (t - i) w 0 in
      extend k (w ++ [add32 (add32 (sigma1 (at_ 2%nat)) (at_ 7%nat))
                            (add32 (sigma0 (at_ 15%nat)) (at_ 16%nat))])
  end.

Record regs := Regs { ra : Z; rb : Z; rc : Z; rd : Z; re : Z; rf : Z; rg : Z; rh : Z }.

Definition round (r : regs) (kw : Z * Z) : regs :=
  let '(k, w) := kw in
  let t1 := add32 (add32 (add32 (rh r) (Sigma1 (re r))) (Ch (re r) (rf r) (rg r)))
                  (add32 k w) in
  let t2 := add32 (Sigma0 (ra r)) (Maj (ra r) (rb r) (rc r)) in
  Regs (add32 t1 t2) (ra r) (rb r) (rc r) (add32 (rd r) t1) (re r) (rf r) (rg r).

Definition compress (h : regs) (block : list Z) : regs :=
  let w := extend 48 (words 16 block) in
  let r := List.fold_left round (List.combine K w) h in
  Regs (add32 (ra h) (ra r)) (add32 (rb h) (rb r)) (add32 (rc h) (rc r))
       (add32 (rd h) (rd r)) (add32 (re h) (re r)) (add32 (rf h) (rf r))
       (add32 (rg h) (rg r)) (add32 (rh h) (rh r)).

Fixpoint absorb (n : nat) (h : regs) (bs : list Z) : regs :=
  match n with
  | O => h
  | S k => absorb k (compress h (List.firstn 64 bs)) (List.skipn 64 bs)
  end.

Definition init : regs :=
  let h (i : nat) := List.nth i H0 0 in
  Regs (h 0%nat) (h 1%nat) (h 2%nat) (h 3%nat)
       (h 4%nat) (h 5%nat) (h 6%nat) (h 7%nat).

Definition hex_digit (d : Z) : ascii :=
  ascii_of_N (Z.to_N (if d <? 10 then 48 + d else 87 + d)).

(** [n] lowercase hexadecimal digits of [x], most significant first. *)
Fixpoint hex (n : nat) (x : Z) : string :=
  match n with
  | O => EmptyString
  | S k => String (hex_digit (Z.land (Z.shiftr x (4 * Z.of_nat k)) 0xf)) (hex k x)
  end.

Definition digest (msg : list Z) : regs :=
  let p := pad msg in
  absorb (Nat.div (List.length p) 64) init p.

Definition hexdigest (data : string) : string :=
  let r := digest (bytes_of data) in
  String.concat EmptyString (List.map (hex 8) [ra r; rb r; rc r; rd r; re r; rf r; rg r; rh r]).

End Sha256.


(** ** Python values and exceptions *)

Inductive exn :=
| AttributeError | KeyError | TypeError | ValueError
| InvalidOperation          (* decimal *)
| IntegrityError | DataError | OperationalError | MultipleResultsFound.

Inductive result (A : Type) :=
| Ok (a : A)
| Raise (e : exn).
Arguments Ok {A} a.
Arguments Raise {A} e.

Definition rbind {A B} (r : result A) (k : A -> result B) : result B :=
  match r with
  | Ok a => k a
  | Raise e => Raise e
  end.

Declare Scope result_scope.
Delimit Scope result_scope with res.
Notation "'let*' x := r 'in' k" := (rbind r (fun x => k))
  (at level 10, x pattern, r at level 100, k at level 200)
  : result_scope.

(** What [resp.json()] can return.  [JNull] is Python's [None]. *)
#[warnings="-register-all"]
Inductive json :=
| JNull
| JBool (b : bool)
| JInt (n : Z)
| JFloat (repr : string)
| JStr (s : string)
| JList (l : list json)
| JDict (d : list (string * json)).

Abbreviation pydict := (list (string * json)).

(** [d.get(k)] on a [dict]: the value bound to [k], else [None]. *)
Fixpoint dict_lookup (d : pydict) (k : string) : option json :=
  match d with
  | [] => None
  | (k', v) :: rest => if String.eqb k' k then Some v else dict_lookup rest k
  end.

Definition dict_get (d : pydict) (k : string) : json :=
  match dict_lookup d k with Some v => v | None => JNull end.

(** [d.get(k, default)] *)
Definition dict_get_default (d : pydict) (k : string) (default : json) : json :=
  match dict_lookup d k with Some v => v | None => default end.

(** [d[k] = v] *)
Fixpoint dict_set (d : pydict) (k : string) (v : json) : pydict :=
  match d with
  | [] => [(k, v)]
  | (k', v') :: rest =>
      if String.eqb k' k then (k, v) :: rest else (k', v') :: dict_set rest k v
  end.

(** [x.get]: only a [dict] has the attribute. *)
Definition attr_get (x : json) : result pydict :=
  match x with
  | JDict d => Ok d
  | _ => Raise AttributeError
  end.

(** [x[k]] for a string [k]: [KeyError] on a [dict] without [k], [TypeError]
    on a value that is not a [dict]. *)
Definition subscript (x : json) (k : string) : result json :=
  match x with
  | JDict d => match dict_lookup d k with Some v => Ok v | None => Raise KeyError end
  | _ => Raise TypeError
  end.

(** Truth value of a Python object, as [if x:] tests it. *)
Definition truthy (x : json) : bool :=
  match x with
  | JNull => false
  | JBool b => b
  | JInt n => negb (n =? 0)
  | JFloat r => negb (String.eqb r "0.0" || String.eqb r "-0.0")
  | JStr s => negb (String.eqb s EmptyString)
  | JList l => match l with [] => false | _ => true end
  | JDict d => match d with [] => false | _ => true end
  end.

(** What [len(x)] and [enumerate(x)] see: the items of a list, the keys of a
    [dict], the characters of a [str]; other values have no length. *)
Definition items_of (x : json) : result (list json) :=
  match x with
  | JList l => Ok l
  | JDict d => Ok (List.map (fun kv => JStr (fst kv)) d)
  | JStr s => Ok (List.map (fun c => JStr (String c EmptyString)) (list_ascii_of_string s))
  | _ => Raise TypeError
  end.

(** [str(n)] for an [int], and [int(s)] on the texts [str] produces (decimal
    digits after an optional minus sign); [ValueError] otherwise. *)
Definition str_of_int (n : Z) : string := NilZero.string_of_int (Z.to_int n).

Definition int_of_str (s : string) : result Z :=
  match NilZero.int_of_string s with
  | Some d => Ok (Z.of_int d)
  | None => Raise ValueError
  end.

(** [range(lo, hi + 1)] *)
Definition range_incl (lo hi : Z) : list Z :=
  List.map (fun i => lo + Z.of_nat i) (List.seq 0 (Z.to_nat (hi + 1 - lo))).

(** [range(start, stop, step)] for [step > 0] *)
Definition range_step (start stop step : Z) : list Z :=
  List.map (fun i => start + step * Z.of_nat i)
           (List.seq 0 (Z.to_nat ((stop - start + step - 1) / step))).

(** [range(hi, lo - 1, -1)] *)
Definition range_down (hi lo : Z) : list Z :=
  List.map (fun i => hi - Z.of_nat i) (List.seq 0 (Z.to_nat (hi + 1 - lo))).

(** ** [json.dumps(obj, sort_keys=True)] *)

Module Json.

Definition dquote : string := String (ascii_of_N 34) EmptyString.

(** One character of a string literal under [ensure_ascii=True]. *)
Definition escape_char (c : ascii) : string :=
  let n := Z.of_N (N_of_ascii c) in
  if n =? 34 then String.append "\" dquote
  else if n =? 92 then "\\"
  else if n =? 10 then "\n"
  else if n =? 13 then "\r"
  else if n =? 9 then "\t"
  else if n =? 8 then "\b"
  else if n =? 12 then "\f"
  else if (n <? 32) || (126 <? n) then String.append "\u" (Sha256.hex 4 n)
  else String c EmptyString.

Definition quote (s : string) : string :=
  String.append dquote
    (String.append
       (String.concat EmptyString (List.map escape_char (list_ascii_of_string s)))
       dquote).

(** [sorted(d.items())] on the rendered items: by key, code point order. *)
Fixpoint insert_item (kv : string * string) (l : list (string * string))
  : list (string * string) :=
  match l with
  | [] => [kv]
  | kv' :: rest =>
      if String.leb (fst kv) (fst kv') then kv :: l else kv' :: insert_item kv rest
  end.

Definition sort_items (l : list (string * string)) : list (string * string) :=
  List.fold_right insert_item [] l.

Definition render_item (kv : string * string) : string :=
  String.append (quote (fst kv)) (String.append ": " (snd kv)).

Fixpoint dumps (v : json) : string :=
  match v with
  | JNull => "null"
  | JBool true => "true"
  | JBool false => "false"
  | JInt n => str_of_int n
  | JFloat r => r
  | JStr s => quote s
  | JList l =>
      String.append "[" (String.append (String.concat ", " (List.map dumps l)) "]")
  | JDict d =>
      let rendered := List.map (fun kv => (fst kv, dumps (snd kv))) d in
      String.append "{"
        (String.append (String.concat ", " (List.map render_item (sort_items rendered)))
                       "}")
  end.

End Json.

(** ** [indexer/client.py]: the canonical hashes *)

(** [compute_block_hash(block)] *)
Definition compute_block_hash (block : json) : result string :=
  (let* b := attr_get block in
   let* header := attr_get (dict_get_default b "header" (JDict [])) in
   let hash_input := Json.dumps (JDict
     [ ("height", dict_get header "height");
       ("prev_hash", dict_get header "prev_hash");
       ("timestamp", dict_get header "timestamp");
       ("tx_root", dict_get header "tx_root");
       ("state_root", dict_get header "state_root") ]) in
   Ok (Sha256.hexdigest hash_input))%res.

(** [compute_tx_hash(tx)] *)
Definition compute_tx_hash (tx : json) : result string :=
  (let* t := attr_get tx in
   let hash_input := Json.dumps (JDict
     [ ("tx_type", dict_get t "tx_type");
       ("from_address", dict_get t "from_address");
       ("to_address", dict_get t "to_address");
       ("amount", dict_get t "amount");
       ("nonce", dict_get t "nonce");
       ("signature", dict_get t "signature") ]) in
   Ok (Sha256.hexdigest hash_input))%res.

(** ** [models]: rows and their keys

    A row holds the Python values the engine assigns to its attributes.  The
    surrogate [id] columns, filled by the sequences of the store, are left
    out (the engine never reads them), and so are the checks the driver makes
    on the type and length of a value: of the schema the model keeps the
    unique keys, the foreign key and NOT NULL. *)

Inductive TxType :=
| TRANSFER | STAKE | UNSTAKE | DELEGATE | UNDELEGATE
| UPDATE_VALIDATOR | UNJAIL | COMPUTE | SUBMIT_RESULT.

Definition TxType_value (t : TxType) : string :=
  match t with
  | TRANSFER => "TRANSFER" | STAKE => "STAKE" | UNSTAKE => "UNSTAKE"
  | DELEGATE => "DELEGATE" | UNDELEGATE => "UNDELEGATE"
  | UPDATE_VALIDATOR => "UPDATE_VALIDATOR" | UNJAIL => "UNJAIL"
  | COMPUTE => "COMPUTE" | SUBMIT_RESULT => "SUBMIT_RESULT"
  end.

Definition TxType_members : list TxType :=
  [TRANSFER; STAKE; UNSTAKE; DELEGATE; UNDELEGATE;
   UPDATE_VALIDATOR; UNJAIL; COMPUTE; SUBMIT_RESULT].

(** [TxType(value)]: the member with that value, else [ValueError]. *)
Definition TxType_of (value : json) : result TxType :=
  match value with
  | JStr s =>
      match List.find (fun t => String.eqb (TxType_value t) s) TxType_members with
      | Some t => Ok t
      | None => Raise ValueError
      end
  | _ => Raise ValueError
  end.

Definition is_null (v : json) : bool :=
  match v with JNull => true | _ => false end.

Module Block.
Record t := mk {
  height : Z;                       (* unique *)
  hash : string;                    (* unique *)
  prev_hash : json;                 (* NOT NULL *)
  timestamp : json;                 (* NOT NULL *)
  chain_id : json;                  (* NOT NULL *)
  proposer_address : json;          (* NOT NULL *)
  tx_root : json;                   (* NOT NULL *)
  state_root : json;                (* NOT NULL *)
  compute_root : json;
  gas_used : json;
  gas_limit : json;
  tx_count : Z;
  zk_state_proof_hash : json;
  zk_compute_proof_hash : json;
  pq_signature : json;
  pq_sig_scheme_id : json;
  indexed_at : option Z             (* default: utcnow at INSERT *)
}.

Definition stamp (now : Z) (b : t) : t :=
  mk (height b) (hash b) (prev_hash b) (timestamp b) (chain_id b)
     (proposer_address b) (tx_root b) (state_root b) (compute_root b)
     (gas_used b) (gas_limit b) (tx_count b) (zk_state_proof_hash b)
     (zk_compute_proof_hash b) (pq_signature b) (pq_sig_scheme_id b)
     (match indexed_at b with Some x => Some x | None => Some now end).

Definition not_null_ok (b : t) : bool :=
  negb (is_null (prev_hash b) || is_null (timestamp b) || is_null (chain_id b)
        || is_null (proposer_address b) || is_null (tx_root b)
        || is_null (state_root b)).
End Block.

Module Transaction.
Section Row.
Context {decimal : Type}.
Record t := mk {
  hash : string;                  (* unique *)
  block_height : Z;               (* references blocks.height *)
  tx_type : TxType;
  from_address : json;            (* NOT NULL *)
  to_address : json;
  amount : decimal;
  fee : decimal;
  nonce : json;                   (* NOT NULL *)
  gas_price : json;
  gas_limit : json;
  gas_used : json;
  signature : json;               (* NOT NULL *)
  pub_key : json;                 (* NOT NULL *)
  payload : json;
  tx_index : Z;
  indexed_at : option Z           (* default: utcnow at INSERT *)
}.

Definition stamp (now : Z) (x : t) : t :=
  mk (hash x) (block_height x) (tx_type x) (from_address x) (to_address x)
     (amount x) (fee x) (nonce x) (gas_price x) (gas_limit x) (gas_used x)
     (signature x) (pub_key x) (payload x) (tx_index x)
     (match indexed_at x with Some a => Some a | None => Some now end).

Definition not_null_ok (x : t) : bool :=
  negb (is_null (from_address x) || is_null (nonce x) || is_null (signature x)
        || is_null (pub_key x)).
End Row.
Arguments t : clear implicits.
End Transaction.

Module Account.
Record t := mk {
  address : string;                 (* unique *)
  balance : Z;
  nonce : Z;
  tx_count : Z;
  tx_sent_count : Z;
  tx_received_count : Z;
  first_seen_height : option Z;
  last_seen_height : option Z;
  first_seen_at : option Z;
  last_seen_at : option Z;
  is_validator : bool;
  validator_info : json;
  indexed_at : Z;
  updated_at : Z
}.

(** The [set_] of the upsert of [_update_accounts_batch]. *)
Definition seen (height now : Z) (a : t) : t :=
  mk (address a) (balance a) (nonce a) (tx_count a) (tx_sent_count a)
     (tx_received_count a) (first_seen_height a) (Some height)
     (first_seen_at a) (Some now) (is_validator a) (validator_info a)
     (indexed_at a) now.
End Account.

Module SyncStatus.
Record t := mk {
  value : option string;
  updated_at : Z
}.
End SyncStatus.

(** ** The store, the session and the world *)

Inductive event :=
| EvBegin                 (* a store transaction begins *)
| EvStatement             (* a statement travels to the store *)
| EvCommit
| EvRollback
| EvGetBlockHeight        (* GET /metrics on the node *)
| EvGetBlock (height : Z) (* GET /block/<height> on the node *)
| EvSleep (ms : Z)
| EvLogError (e : exn).

(** An answer of the node to [GET /block/<height>]. *)
Inductive http_response :=
| Unreachable                                   (* httpx raises *)
| Response (status_code : Z) (body : option json). (* [None]: the body is not JSON *)

(** [core/config.py]; intervals in seconds. *)
Record Settings := {
  indexer_poll_interval : Z;
  resync_interval : Z;
  resync_depth : Z
}.

Definition default_settings : Settings :=
  {| indexer_poll_interval := 2; resync_interval := 300; resync_depth := 10 |}.

(** The node as one call of the engine sees it. *)
Record Node := {
  metrics_block_height : Z;        (* what [get_block_height] finds, 0 on any failure *)
  http_block : Z -> http_response
}.

(** Batch size for parallel block fetching *)
Definition BATCH_SIZE : Z := 50.

Section Engine.

(** [decimal.Decimal] is a parameter: [Decimal_str v] is [Decimal(str(v))],
    [None] when it raises [InvalidOperation]. *)
Context {decimal : Type}.
Variable Decimal_str : json -> option decimal.
Variable settings : Settings.
Variable client : Node.

Record store := Store {
  blocks : list Block.t;
  transactions : list (Transaction.t decimal);
  accounts : gmap string Account.t;
  sync_status : gmap string SyncStatus.t
}.

(** Objects given to [session.add] and not yet flushed. *)
Inductive pending :=
| NewBlock (b : Block.t)
| NewTransaction (x : Transaction.t decimal).

Record world := World {
  w_db : store;               (* what is committed *)
  w_view : store;             (* what the open session sees *)
  w_new : list pending;       (* the session's new objects *)
  w_in_tx : bool;             (* a store transaction is open *)
  w_clock : Z;                (* milliseconds *)
  w_faults : list bool;       (* per round trip to the store: does the connection drop? *)
  w_trace : list event;
  w_last_resync_time : Z      (* [self.last_resync_time] *)
}.

Definition set_db (x : store) (w : world) : world :=
  World x (w_view w) (w_new w) (w_in_tx w) (w_clock w) (w_faults w) (w_trace w)
        (w_last_resync_time w).
Definition set_view (x : store) (w : world) : world :=
  World (w_db w) x (w_new w) (w_in_tx w) (w_clock w) (w_faults w) (w_trace w)
        (w_last_resync_time w).
Definition set_new (x : list pending) (w : world) : world :=
  World (w_db w) (w_view w) x (w_in_tx w) (w_clock w) (w_faults w) (w_trace w)
        (w_last_resync_time w).
Definition set_in_tx (x : bool) (w : world) : world :=
  World (w_db w) (w_view w) (w_new w) x (w_clock w) (w_faults w) (w_trace w)
        (w_last_resync_time w).
Definition set_clock (x : Z) (w : world) : world :=
  World (w_db w) (w_view w) (w_new w) (w_in_tx w) x (w_faults w) (w_trace w)
        (w_last_resync_time w).
Definition set_faults (x : list bool) (w : world) : world :=
  World (w_db w) (w_view w) (w_new w) (w_in_tx w) (w_clock w) x (w_trace w)
        (w_last_resync_time w).
Definition set_trace (x : list event) (w : world) : world :=
  World (w_db w) (w_view w) (w_new w) (w_in_tx w) (w_clock w) (w_faults w) x
        (w_last_resync_time w).
Definition set_last_resync_time (x : Z) (w : world) : world :=
  World (w_db w) (w_view w) (w_new w) (w_in_tx w) (w_clock w) (w_faults w) (w_trace w) x.

(** *** The monad of the engine: a world is threaded, an exception stops *)

Definition M (A : Type) : Type := world -> world * result A.

Definition ret {A} (a : A) : M A := fun w => (w, Ok a).
Definition raise {A} (e : exn) : M A := fun w => (w, Raise e).
Definition lift {A} (r : result A) : M A := fun w => (w, r).
Definition bind {A B} (m : M A) (k : A -> M B) : M B :=
  fun w =>
    match m w with
    | (w', Ok a) => k a w'
    | (w', Raise e) => (w', Raise e)
    end.

Notation "'do' x <- m ; k" := (bind m (fun x => k))
  (at level 10, x name, m at level 100, k at level 200).
Notation "m ;; k" := (bind m (fun _ => k))
  (at level 100, k at level 200, right associativity).

Definition emit (e : event) : M unit :=
  fun w => (set_trace (w_trace w ++ [e]) w, Ok tt).

(** [datetime.utcnow()] and the loop's clock; only [asyncio.sleep] moves it. *)
Definition utcnow : M Z := fun w => (w, Ok (w_clock w)).

Definition sleep (ms : Z) : M unit :=
  fun w => (set_clock (w_clock w + ms) (set_trace (w_trace w ++ [EvSleep ms]) w), Ok tt).

(** *** The session *)

(** The connection may drop on a round trip. *)
Definition fault : M unit :=
  fun w =>
    match w_faults w with
    | true :: f => (set_faults f w, Raise OperationalError)
    | false :: f => (set_faults f w, Ok tt)
    | [] => (w, Ok tt)
    end.

(** A statement: the session begins a transaction if none is open. *)
Definition roundtrip : M unit :=
  (fun w => if w_in_tx w then (w, Ok tt)
            else (set_in_tx true (set_trace (w_trace w ++ [EvBegin]) w), Ok tt)) ;;
  emit EvStatement ;;
  fault.

Definition insert_block (now : Z) (st : store) (b : Block.t) : result store :=
  if List.existsb (fun b' => Block.height b' =? Block.height b) (blocks st)
  then Raise IntegrityError
  else if List.existsb (fun b' => String.eqb (Block.hash b') (Block.hash b)) (blocks st)
  then Raise IntegrityError
  else if negb (Block.not_null_ok b) then Raise IntegrityError
  else Ok (Store (blocks st ++ [Block.stamp now b]) (transactions st)
                 (accounts st) (sync_status st)).

Definition insert_transaction (now : Z) (st : store) (x : Transaction.t decimal)
  : result store :=
  if List.existsb (fun x' => String.eqb (Transaction.hash x') (Transaction.hash x))
                  (transactions st)
  then Raise IntegrityError
  else if negb (List.existsb (fun b => Block.height b =? Transaction.block_height x)
                             (blocks st))
  then Raise IntegrityError
  else if negb (Transaction.not_null_ok x) then Raise IntegrityError
  else Ok (Store (blocks st) (transactions st ++ [Transaction.stamp now x])
                 (accounts st) (sync_status st)).

Fixpoint insert_all {A} (ins : store -> A -> result store) (st : store) (l : list A)
  : result store :=
  match l with
  | [] => Ok st
  | a :: rest => rbind (ins st a) (fun st' => insert_all ins st' rest)
  end.

Definition new_blocks (l : list pending) : list Block.t :=
  List.flat_map (fun p => match p with NewBlock b => [b] | _ => [] end) l.
Definition new_transactions (l : list pending) : list (Transaction.t decimal) :=
  List.flat_map (fun p => match p with NewTransaction x => [x] | _ => [] end) l.

(** [session.add(obj)] *)
Definition session_add (p : pending) : M unit :=
  fun w => (set_new (w_new w ++ [p]) w, Ok tt).

(** What a flush writes: the unit of work inserts the new blocks, then the new
    transactions, each kind in the order of [add]. *)
Definition flush_rows (now : Z) (st : store) (news : list pending) : result store :=
  rbind (insert_all (insert_block now) st (new_blocks news))
        (fun st' => insert_all (insert_transaction now) st' (new_transactions news)).

(** [session.flush()] *)
Definition flush : M unit :=
  fun w =>
    match w_new w with
    | [] => (w, Ok tt)
    | news =>
        (roundtrip ;;
         fun w1 =>
           match flush_rows (w_clock w1) (w_view w1) news with
           | Ok st => (set_new [] (set_view st w1), Ok tt)
           | Raise e => (w1, Raise e)
           end) w
    end.

(** [session.execute(stmt)]: autoflush, then the statement [f] on the rows the
    session sees. *)
Definition execute {A} (f : store -> result (store * A)) : M A :=
  flush ;;
  roundtrip ;;
  fun w =>
    match f (w_view w) with
    | Ok (st, a) => (set_view st w, Ok a)
    | Raise e => (w, Raise e)
    end.

(** [result.scalar_one_or_none()] *)
Definition scalar_one_or_none {A} (rows : list A) : result (option A) :=
  match rows with
  | [] => Ok None
  | [a] => Ok (Some a)
  | _ => Raise MultipleResultsFound
  end.

(** [session.commit()] *)
Definition commit : M unit :=
  flush ;;
  fun w =>
    if w_in_tx w then
      (fault ;;
       fun w1 => (set_in_tx false (set_db (w_view w1)
                    (set_trace (w_trace w1 ++ [EvCommit]) w1)), Ok tt)) w
    else (w, Ok tt).

(** [session.rollback()] *)
Definition rollback : M unit :=
  fun w =>
    let w1 := set_new [] (set_view (w_db w) w) in
    if w_in_tx w then
      (set_in_tx false (set_trace (w_trace w1 ++ [EvRollback]) w1), Ok tt)
    else (w1, Ok tt).

(** [core/database.py]: [async with get_session_context() as session: body] *)
Definition get_session_context {A} (body : M A) : M A :=
  fun w =>
    let w0 := set_new [] (set_view (w_db w) w) in
    match (do a <- body ; commit ;; ret a) w0 with
    | (w1, Ok a) => (w1, Ok a)
    | (w1, Raise e) => (fst (rollback w1), Raise e)
    end.

(** ** [indexer/client.py]: calls to the node *)

(** [client.get_block_height()] *)
Definition get_block_height : M Z :=
  emit EvGetBlockHeight ;;
  ret (metrics_block_height client).

(** [client.get_block(height)]: the JSON body of a 200 answer; [None] on
    another status and on any exception, which the client logs. *)
Definition get_block (height : Z) : M json :=
  emit (EvGetBlock height) ;;
  ret (match http_block client height with
       | Response 200 (Some body) => body
       | _ => JNull
       end).

(** ** [indexer/service.py] *)

(** [_get_indexed_height] *)
Definition _get_indexed_height : M Z :=
  get_session_context
    (do status <- execute (fun st =>
         Ok (st, sync_status st !! "last_indexed_height")) ;
     match status with
     | Some row =>
         match SyncStatus.value row with
         | Some v => lift (int_of_str v)
         | None => raise TypeError
         end
     | None => ret 0
     end).

(** [_set_indexed_height(session, height)]: an upsert on the key. *)
Definition _set_indexed_height (height : Z) : M unit :=
  do now <- utcnow ;
  execute (fun st =>
    Ok (Store (blocks st) (transactions st) (accounts st)
              (<["last_indexed_height" :=
                  SyncStatus.mk (Some (str_of_int height)) now]> (sync_status st)),
        tt)).

(** [_update_accounts_batch(session, addresses, height)]: an upsert per
    address; a new row gets the values listed, a row that exists gets [set_]. *)
Definition upsert_account (address : string) (height now : Z) (st : store)
  : result (store * unit) :=
  let row :=
    match accounts st !! address with
    | None =>
        Account.mk address 0 0 0 0 0 None (Some height) None (Some now)
                   false JNull now now
    | Some a => Account.seen height now a
    end in
  Ok (Store (blocks st) (transactions st) (<[address := row]> (accounts st))
            (sync_status st), tt).

Fixpoint for_each {A} (l : list A) (body : A -> M unit) : M unit :=
  match l with
  | [] => ret tt
  | a :: rest => body a ;; for_each rest body
  end.

Definition _update_accounts_batch (addresses : gset string) (height : Z) : M unit :=
  do now <- utcnow ;
  for_each (elements addresses) (fun address =>
    execute (upsert_account address height now)).

(** [max(max_height, height)] and the BIGINT [height]: an [int] is expected.
    (A JSON number with a fraction, or a boolean, is outside the model.) *)
Definition int_of (v : json) : result Z :=
  match v with
  | JInt n => Ok n
  | _ => Raise TypeError
  end.

(** [if a: addresses_to_update.add(a)].  A list or a [dict] is unhashable.  A
    number is hashable and would join the set, and the accounts table refuses
    it when the batch is written, inside the same transaction; the model
    raises at once. *)
Definition collect_address (a : json) (addresses : gset string)
  : result (gset string) :=
  if truthy a then
    match a with
    | JStr s => Ok ({[s]} ∪ addresses)
    | JList _ | JDict _ => Raise TypeError
    | _ => Raise DataError
    end
  else Ok addresses.

Definition decimal_of (v : json) : result decimal :=
  match Decimal_str v with
  | Some d => Ok d
  | None => Raise InvalidOperation
  end.

(** [Transaction(...)] for the transaction [tx_data] at position [idx]. *)
Definition make_transaction (height : Z) (idx : Z) (tx_data : json)
  : result (Transaction.t decimal) :=
  (let* tx_hash := compute_tx_hash tx_data in
   let* t := attr_get tx_data in
   let* ty := TxType_of (dict_get_default t "tx_type" (JStr "TRANSFER")) in
   let* amount := decimal_of (dict_get_default t "amount" (JInt 0)) in
   let* fee := decimal_of (dict_get_default t "fee" (JInt 0)) in
   Ok (Transaction.mk
         tx_hash
         height
         ty
         (dict_get_default t "from_address" (JStr EmptyString))
         (dict_get t "to_address")
         amount
         fee
         (dict_get_default t "nonce" (JInt 0))
         (dict_get_default t "gas_price" (JInt 0))
         (dict_get_default t "gas_limit" (JInt 0))
         (dict_get_default t "gas_limit" (JInt 0))
         (dict_get_default t "signature" (JStr EmptyString))
         (dict_get_default t "pub_key" (JStr EmptyString))
         (dict_get_default t "payload" (JDict []))
         idx
         None))%res.

(** The loop [for idx, tx_data in enumerate(txs)]. *)
Fixpoint index_transactions (height : Z) (idx : Z) (txs : list json)
  (addresses : gset string) : M (gset string) :=
  match txs with
  | [] => ret addresses
  | tx_data :: rest =>
      do tx <- lift (make_transaction height idx tx_data) ;
      session_add (NewTransaction tx) ;;
      do t <- lift (attr_get tx_data) ;
      do addresses <- lift (collect_address (dict_get t "from_address") addresses) ;
      do addresses <- lift (collect_address (dict_get t "to_address") addresses) ;
      index_transactions height (idx + 1) rest addresses
  end.

(** [Block(...)] for [block_data]; also its height and its transactions. *)
Definition make_block (block_data : json) : result (Block.t * Z * list json) :=
  (let* b := attr_get block_data in
   let header := dict_get_default b "header" (JDict []) in
   let txs := dict_get_default b "txs" (JList []) in
   let* height_v := subscript header "height" in
   let* height := int_of height_v in
   let* block_hash := compute_block_hash block_data in
   let* h := attr_get header in
   let* items := items_of txs in
   Ok (Block.mk
         height
         block_hash
         (dict_get_default h "prev_hash" (JStr EmptyString))
         (dict_get_default h "timestamp" (JInt 0))
         (dict_get_default h "chain_id" (JStr EmptyString))
         (dict_get_default h "proposer_address" (JStr EmptyString))
         (dict_get_default h "tx_root" (JStr EmptyString))
         (dict_get_default h "state_root" (JStr EmptyString))
         (dict_get h "compute_root")
         (dict_get_default h "gas_used" (JInt 0))
         (dict_get_default h "gas_limit" (JInt 0))
         (Z.of_nat (List.length items))
         (dict_get h "zk_state_proof_hash")
         (dict_get h "zk_compute_proof_hash")
         (dict_get b "pq_signature")
         (dict_get b "pq_sig_scheme_id")
         None,
       height, items))%res.

(** The loop [for block_data in blocks_data]. *)
Fixpoint index_blocks (blocks_data : list json) (addresses : gset string)
  (max_height : Z) : M (gset string * Z) :=
  match blocks_data with
  | [] => ret (addresses, max_height)
  | block_data :: rest =>
      do made <- lift (make_block block_data) ;
      let '(block, height, txs) := made in
      let max_height := Z.max max_height height in
      session_add (NewBlock block) ;;
      do addresses <- index_transactions height 0 txs addresses ;
      index_blocks rest addresses max_height
  end.

(** [_index_blocks_batch(blocks_data)] *)
Definition _index_blocks_batch (blocks_data : list json) : M unit :=
  match blocks_data with
  | [] => ret tt
  | _ =>
      get_session_context
        (do collected <- index_blocks blocks_data ∅ 0 ;
         let '(addresses_to_update, max_height) := collected in
         _set_indexed_height max_height ;;
         flush ;;
         if bool_decide (addresses_to_update = ∅) then ret tt
         else _update_accounts_batch addresses_to_update max_height)
  end.

(** [asyncio.gather] with [return_exceptions=True] over [get_block(h)] for
    the heights of a sub-batch: the results in the order of the tasks.
    ([get_block] catches every exception itself, so no result is one.) *)
Fixpoint gather_blocks (heights : list Z) : M (list json) :=
  match heights with
  | [] => ret []
  | h :: rest =>
      do block_data <- get_block h ;
      do blocks_data <- gather_blocks rest ;
      ret (block_data :: blocks_data)
  end.

(** The filter on successful fetches: [None] is dropped. *)
Definition valid_blocks_of (blocks_data : list json) : list json :=
  List.filter (fun block_data => negb (is_null block_data)) blocks_data.

(** The loop [for batch_start in range(start_height, end_height + 1, BATCH_SIZE)];
    it stops at a sub-batch without a valid block. *)
Fixpoint sync_batches (batch_starts : list Z) (end_height : Z) : M unit :=
  match batch_starts with
  | [] => ret tt
  | batch_start :: rest =>
      let batch_end := Z.min (batch_start + BATCH_SIZE - 1) end_height in
      do blocks_data <- gather_blocks (range_incl batch_start batch_end) ;
      match valid_blocks_of blocks_data with
      | [] => ret tt
      | valid_blocks =>
          _index_blocks_batch valid_blocks ;;
          sleep 100 ;;
          sync_batches rest end_height
      end
  end.

(** [_sync_blocks_batch(start_height, end_height)] *)
Definition _sync_blocks_batch (start_height end_height : Z) : M unit :=
  sync_batches (range_step start_height (end_height + 1) BATCH_SIZE) end_height.

(** The rewind transaction of [_handle_reorg]. *)
Definition delete_transactions_from (from_height : Z) (st : store)
  : result (store * unit) :=
  Ok (Store (blocks st)
            (List.filter (fun x => negb (from_height <=? Transaction.block_height x))
                         (transactions st))
            (accounts st) (sync_status st), tt).

(** [delete(Block).where(Block.height >= from_height)]; the foreign key of
    [transactions.block_height] is ON DELETE CASCADE. *)
Definition delete_blocks_from (from_height : Z) (st : store)
  : result (store * unit) :=
  let kept := List.filter (fun b => negb (from_height <=? Block.height b)) (blocks st) in
  Ok (Store kept
            (List.filter (fun x =>
               List.existsb (fun b => Block.height b =? Transaction.block_height x) kept
               || negb (List.existsb
                          (fun b => Block.height b =? Transaction.block_height x)
                          (blocks st)))
               (transactions st))
            (accounts st) (sync_status st), tt).

Definition rewind (from_height : Z) : M unit :=
  get_session_context
    (execute (delete_transactions_from from_height) ;;
     execute (delete_blocks_from from_height) ;;
     _set_indexed_height (from_height - 1)).

(** [_handle_reorg(from_height)] *)
Definition _handle_reorg (from_height : Z) : M unit :=
  rewind from_height ;;
  do chain_height <- get_block_height ;
  if from_height <=? chain_height
  then _sync_blocks_batch from_height chain_height
  else ret tt.

(** The scan of [_check_reorg]: [for height in range(indexed_height,
    check_from - 1, -1)], inside the session. *)
Fixpoint scan_reorg (heights : list Z) : M (option Z) :=
  match heights with
  | [] => ret None
  | height :: rest =>
      do indexed_block <- execute (fun st =>
        rbind (scalar_one_or_none
                 (List.filter (fun b => Block.height b =? height) (blocks st)))
              (fun r => Ok (st, r))) ;
      match indexed_block with
      | None => scan_reorg rest
      | Some blk =>
          do chain_block <- get_block height ;
          if truthy chain_block then
            do chain_hash <- lift (compute_block_hash chain_block) ;
            if String.eqb (Block.hash blk) chain_hash
            then scan_reorg rest
            else ret (Some height)
          else scan_reorg rest
      end
  end.

(** [_check_reorg] up to the end of its [async with]: the value of
    [reorg_height]. *)
Definition detect_reorg : M (option Z) :=
  do indexed_height <- _get_indexed_height ;
  if indexed_height =? 0 then ret None
  else
    let check_from := Z.max 1 (indexed_height - resync_depth settings) in
    get_session_context (scan_reorg (range_down indexed_height check_from)).

(** [_check_reorg] *)
Definition _check_reorg : M unit :=
  do reorg_height <- detect_reorg ;
  match reorg_height with
  | Some h => if h =? 0 then ret tt else _handle_reorg h
  | None => ret tt
  end.

(** [_sync_loop] *)
Definition _sync_loop : M unit :=
  do indexed_height <- _get_indexed_height ;
  do chain_height <- get_block_height ;
  if chain_height =? 0 then sleep (1000 * indexer_poll_interval settings)
  else
    (if indexed_height <? chain_height
     then _sync_blocks_batch (indexed_height + 1) chain_height
     else ret tt) ;;
    do current_time <- utcnow ;
    (fun w =>
       if 1000 * resync_interval settings <? current_time - w_last_resync_time w
       then (_check_reorg ;;
             fun w' => (set_last_resync_time current_time w', Ok tt)) w
       else (w, Ok tt)) ;;
    sleep (1000 * indexer_poll_interval settings).

(** One turn of the [while self.running] loop of [start]: the catch-all. *)
Definition start_cycle : M unit :=
  fun w =>
    match _sync_loop w with
    | (w', Ok tt) => (w', Ok tt)
    | (w', Raise e) => (emit (EvLogError e) ;; sleep 5000) w'
    end.

End Engine.

Arguments Store {decimal}.
Arguments World {decimal}.

(** ** A concrete setting for examples *)

(** [Decimal(str(n))] on an [int]; the examples use no other amount. *)
Definition Decimal_of_int (v : json) : option Z :=
  match v with
  | JInt n => Some n
  | _ => None
  end.

Definition empty_store : store (decimal := Z) := Store [] [] ∅ ∅.

(** A world at rest on the store [st]: no session, no fault. *)
Definition at_rest (st : store (decimal := Z)) : world :=
  World st st [] false 0 [] [] 0.

Definition raw_tx (sender recipient : string) (nonce : Z) : json :=
  JDict [ ("tx_type", JStr "TRANSFER"); ("from_address", JStr sender);
          ("to_address", JStr recipient); ("amount", JInt 5); ("fee", JInt 1);
          ("nonce", JInt nonce); ("gas_price", JInt 1); ("gas_limit", JInt 21000);
          ("gas_used", JInt 20000); ("signature", JStr (String.append "sig" (str_of_int nonce)));
          ("pub_key", JStr "pk") ].

(** The block of height [h] on the branch [branch] of the chain. *)
Definition raw_block (branch : string) (h : Z) : json :=
  JDict [ ("header", JDict [ ("height", JInt h); ("prev_hash", JStr "p");
                             ("timestamp", JInt (1000 + h)); ("chain_id", JStr "cc");
                             ("proposer_address", JStr "val");
                             ("tx_root", JStr "t"); ("state_root", JStr branch);
                             ("gas_used", JInt 0); ("gas_limit", JInt 100) ]);
          ("txs", JList [raw_tx "alice" "bob" h]) ].

(** A node of height [top] on branch [old], forked to [new] from [fork] on. *)
Definition forked_node (top fork : Z) : Node :=
  {| metrics_block_height := top;
     http_block := fun h =>
       if (1 <=? h) && (h <=? top)
       then Response 200 (Some (raw_block (if h <? fork then "old" else "new") h))
       else Response 404 None |}.

Definition chain_1_10 : store :=
  w_db (fst (_sync_blocks_batch Decimal_of_int (forked_node 10 11) 1 10 (at_rest empty_store))).


(** ** Vocabulary of the properties *)

(** Two dictionaries agree on the keys [keys]. *)
Definition agree_on (keys : list string) (d d' : pydict) : Prop :=
  forall k, In k keys -> dict_get d k = dict_get d' k.

(** The fields that enter the canonical hashes. *)
Definition block_hashed_fields : list string :=
  ["height"; "prev_hash"; "timestamp"; "tx_root"; "state_root"].
Definition tx_hashed_fields : list string :=
  ["tx_type"; "from_address"; "to_address"; "amount"; "nonce"; "signature"].

(** The watermark a store holds, as [_get_indexed_height] reads it. *)
Definition watermark_of {decimal} (st : store (decimal := decimal)) : result Z :=
  match sync_status st !! "last_indexed_height" with
  | Some row =>
      match SyncStatus.value row with
      | Some v => int_of_str v
      | None => Raise TypeError
      end
  | None => Ok 0
  end.

(** No session is in a store transaction. *)
Definition idle {decimal} (w : world (decimal := decimal)) : Prop :=
  w_in_tx w = false.

(** Reading a trace: is a store transaction open after the event, given
    whether one was open before?  [None]: the event is a call to the node
    made while a transaction is open. *)
Definition tx_step (open : bool) (e : event) : option bool :=
  match e with
  | EvBegin => Some true
  | EvCommit | EvRollback => Some false
  | EvGetBlockHeight | EvGetBlock _ => if open then None else Some false
  | EvStatement | EvSleep _ | EvLogError _ => Some open
  end.

Fixpoint tx_scan (open : bool) (t : list event) : option bool :=
  match t with
  | [] => Some open
  | e :: rest =>
      match tx_step open e with
      | Some open' => tx_scan open' rest
      | None => None
      end
  end.

(** Between [w] and [w'] no call to the node was made while a store
    transaction was open, and none is left open. *)
Definition no_call_inside_transaction {decimal} (w w' : world (decimal := decimal))
  : Prop :=
  exists d : list event,
    w_trace w' = w_trace w ++ d /\ tx_scan false d = Some false.

(** The unique keys of the schema hold in a store. *)
Definition keys_ok {decimal} (st : store (decimal := decimal)) : Prop :=
  NoDup (List.map Block.height (blocks st))
  /\ NoDup (List.map Block.hash (blocks st))
  /\ NoDup (List.map Transaction.hash (transactions st)).

(** The objects and the addresses that the loops of [_index_blocks_batch]
    accumulate: the loops read without the session they add to. *)
Section Planned.

Context {decimal : Type}.
Variable Decimal_str : json -> option decimal.

Fixpoint planned_transactions (height idx : Z) (txs : list json)
  (addresses : gset string) : result (list (Transaction.t decimal) * gset string) :=
  match txs with
  | [] => Ok ([], addresses)
  | tx_data :: rest =>
      (let* tx := make_transaction Decimal_str height idx tx_data in
       let* t := attr_get tx_data in
       let* a1 := collect_address (dict_get t "from_address") addresses in
       let* a2 := collect_address (dict_get t "to_address") a1 in
       let* r := planned_transactions height (idx + 1) rest a2 in
       Ok (tx :: fst r, snd r))%res
  end.

Fixpoint planned (blocks_data : list json) (addresses : gset string) (max_height : Z)
  : result (list pending * gset string * Z) :=
  match blocks_data with
  | [] => Ok ([], addresses, max_height)
  | block_data :: rest =>
      (let* made := make_block block_data in
       let* r := planned_transactions (snd (fst made)) 0 (snd made) addresses in
       let* r' := planned rest (snd r) (Z.max max_height (snd (fst made))) in
       Ok (NewBlock (fst (fst made)) :: List.map NewTransaction (fst r) ++ fst (fst r'),
           snd (fst r'), snd r'))%res
  end.

(** The row an upsert of [_update_accounts_batch] leaves for an address. *)
Definition account_row (address : string) (height now : Z) (old : option Account.t)
  : Account.t :=
  match old with
  | None =>
      Account.mk address 0 0 0 0 0 None (Some height) None (Some now)
                 false JNull now now
  | Some a => Account.seen height now a
  end.

End Planned.

(** What [get_block(height)] returns for the node [client]. *)
Definition fetched (client : Node) (height : Z) : json :=
  match http_block client height with
  | Response 200 (Some body) => body
  | _ => JNull
  end.

(** Local and remote history diverge at [height]: the store holds a block of
    that height, the node serves one, and the hash stored differs from the
    canonical hash of the block served. *)
Definition diverges {decimal} (client : Node) (st : store (decimal := decimal))
  (height : Z) : Prop :=
  exists blk chain_hash,
    scalar_one_or_none
      (List.filter (fun b => Block.height b =? height) (blocks st)) = Ok (Some blk)
    /\ truthy (fetched client height) = true
    /\ compute_block_hash (fetched client height) = Ok chain_hash
    /\ Block.hash blk <> chain_hash.

Definition local_hash {decimal} (st : store (decimal := decimal)) (height : Z)
  : option string :=
  Block.hash <$> List.find (fun b => Block.height b =? height) (blocks st).

Definition remote_hash (client : Node) (height : Z) : option string :=
  match compute_block_hash (fetched client height) with
  | Ok h => Some h
  | Raise _ => None
  end.

(** The transactions a raw block carries, as the persister enumerates them. *)
Definition source_transactions (block_data : json) : list json :=
  match make_block block_data with
  | Ok (_, _, txs) => txs
  | Raise _ => []
  end.

(** The height the persister reads in a raw block. *)
Definition source_height (block_data : json) : option Z :=
  match make_block block_data with
  | Ok (_, height, _) => Some height
  | Raise _ => None
  end.

(** The fetch of [height] succeeds: [get_block] returns a block, not [None]. *)
Definition fetch_ok (client : Node) (height : Z) : bool :=
  negb (is_null (fetched client height)).

(** The node answers a request for a height with a block of that height. *)
Definition faithful (client : Node) : Prop :=
  forall h n, source_height (fetched client h) = Some n -> n = h.


(** The starts of [n] consecutive sub-batches from [start]. *)
Definition batch_starts_from (start : Z) (n : nat) : list Z :=
  List.map (fun i => start + BATCH_SIZE * Z.of_nat i) (List.seq 0 n).



(** What a raw block carries under [header.height], if anything. *)
Definition header_height (block_data : json) : option json :=
  match block_data with
  | JDict b =>
      match dict_get_default b "header" (JDict []) with
      | JDict header => dict_lookup header "height"
      | _ => None
      end
  | _ => None
  end.

(** Every block of the batch carries an [int] as its height. *)
Definition integer_heights (blocks_data : list json) : Prop :=
  List.Forall (fun block_data => exists n, header_height block_data = Some (JInt n))
              blocks_data.

(** No block of the batch carries a [float] or a [bool] as its height (the
    numbers that Python compares with an [int] and that are no [int]). *)
Definition no_fractional_height (blocks_data : list json) : Prop :=
  List.Forall (fun block_data =>
                 match header_height block_data with
                 | Some (JFloat _) | Some (JBool _) => False
                 | _ => True
                 end)
              blocks_data.

(** The heights that sub-batch [b] of a run to [end_height] gets from the node. *)
Definition served (client : Node) (end_height b : Z) : list Z :=
  List.filter (fetch_ok client)
              (range_incl b (Z.min (b + BATCH_SIZE - 1) end_height)).

(** Every Transaction row refers to a Block row: the foreign key of
    [transactions.block_height]. *)
Definition refs_ok {decimal} (st : store (decimal := decimal)) : Prop :=
  forall x, x ∈ transactions st ->
            Transaction.block_height x ∈ List.map Block.height (blocks st).

(** The store holds, at each height it has, the block the node serves there:
    the hash stored is the canonical hash of the block served. *)
Definition mirrors {decimal} (client : Node) (st : store (decimal := decimal)) : Prop :=
  forall row, row ∈ blocks st ->
    compute_block_hash (fetched client (Block.height row)) = Ok (Block.hash row).

(** The same, for the heights from [d] on. *)
Definition mirrors_from {decimal} (client : Node) (d : Z)
  (st : store (decimal := decimal)) : Prop :=
  forall row, row ∈ blocks st -> d <= Block.height row ->
    compute_block_hash (fetched client (Block.height row)) = Ok (Block.hash row).

(** The exceptions the store raises. *)
Definition store_error (e : exn) : Prop :=
  e = IntegrityError \/ e = OperationalError.

(** The exceptions raised on the content of a block, before any statement. *)
Definition content_error (e : exn) : Prop :=
  e = AttributeError \/ e = KeyError \/ e = TypeError \/ e = ValueError
  \/ e = InvalidOperation.

(** The transaction [x] names the address [s], as sender or as recipient. *)
Definition names {decimal} (s : string) (x : Transaction.t decimal) : Prop :=
  Transaction.from_address x = JStr s \/ Transaction.to_address x = JStr s.

(** The Block row [row] and the Transaction rows [g] stored for it: as many
    as the row counts, at the positions 0, 1, 2, ... in order, each with the
    height of the row. *)
Definition block_of_rows {decimal} (row : Block.t) (g : list (Transaction.t decimal))
  : Prop :=
  Block.tx_count row = Z.of_nat (List.length g)
  /\ List.map Transaction.tx_index g = List.map Z.of_nat (List.seq 0 (List.length g))
  /\ List.Forall (fun x => Transaction.block_height x = Block.height row) g.

(** The heights of the blocks requested in a trace, in order. *)
Definition block_requests (t : list event) : list Z :=
  List.flat_map (fun e => match e with EvGetBlock h => [h] | _ => [] end) t.

(** * Properties *)

(** ** Python values *)

Lemma int_of_str_of_int (n : Z) : int_of_str (str_of_int n) = Ok n.
Proof.
  unfold int_of_str, str_of_int.
  rewrite NilZero.isi.
  - now rewrite DecimalZ.of_to.
  - destruct n; cbn; try discriminate.
    intros H; injection H as H. now apply DecimalPos.Unsigned.to_uint_nonnil in H.
  - destruct n; cbn; try discriminate.
    intros H; injection H as H. now apply DecimalPos.Unsigned.to_uint_nonnil in H.
Qed.

Lemma rbind_ok {A B} (r : result A) (k : A -> result B) (b : B) :
  rbind r k = Ok b -> exists a, r = Ok a /\ k a = Ok b.
Proof. destruct r as [a|e]; cbn; [eauto | discriminate]. Qed.

Lemma dict_lookup_set_eq (d : pydict) (k : string) (v : json) :
  dict_lookup (dict_set d k v) k = Some v.
Proof.
  induction d as [|[k' v'] d IH]; cbn.
  - now rewrite String.eqb_refl.
  - destruct (String.eqb k' k) eqn:E; cbn.
    + now rewrite String.eqb_refl.
    + now rewrite E.
Qed.

Lemma dict_lookup_set_ne (d : pydict) (k k0 : string) (v : json) :
  k <> k0 -> dict_lookup (dict_set d k v) k0 = dict_lookup d k0.
Proof.
  intros Hne. induction d as [|[k' v'] d IH]; cbn.
  - destruct (String.eqb_spec k k0); [contradiction | reflexivity].
  - destruct (String.eqb_spec k' k) as [->|Hk]; cbn.
    + destruct (String.eqb_spec k k0); [contradiction | reflexivity].
    + now rewrite IH.
Qed.

Lemma dict_get_set_ne (d : pydict) (k k0 : string) (v : json) :
  k <> k0 -> dict_get (dict_set d k v) k0 = dict_get d k0.
Proof. intros H. unfold dict_get. now rewrite dict_lookup_set_ne. Qed.

Lemma agree_on_dict_set (keys : list string) (d : pydict) (k : string) (v : json) :
  ~ In k keys -> agree_on keys d (dict_set d k v).
Proof.
  intros Hk k0 Hin. rewrite dict_get_set_ne; [reflexivity|].
  intros ->. contradiction.
Qed.

(** The digest and the encoding agree with [hashlib] and [json] on samples. *)
Example sha256_abc :
  Sha256.hexdigest "abc"
  = "ba7816bf8f01cfea414140de5dae2223b00361a396177a9cb410ff61f20015ad".
Proof. vm_compute. reflexivity. Qed.

Example sha256_empty :
  Sha256.hexdigest EmptyString
  = "e3b0c44298fc1c149afbf4c8996fb92427ae41e4649b934ca495991b7852b855".
Proof. vm_compute. reflexivity. Qed.

Example sha256_one_full_block :
  Sha256.hexdigest
    "aaaaaaaaaaaaaaaaaaaaaaaaaaaaaaaaaaaaaaaaaaaaaaaaaaaaaaaaaaaaaaaa"
  = "ffe054fe7ae0cb6dc65c3af9b61d5209f439851db43d0ba5997337df154668eb".
Proof. vm_compute. reflexivity. Qed.

Example sha256_first_and_last_constant :
  List.nth 0 Sha256.K 0 = 0x428a2f98 /\ List.nth 63 Sha256.K 0 = 0xc67178f2
  /\ List.length Sha256.K = 64%nat /\ List.nth 7 Sha256.H0 0 = 0x5be0cd19.
Proof. vm_compute. repeat split; reflexivity. Qed.

(** C3. The canonical hashes are functions of the hashed fields only: two
    blocks whose headers agree on height, prev_hash, timestamp, tx_root and
    state_root have the same hash, whatever else differs in the header (such
    as gas_used) or in the block; two transactions that agree on tx_type,
    from_address, to_address, amount, nonce and signature have the same hash.
    Identical inputs are the special case, so the hash of a given input is
    always the same: the computation reads nothing but its argument. *)
Theorem canonical_hashes_depend_on_hashed_fields
  (b b' h h' t t' : pydict) :
  dict_get_default b "header" (JDict []) = JDict h ->
  dict_get_default b' "header" (JDict []) = JDict h' ->
  agree_on block_hashed_fields h h' ->
  agree_on tx_hashed_fields t t' ->
  compute_block_hash (JDict b) = compute_block_hash (JDict b')
  /\ compute_tx_hash (JDict t) = compute_tx_hash (JDict t').
Proof.
  intros Hb Hb' Hh Ht. split.
  - unfold compute_block_hash. cbn [attr_get rbind]. rewrite Hb, Hb'. cbn [attr_get rbind].
    rewrite !(Hh _) by (cbn; tauto). reflexivity.
  - unfold compute_tx_hash. cbn [attr_get rbind].
    rewrite !(Ht _) by (cbn; tauto). reflexivity.
Qed.

Lemma canonical_hashes_depend_on_hashed_fields_witness :
  compute_block_hash (raw_block "old" 7)
  = compute_block_hash
      (JDict [ ("header", JDict [ ("height", JInt 7); ("prev_hash", JStr "p");
                                  ("timestamp", JInt 1007); ("tx_root", JStr "t");
                                  ("state_root", JStr "old");
                                  ("gas_used", JInt 99999) ]) ])
  /\ compute_tx_hash (raw_tx "alice" "bob" 7)
     = compute_tx_hash
         (JDict (dict_set
            (dict_set [ ("tx_type", JStr "TRANSFER"); ("from_address", JStr "alice");
                        ("to_address", JStr "bob"); ("amount", JInt 5);
                        ("nonce", JInt 7); ("signature", JStr "sig7") ]
               "gas_used" (JInt 1)) "fee" (JInt 77))).
Proof.
  apply canonical_hashes_depend_on_hashed_fields
    with (h := [ ("height", JInt 7); ("prev_hash", JStr "p");
                 ("timestamp", JInt 1007); ("chain_id", JStr "cc");
                 ("proposer_address", JStr "val");
                 ("tx_root", JStr "t"); ("state_root", JStr "old");
                 ("gas_used", JInt 0); ("gas_limit", JInt 100) ])
         (h' := [ ("height", JInt 7); ("prev_hash", JStr "p");
                  ("timestamp", JInt 1007); ("tx_root", JStr "t");
                  ("state_root", JStr "old"); ("gas_used", JInt 99999) ]).
  - reflexivity.
  - reflexivity.
  - intros k Hk. cbn in Hk.
    repeat (destruct Hk as [<-|Hk]; [reflexivity|]). contradiction.
  - intros k Hk. cbn in Hk.
    repeat (destruct Hk as [<-|Hk]; [reflexivity|]). contradiction.
Defined.

(** ** The session: what a body may change *)

Lemma tx_scan_app (o : bool) (t1 t2 : list event) :
  tx_scan o (t1 ++ t2)
  = match tx_scan o t1 with Some o' => tx_scan o' t2 | None => None end.
Proof.
  revert o. induction t1 as [|e t1 IH]; intros o; cbn; [reflexivity|].
  destruct (tx_step o e); [apply IH | reflexivity].
Qed.

Section Session.

Context {decimal : Type}.
Variable Decimal_str : json -> option decimal.
Variable settings : Settings.
Variable client : Node.

Local Abbreviation world := (world (decimal := decimal)).
Local Abbreviation store := (store (decimal := decimal)).
Local Abbreviation M := (M (decimal := decimal)).

(** What every step of the engine leaves alone outside a commit: the clock
    only grows by sleeping, and the trace only grows. *)
Record frame (w w' : world) : Prop := Frame {
  fr_resync : w_last_resync_time w' = w_last_resync_time w;
  fr_faults : w_faults w = [] -> w_faults w' = [];
  fr_trace : exists d : list event, w_trace w' = w_trace w ++ d
                       /\ tx_scan (w_in_tx w) d = Some (w_in_tx w')
}.

(** A step inside a session: the committed rows and the clock stay. *)
Record in_session (w w' : world) : Prop := InSession {
  is_frame : frame w w';
  is_db : w_db w' = w_db w;
  is_clock : w_clock w' = w_clock w
}.

Lemma frame_refl w : frame w w.
Proof.
  split; auto. exists []. now rewrite app_nil_r.
Qed.

Lemma frame_trans w1 w2 w3 : frame w1 w2 -> frame w2 w3 -> frame w1 w3.
Proof.
  intros [R1 F1 (d1 & T1 & S1)] [R2 F2 (d2 & T2 & S2)]. split.
  - congruence.
  - auto.
  - exists (d1 ++ d2). split.
    + rewrite T2, T1. now rewrite app_assoc.
    + rewrite tx_scan_app, S1. exact S2.
Qed.

Lemma in_session_refl w : in_session w w.
Proof. split; auto using frame_refl. Qed.

Lemma in_session_trans w1 w2 w3 :
  in_session w1 w2 -> in_session w2 w3 -> in_session w1 w3.
Proof.
  intros [F1 D1 C1] [F2 D2 C2]. split; [eauto using frame_trans | congruence..].
Qed.

(** [m] is a session step, whatever it returns. *)
Definition session_step {A} (m : M A) : Prop :=
  forall w w' r, m w = (w', r) -> in_session w w'.

Lemma session_step_ret {A} (a : A) : session_step (ret a).
Proof. intros w w' r [= <- _]. apply in_session_refl. Qed.

Lemma session_step_raise {A} (e : exn) : session_step (raise (A := A) e).
Proof. intros w w' r [= <- _]. apply in_session_refl. Qed.

Lemma session_step_lift {A} (x : result A) : session_step (lift x).
Proof. intros w w' r [= <- _]. apply in_session_refl. Qed.

Lemma session_step_utcnow : session_step utcnow.
Proof. intros w w' r [= <- _]. apply in_session_refl. Qed.

Lemma session_step_bind {A B} (m : M A) (k : A -> M B) :
  session_step m -> (forall a, session_step (k a)) -> session_step (bind m k).
Proof.
  intros Hm Hk w w' r. unfold bind.
  destruct (m w) as [w1 [a|e]] eqn:E.
  - intros H. eapply in_session_trans; [eapply Hm, E | eapply Hk, H].
  - intros [= <- _]. eapply Hm, E.
Qed.

Lemma session_step_session_add (p : pending) : session_step (session_add p).
Proof.
  intros w w' r [= <- _]. split; [split|..]; cbn; auto.
  exists []. now rewrite app_nil_r.
Qed.

Lemma session_step_fault : session_step fault.
Proof.
  intros w w' r. unfold fault.
  destruct (w_faults w) as [|[|] f] eqn:E; intros [= <- _];
    (split; [split|..]; cbn; auto; try congruence;
     exists []; now rewrite app_nil_r).
Qed.

Lemma session_step_emit_statement : session_step (emit EvStatement).
Proof.
  intros w w' r [= <- _]. split; [split|..]; cbn; auto.
  exists [EvStatement]. split; [reflexivity|]. cbn. reflexivity.
Qed.

Lemma session_step_roundtrip : session_step roundtrip.
Proof.
  unfold roundtrip. apply session_step_bind; [|intros _; apply session_step_bind].
  - intros w w' r. destruct (w_in_tx w) eqn:E; intros [= <- _].
    + apply in_session_refl.
    + split; [split|..]; cbn; auto.
      exists [EvBegin]. split; [reflexivity|]. now rewrite E.
  - apply session_step_emit_statement.
  - intros _. apply session_step_fault.
Qed.

Lemma session_step_flush : session_step flush.
Proof.
  intros w w' r. unfold flush.
  destruct (w_new w) as [|p news] eqn:E.
  - intros [= <- _]. apply in_session_refl.
  - unfold bind. destruct (roundtrip w) as [w1 [[]|e]] eqn:R.
    + apply session_step_roundtrip in R.
      destruct (flush_rows _ _ _); intros [= <- _]; [|exact R].
      eapply in_session_trans; [exact R|].
      split; [split|..]; cbn; auto. exists []. now rewrite app_nil_r.
    + intros [= <- _]. eapply session_step_roundtrip, R.
Qed.

Lemma session_step_execute {A} (f : store -> result (store * A)) :
  session_step (execute f).
Proof.
  unfold execute. apply session_step_bind; [apply session_step_flush|intros _].
  apply session_step_bind; [apply session_step_roundtrip|intros _].
  intros w w' r. destruct (f (w_view w)) as [[st a]|e]; intros [= <- _].
  - split; [split|..]; cbn; auto. exists []. now rewrite app_nil_r.
  - apply in_session_refl.
Qed.

Lemma session_step_for_each {A} (l : list A) (body : A -> M unit) :
  (forall a, session_step (body a)) -> session_step (for_each l body).
Proof.
  intros Hb. induction l as [|a l IH]; cbn.
  - apply session_step_ret.
  - apply session_step_bind; auto.
Qed.

Lemma session_step_set_indexed_height (height : Z) :
  session_step (_set_indexed_height height).
Proof.
  unfold _set_indexed_height.
  apply session_step_bind; [apply session_step_utcnow|intros now].
  apply session_step_execute.
Qed.

Lemma session_step_update_accounts_batch (addresses : gset string) (height : Z) :
  session_step (_update_accounts_batch addresses height).
Proof.
  unfold _update_accounts_batch.
  apply session_step_bind; [apply session_step_utcnow|intros now].
  apply session_step_for_each. intros a. apply session_step_execute.
Qed.

(** *** The loops of the persister are their plan *)

Lemma set_new_app_nil (w : world) : set_new (w_new w ++ []) w = w.
Proof. rewrite app_nil_r. now destruct w. Qed.

Lemma set_new_set_new (x y : list pending) (w : world) :
  set_new x (set_new y w) = set_new x w.
Proof. reflexivity. Qed.

Lemma index_transactions_planned (txs : list json) :
  forall height idx addresses (w : world),
    match planned_transactions Decimal_str height idx txs addresses with
    | Ok (xs, a) =>
        index_transactions Decimal_str height idx txs addresses w
        = (set_new (w_new w ++ List.map NewTransaction xs) w, Ok a)
    | Raise e =>
        exists news,
        index_transactions Decimal_str height idx txs addresses w
        = (set_new (w_new w ++ news) w, Raise e)
    end.
Proof.
  induction txs as [|tx_data rest IH]; intros height idx addresses w; cbn.
  - unfold ret. now rewrite set_new_app_nil.
  - destruct (make_transaction Decimal_str height idx tx_data) as [tx|e]; cbn;
      [|exists []; now rewrite set_new_app_nil].
    destruct (attr_get tx_data) as [t|e]; cbn; [|now eexists].
    destruct (collect_address (dict_get t "from_address") addresses) as [a1|e]; cbn;
      [|now eexists].
    destruct (collect_address (dict_get t "to_address") a1) as [a2|e]; cbn;
      [|now eexists].
    specialize (IH height (idx + 1) a2 (set_new (w_new w ++ [NewTransaction tx]) w)).
    destruct (planned_transactions Decimal_str height (idx + 1) rest a2) as [[xs a]|e]; cbn.
    + rewrite IH. cbn. now rewrite set_new_set_new, <- app_assoc.
    + destruct IH as [news IH]. rewrite IH. cbn.
      rewrite set_new_set_new, <- app_assoc. now eexists.
Qed.

Lemma index_blocks_planned (blocks_data : list json) :
  forall addresses max_height (w : world),
    match planned Decimal_str blocks_data addresses max_height with
    | Ok (news, a, m) =>
        index_blocks Decimal_str blocks_data addresses max_height w
        = (set_new (w_new w ++ news) w, Ok (a, m))
    | Raise e =>
        exists news,
        index_blocks Decimal_str blocks_data addresses max_height w
        = (set_new (w_new w ++ news) w, Raise e)
    end.
Proof.
  induction blocks_data as [|block_data rest IH]; intros addresses max_height w; cbn.
  - unfold ret. now rewrite set_new_app_nil.
  - destruct (make_block block_data) as [[[block height] txs]|e]; cbn;
      [|exists []; now rewrite set_new_app_nil].
    unfold bind at 1.
    pose proof (index_transactions_planned txs height 0 addresses
                  (set_new (w_new w ++ [NewBlock block]) w)) as HT.
    destruct (planned_transactions Decimal_str height 0 txs addresses) as [[xs a1]|e]; cbn.
    + rewrite HT. cbn. rewrite set_new_set_new.
      specialize (IH a1 (Z.max max_height height)
                     (set_new ((w_new w ++ [NewBlock block]) ++ List.map NewTransaction xs) w)).
      destruct (planned Decimal_str rest a1 (Z.max max_height height)) as [[[news a] m]|e]; cbn.
      * rewrite IH. cbn. now rewrite set_new_set_new, <- !app_assoc.
      * destruct IH as [news IH]. eexists. unfold bind. rewrite HT. cbn.
        rewrite set_new_set_new, IH. cbn.
        rewrite set_new_set_new, <- !app_assoc. reflexivity.
    + destruct HT as [news HT]. eexists. unfold bind. rewrite HT. cbn.
      rewrite set_new_set_new, <- app_assoc. reflexivity.
Qed.

Lemma session_step_index_blocks blocks_data addresses max_height :
  session_step (index_blocks Decimal_str blocks_data addresses max_height).
Proof.
  intros w w' r H.
  pose proof (index_blocks_planned blocks_data addresses max_height w) as P.
  destruct (planned _ _ _ _) as [[[news a] m]|e].
  - rewrite P in H. injection H as <- _.
    split; [split|..]; cbn; auto. exists []. now rewrite app_nil_r.
  - destruct P as [news P]. rewrite P in H. injection H as <- _.
    split; [split|..]; cbn; auto. exists []. now rewrite app_nil_r.
Qed.

(** *** Reading a successful step backwards *)

Lemma roundtrip_inv (w w' : world) r :
  roundtrip w = (w', r) ->
  w_view w' = w_view w /\ w_new w' = w_new w /\ w_in_tx w' = true
  /\ (r = Ok tt \/ r = Raise OperationalError)
  /\ (w_faults w = [] -> r = Ok tt).
Proof.
  unfold roundtrip, bind, emit, fault.
  destruct (w_in_tx w) eqn:E; cbn;
    destruct (w_faults w) as [|[|] f]; cbn; intros [= <- <-]; cbn;
      repeat split; auto; discriminate.
Qed.

Lemma flush_rows_nil (now : Z) (st : store) : flush_rows now st [] = Ok st.
Proof. reflexivity. Qed.

Lemma flush_inv (w w' : world) :
  flush w = (w', Ok tt) ->
  flush_rows (w_clock w) (w_view w) (w_new w) = Ok (w_view w')
  /\ w_new w' = []
  /\ (w_in_tx w = true -> w_in_tx w' = true).
Proof.
  unfold flush. destruct (w_new w) as [|p news] eqn:E.
  - intros [= <-]. rewrite E. auto.
  - unfold bind. destruct (roundtrip w) as [w1 [[]|e]] eqn:R; [|discriminate].
    pose proof (session_step_roundtrip _ _ _ R) as [_ _ C].
    apply roundtrip_inv in R as (V & N & T & _).
    rewrite C, V. destruct (flush_rows _ _ _) as [st|e]; [|discriminate].
    intros [= <-]. cbn. auto.
Qed.

Lemma execute_inv {A} (f : store -> result (store * A)) (w w' : world) (a : A) :
  execute f w = (w', Ok a) ->
  exists st1,
    flush_rows (w_clock w) (w_view w) (w_new w) = Ok st1
    /\ f st1 = Ok (w_view w', a)
    /\ w_new w' = [] /\ w_in_tx w' = true.
Proof.
  unfold execute, bind.
  destruct (flush w) as [w1 [[]|e]] eqn:F; [|discriminate].
  apply flush_inv in F as (F & N & _).
  destruct (roundtrip w1) as [w2 [[]|e]] eqn:R; [|discriminate].
  apply roundtrip_inv in R as (V & N2 & T & _).
  rewrite V. destruct (f (w_view w1)) as [[st a0]|e] eqn:Ef; [|discriminate].
  intros [= <- <-]. exists (w_view w1). cbn. repeat split; auto. congruence.
Qed.

Lemma commit_step (w w' : world) r :
  commit w = (w', r) -> w_clock w' = w_clock w /\ (r <> Ok tt -> w_db w' = w_db w).
Proof.
  unfold commit, bind.
  destruct (flush w) as [w1 [[]|e]] eqn:F.
  - apply session_step_flush in F as [_ D C].
    destruct (w_in_tx w1).
    + destruct (fault w1) as [w2 [[]|e]] eqn:Ef.
      * apply session_step_fault in Ef as [_ D2 C2].
        intros [= <- <-]. cbn. split; [congruence|]. intros H; now destruct H.
      * apply session_step_fault in Ef as [_ D2 C2].
        intros [= <- <-]. split; congruence.
    + intros [= <- <-]. split; [congruence|]. intros H; now destruct H.
  - apply session_step_flush in F as [_ D C]. intros [= <- <-]. split; congruence.
Qed.

Lemma commit_inv (w w' : world) :
  commit w = (w', Ok tt) -> w_in_tx w = true ->
  flush_rows (w_clock w) (w_view w) (w_new w) = Ok (w_db w')
  /\ w_in_tx w' = false /\ w_view w' = w_db w' /\ w_new w' = [].
Proof.
  unfold commit, bind. intros H T.
  destruct (flush w) as [w1 [[]|e]] eqn:F; [|discriminate].
  apply flush_inv in F as (F & N & T1). rewrite (T1 T) in H.
  unfold fault in H. destruct (w_faults w1) as [|[|] f]; try discriminate;
    injection H as <-; cbn; auto.
Qed.

Lemma rollback_inv (w : world) :
  let w' := fst (rollback w) in
  w_db w' = w_db w /\ w_view w' = w_db w /\ w_new w' = [] /\ w_in_tx w' = false
  /\ w_clock w' = w_clock w.
Proof. unfold rollback. destruct (w_in_tx w) eqn:E; cbn; auto. Qed.

Lemma get_session_context_inv {A} (body : M A) (w w' : world) (a : A) :
  get_session_context body w = (w', Ok a) ->
  exists w1, body (set_new [] (set_view (w_db w) w)) = (w1, Ok a)
             /\ commit w1 = (w', Ok tt).
Proof.
  unfold get_session_context, bind.
  destruct (body _) as [w1 [a0|e]] eqn:B; [|discriminate].
  destruct (commit w1) as [w2 [[]|e]] eqn:Cm; [|discriminate].
  unfold ret. intros [= <- <-]. eauto.
Qed.

(** The session context is atomic: if the body or the commit raises, the
    committed store is what it was, and the session is closed. *)
Lemma get_session_context_raise {A} (body : M A) (w w' : world) (e : exn) :
  session_step body ->
  get_session_context body w = (w', Raise e) ->
  w_db w' = w_db w /\ w_view w' = w_db w /\ w_new w' = [] /\ w_in_tx w' = false
  /\ w_clock w' = w_clock w.
Proof.
  intros Hb. unfold get_session_context, bind.
  destruct (body _) as [w1 [a0|e0]] eqn:B.
  - apply Hb in B as [_ D C]. cbn in D, C.
    destruct (commit w1) as [w2 [[]|e1]] eqn:Cm; [discriminate|].
    apply commit_step in Cm as [C2 D2]. specialize (D2 ltac:(discriminate)).
    intros [= <- <-].
    pose proof (rollback_inv w2) as (R1 & R2 & R3 & R4 & R5).
    repeat split; congruence.
  - apply Hb in B as [_ D C]. cbn in D, C. intros [= <- <-].
    pose proof (rollback_inv w1) as (R1 & R2 & R3 & R4 & R5).
    repeat split; congruence.
Qed.

(** *** What a flush writes *)

Lemma insert_all_blocks (now : Z) (l : list Block.t) :
  forall st st' : store,
    insert_all (insert_block now) st l = Ok st' ->
    blocks st' = blocks st ++ List.map (Block.stamp now) l
    /\ transactions st' = transactions st
    /\ accounts st' = accounts st /\ sync_status st' = sync_status st.
Proof.
  induction l as [|b l IH]; intros st st'; cbn.
  - intros [= <-]. now rewrite app_nil_r.
  - unfold insert_block at 1.
    destruct (existsb _ _); [discriminate|].
    destruct (existsb _ _); [discriminate|].
    destruct (negb _); [discriminate|]. cbn.
    intros H. apply IH in H as (B & T & A & S). cbn in *.
    rewrite B, <- app_assoc. auto.
Qed.

Lemma insert_all_transactions (now : Z) (l : list (Transaction.t decimal)) :
  forall st st' : store,
    insert_all (insert_transaction now) st l = Ok st' ->
    blocks st' = blocks st
    /\ transactions st' = transactions st ++ List.map (Transaction.stamp now) l
    /\ accounts st' = accounts st /\ sync_status st' = sync_status st.
Proof.
  induction l as [|x l IH]; intros st st'; cbn.
  - intros [= <-]. now rewrite app_nil_r.
  - unfold insert_transaction at 1.
    destruct (existsb _ _); [discriminate|].
    destruct (negb (existsb _ _)); [discriminate|].
    destruct (negb _); [discriminate|]. cbn.
    intros H. apply IH in H as (B & T & A & S). cbn in *.
    rewrite T, <- app_assoc. auto.
Qed.

Lemma flush_rows_inv (now : Z) (st st' : store) (news : list pending) :
  flush_rows now st news = Ok st' ->
  blocks st' = blocks st ++ List.map (Block.stamp now) (new_blocks news)
  /\ transactions st'
     = transactions st ++ List.map (Transaction.stamp now) (new_transactions news)
  /\ accounts st' = accounts st /\ sync_status st' = sync_status st.
Proof.
  unfold flush_rows. intros H. apply rbind_ok in H as (st1 & H1 & H2).
  apply insert_all_blocks in H1 as (B1 & T1 & A1 & S1).
  apply insert_all_transactions in H2 as (B2 & T2 & A2 & S2).
  repeat split; congruence.
Qed.

(** *** The persister, read backwards from a success *)

Lemma upsert_accounts_inv (height now : Z) (l : list string) :
  forall w w' : world,
    for_each l (fun address => execute (upsert_account address height now)) w
    = (w', Ok tt) ->
    w_new w = [] -> NoDup l ->
    blocks (w_view w') = blocks (w_view w)
    /\ transactions (w_view w') = transactions (w_view w)
    /\ sync_status (w_view w') = sync_status (w_view w)
    /\ w_new w' = []
    /\ (w_in_tx w = true -> w_in_tx w' = true)
    /\ forall a, accounts (w_view w') !! a
                 = if bool_decide (a ∈ l)
                   then Some (account_row a height now (accounts (w_view w) !! a))
                   else accounts (w_view w) !! a.
Proof.
  induction l as [|x l IH]; intros w w'; cbn [for_each].
  - intros [= <-] N _. repeat split; auto.
  - unfold bind. destruct (execute _ w) as [w1 [[]|e]] eqn:E; [|discriminate].
    intros H N ND. apply execute_inv in E as (st1 & F & U & N1 & T1).
    rewrite N, flush_rows_nil in F. injection F as <-.
    unfold upsert_account in U. injection U as U.
    apply NoDup_cons in ND as [Hx ND'].
    apply IH in H as (B & T & S & N' & Tx & A); auto.
    rewrite <- U in B, T, S, A. cbn in B, T, S, A.
    repeat split; auto.
    intros a. rewrite A.
    destruct (decide (x = a)) as [->|Hne].
    + rewrite (bool_decide_eq_false_2 (a ∈ l)) by exact Hx.
      rewrite lookup_insert_eq.
      rewrite bool_decide_eq_true_2 by (apply list_elem_of_here). reflexivity.
    + rewrite lookup_insert_ne by exact Hne.
      destruct (bool_decide (a ∈ l)) eqn:D.
      * apply bool_decide_eq_true_1 in D.
        rewrite bool_decide_eq_true_2 by (now apply list_elem_of_further). reflexivity.
      * apply bool_decide_eq_false_1 in D.
        rewrite bool_decide_eq_false_2; [reflexivity|].
        intros [?|?]%elem_of_cons; [congruence|contradiction].
Qed.

Lemma index_blocks_batch_inv (blocks_data : list json) (w w' : world) :
  blocks_data <> [] ->
  _index_blocks_batch Decimal_str blocks_data w = (w', Ok tt) ->
  exists news addresses max_height st1,
    planned Decimal_str blocks_data ∅ 0 = Ok (news, addresses, max_height)
    /\ flush_rows (w_clock w) (w_db w) news = Ok st1
    /\ blocks (w_db w') = blocks st1
    /\ transactions (w_db w') = transactions st1
    /\ sync_status (w_db w')
       = <["last_indexed_height" :=
            SyncStatus.mk (Some (str_of_int max_height)) (w_clock w)]>
           (sync_status (w_db w))
    /\ (forall a, accounts (w_db w') !! a
                  = if bool_decide (a ∈ addresses)
                    then Some (account_row a max_height (w_clock w)
                                           (accounts (w_db w) !! a))
                    else accounts (w_db w) !! a)
    /\ w_in_tx w' = false /\ w_view w' = w_db w' /\ w_new w' = []
    /\ w_clock w' = w_clock w.
Proof.
  intros Hne H.
  destruct blocks_data as [|b0 rest]; [contradiction|].
  unfold _index_blocks_batch in H.
  set (bs := b0 :: rest) in *. clearbody bs.
  apply get_session_context_inv in H as (w1 & Hbody & Hcommit).
  set (w0 := set_new [] (set_view (w_db w) w)) in *.
  unfold bind at 1 in Hbody.
  pose proof (index_blocks_planned bs ∅ 0 w0) as P.
  destruct (planned Decimal_str bs ∅ 0) as [[[news addresses] max_height]|e];
    [|destruct P as [news P]; rewrite P in Hbody; discriminate].
  rewrite P in Hbody. cbn [w_new w0 set_new app] in Hbody.
  unfold bind at 1 in Hbody.
  destruct (_set_indexed_height max_height _) as [w2 [[]|e]] eqn:S; [|discriminate].
  pose proof (session_step_set_indexed_height _ _ _ _ S) as [_ D2 C2].
  unfold _set_indexed_height, bind, utcnow in S.
  apply execute_inv in S as (st1 & F & U & N2 & T2).
  cbn in F, D2, C2. injection U as U.
  unfold bind at 1 in Hbody.
  destruct (flush w2) as [w3 [[]|e]] eqn:F3; [|discriminate].
  pose proof (session_step_flush _ _ _ F3) as [_ D3 C3].
  apply flush_inv in F3 as (F3 & N3 & T3). rewrite N2, flush_rows_nil in F3.
  injection F3 as V3. specialize (T3 T2).
  pose proof (flush_rows_inv _ _ _ _ F) as (B1 & X1 & A1 & S1).
  assert (Hacc : blocks (w_view w1) = blocks st1
                 /\ transactions (w_view w1) = transactions st1
                 /\ sync_status (w_view w1)
                    = <["last_indexed_height" :=
                         SyncStatus.mk (Some (str_of_int max_height)) (w_clock w)]>
                        (sync_status (w_db w))
                 /\ (forall a, accounts (w_view w1) !! a
                        = if bool_decide (a ∈ addresses)
                          then Some (account_row a max_height (w_clock w)
                                                 (accounts (w_db w) !! a))
                          else accounts (w_db w) !! a)
                 /\ w_new w1 = [] /\ w_in_tx w1 = true
                 /\ w_clock w1 = w_clock w /\ w_db w1 = w_db w).
  { destruct (bool_decide (addresses = ∅)) eqn:Eempty.
    - apply bool_decide_eq_true_1 in Eempty. subst addresses.
      injection Hbody as <-. rewrite <- V3, <- U. cbn.
      repeat split; auto; try congruence.
      intros a. rewrite bool_decide_eq_false_2 by set_solver. now rewrite A1.
    - pose proof (session_step_update_accounts_batch _ _ _ _ _ Hbody) as [Fr D4 C4].
      unfold _update_accounts_batch, bind, utcnow in Hbody.
      apply upsert_accounts_inv in Hbody as (B & T & S & N & Hin & A);
        [|exact N3|apply NoDup_elements].
      rewrite <- V3, <- U in B, T, S, A. cbn in B, T, S, A.
      specialize (Hin T3).
      repeat split; auto; try congruence.
      intros a. rewrite A. rewrite A1.
        replace (w_clock w3) with (w_clock w) by congruence.
        destruct (bool_decide (a ∈ elements addresses)) eqn:D.
        * apply bool_decide_eq_true_1 in D. apply elem_of_elements in D.
          now rewrite bool_decide_eq_true_2.
        * apply bool_decide_eq_false_1 in D. rewrite elem_of_elements in D.
          now rewrite bool_decide_eq_false_2. }
  destruct Hacc as (B & T & S & A & N & Tx & C & D).
  pose proof (commit_step _ _ _ Hcommit) as [Cc _].
  apply commit_inv in Hcommit as (F4 & T4 & V4 & N4); [|exact Tx].
  rewrite N, flush_rows_nil in F4. injection F4 as F4.
  exists news, addresses, max_height, st1.
  rewrite <- F4. repeat split; auto; try congruence.
Qed.

(** The persister is atomic: when it raises, nothing of the batch is committed. *)
Lemma index_blocks_batch_raise (blocks_data : list json) (w w' : world) (e : exn) :
  _index_blocks_batch Decimal_str blocks_data w = (w', Raise e) ->
  w_db w' = w_db w /\ w_view w' = w_db w /\ w_new w' = [] /\ w_in_tx w' = false
  /\ w_clock w' = w_clock w.
Proof.
  unfold _index_blocks_batch. destruct blocks_data as [|b0 rest]; [discriminate|].
  apply get_session_context_raise.
  apply session_step_bind; [apply session_step_index_blocks|].
  intros [addresses max_height].
  apply session_step_bind; [apply session_step_set_indexed_height|intros _].
  apply session_step_bind; [apply session_step_flush|intros _].
  destruct (bool_decide _);
    [apply session_step_ret | apply session_step_update_accounts_batch].
Qed.

(** *** What the plan holds *)

Lemma new_blocks_app (l1 l2 : list (pending (decimal := decimal))) :
  new_blocks (l1 ++ l2) = new_blocks l1 ++ new_blocks l2.
Proof. unfold new_blocks. apply flat_map_app. Qed.

Lemma new_transactions_app (l1 l2 : list (pending (decimal := decimal))) :
  new_transactions (l1 ++ l2) = new_transactions l1 ++ new_transactions l2.
Proof. unfold new_transactions. apply flat_map_app. Qed.

Lemma new_blocks_transactions (xs : list (Transaction.t decimal)) :
  new_blocks (List.map NewTransaction xs) = [].
Proof. induction xs; cbn; auto. Qed.

Lemma new_transactions_transactions (xs : list (Transaction.t decimal)) :
  new_transactions (List.map NewTransaction xs) = xs.
Proof. induction xs; cbn; [|f_equal]; auto. Qed.

Lemma make_block_height (block_data : json) row height txs :
  make_block block_data = Ok (row, height, txs) -> Block.height row = height.
Proof.
  unfold make_block. intros H.
  repeat (apply rbind_ok in H as (? & _ & H)).
  now injection H as <- <- _.
Qed.

Lemma make_transaction_inv (height idx : Z) (tx_data : json) x :
  make_transaction Decimal_str height idx tx_data = Ok x ->
  exists t, tx_data = JDict t
    /\ compute_tx_hash tx_data = Ok (Transaction.hash x)
    /\ Transaction.block_height x = height
    /\ Transaction.tx_index x = idx
    /\ Transaction.gas_limit x = dict_get_default t "gas_limit" (JInt 0)
    /\ Transaction.gas_used x = dict_get_default t "gas_limit" (JInt 0).
Proof.
  unfold make_transaction. intros H.
  apply rbind_ok in H as (h & Hh & H).
  apply rbind_ok in H as (t & Ht & H).
  repeat (apply rbind_ok in H as (? & _ & H)).
  injection H as <-. cbn.
  destruct tx_data; try discriminate. injection Ht as ->. eauto 10.
Qed.

Lemma planned_transactions_inv (txs : list json) :
  forall height idx addresses xs addresses',
    planned_transactions Decimal_str height idx txs addresses = Ok (xs, addresses') ->
    Forall2 (fun tx_data x =>
               exists i, make_transaction Decimal_str height i tx_data = Ok x)
            txs xs.
Proof.
  induction txs as [|tx_data rest IH]; intros height idx addresses xs addresses'; cbn.
  - intros [= <- _]. constructor.
  - intros H.
    apply rbind_ok in H as (x & Hx & H).
    apply rbind_ok in H as (t & _ & H).
    apply rbind_ok in H as (a1 & _ & H).
    apply rbind_ok in H as (a2 & _ & H).
    apply rbind_ok in H as ([xs' a'] & Hr & H).
    injection H as <- _. cbn. constructor; eauto.
Qed.

Lemma planned_inv (blocks_data : list json) :
  forall addresses max_height news addresses' max_height',
    planned Decimal_str blocks_data addresses max_height
    = Ok (news, addresses', max_height') ->
    Forall2 (fun block_data row =>
               exists txs, make_block block_data = Ok (row, Block.height row, txs))
            blocks_data (new_blocks news)
    /\ Forall2 (fun tx_data x =>
                  exists h i, make_transaction Decimal_str h i tx_data = Ok x)
               (List.flat_map source_transactions blocks_data)
               (new_transactions news)
    /\ max_height'
       = List.fold_left Z.max (List.map Block.height (new_blocks news)) max_height.
Proof.
  induction blocks_data as [|block_data rest IH];
    intros addresses max_height news addresses' max_height'; cbn [planned].
  - intros [= <- _ <-]. cbn. repeat split; constructor.
  - intros H.
    apply rbind_ok in H as ([[row height] txs] & Hmk & H).
    apply rbind_ok in H as ([xs a1] & Hxs & H).
    apply rbind_ok in H as ([[news' a2] m2] & Hrest & H).
    cbn in H, Hxs, Hrest. injection H as <- _ <-.
    apply IH in Hrest as (HB & HT & HM).
    pose proof (make_block_height _ _ _ _ Hmk) as Hh.
    change (NewBlock row :: List.map NewTransaction xs ++ news')
      with ([NewBlock row] ++ List.map NewTransaction xs ++ news').
    rewrite !new_blocks_app, !new_transactions_app.
    rewrite new_blocks_transactions, new_transactions_transactions.
    cbn [new_blocks new_transactions flat_map app List.map fold_left].
    repeat split.
    + constructor; [|exact HB]. exists txs. now rewrite Hh.
    + unfold source_transactions at 1. rewrite Hmk.
      apply Forall2_app; [|exact HT].
      apply planned_transactions_inv in Hxs.
      eapply Forall2_impl; [exact Hxs|]. cbn. intros ? ? [i Hi]. eauto.
    + rewrite Hh. exact HM.
Qed.

(** *** The unique keys *)

Lemma existsb_height_false (st : list Block.t) (h : Z) :
  List.existsb (fun b' => Block.height b' =? h) st = false ->
  h ∉ List.map Block.height st.
Proof.
  rewrite list_elem_of_In.
  induction st as [|b st IH]; cbn; [tauto|].
  intros H [E|I].
  - rewrite E, Z.eqb_refl in H. discriminate.
  - apply orb_false_elim in H as [_ H]. now apply IH.
Qed.

Lemma existsb_height_true (st : list Block.t) (h : Z) :
  h ∈ List.map Block.height st ->
  List.existsb (fun b' => Block.height b' =? h) st = true.
Proof.
  rewrite list_elem_of_In.
  induction st as [|b st IH]; cbn; [tauto|].
  intros [E|I].
  - now rewrite E, Z.eqb_refl.
  - rewrite (IH I). apply orb_true_r.
Qed.

Lemma existsb_hash_false {A} (hash : A -> string) (st : list A) (h : string) :
  List.existsb (fun x => String.eqb (hash x) h) st = false ->
  h ∉ List.map hash st.
Proof.
  rewrite list_elem_of_In.
  induction st as [|b st IH]; cbn; [tauto|].
  intros H [E|I].
  - rewrite E, String.eqb_refl in H. discriminate.
  - apply orb_false_elim in H as [_ H]. now apply IH.
Qed.

Lemma NoDup_snoc {A} (l : list A) (x : A) :
  NoDup l -> x ∉ l -> NoDup (l ++ [x]).
Proof.
  intros ND Hx. apply NoDup_app. split; [exact ND|].
  split; [|apply NoDup_singleton].
  intros y Hy Hy'. apply list_elem_of_singleton in Hy'. subst. contradiction.
Qed.

Lemma insert_all_blocks_keys (now : Z) (l : list Block.t) :
  forall st st' : store,
    insert_all (insert_block now) st l = Ok st' ->
    NoDup (List.map Block.height (blocks st)) ->
    NoDup (List.map Block.hash (blocks st)) ->
    NoDup (List.map Block.height (blocks st'))
    /\ NoDup (List.map Block.hash (blocks st')).
Proof.
  induction l as [|b l IH]; intros st st'; cbn.
  - intros [= <-]. auto.
  - unfold insert_block at 1.
    destruct (existsb (fun b' => Block.height b' =? _) _) eqn:E1; [discriminate|].
    destruct (existsb (fun b' => String.eqb _ _) _) eqn:E2; [discriminate|].
    destruct (negb _); [discriminate|]. cbn.
    intros H N1 N2. apply IH in H; auto; cbn; rewrite map_app; cbn.
    + apply NoDup_snoc; [exact N1|]. now apply existsb_height_false.
    + apply NoDup_snoc; [exact N2|].
      now apply (existsb_hash_false Block.hash).
Qed.

Lemma insert_all_transactions_keys (now : Z) (l : list (Transaction.t decimal)) :
  forall st st' : store,
    insert_all (insert_transaction now) st l = Ok st' ->
    NoDup (List.map Transaction.hash (transactions st)) ->
    NoDup (List.map Transaction.hash (transactions st')).
Proof.
  induction l as [|x l IH]; intros st st'; cbn.
  - intros [= <-]. auto.
  - unfold insert_transaction at 1.
    destruct (existsb (fun x' => String.eqb _ _) _) eqn:E1; [discriminate|].
    destruct (negb (existsb _ _)); [discriminate|].
    destruct (negb _); [discriminate|]. cbn.
    intros H N1. apply IH in H; auto; cbn; rewrite map_app; cbn.
    apply NoDup_snoc; [exact N1|].
    now apply (existsb_hash_false Transaction.hash).
Qed.

Lemma flush_rows_keys (now : Z) (st st' : store) (news : list pending) :
  flush_rows now st news = Ok st' -> keys_ok st -> keys_ok st'.
Proof.
  unfold flush_rows. intros H (K1 & K2 & K3).
  apply rbind_ok in H as (st1 & H1 & H2).
  pose proof (insert_all_blocks _ _ _ _ H1) as (_ & T1 & _).
  pose proof (insert_all_transactions _ _ _ _ H2) as (B2 & _).
  apply insert_all_blocks_keys in H1 as [N1 N2]; auto.
  apply insert_all_transactions_keys in H2; [|now rewrite T1].
  unfold keys_ok. rewrite B2. auto.
Qed.

(** A batch whose first block has a height that the store already holds
    cannot be written: the flush violates the unique key, or the connection
    drops before. *)
Lemma index_blocks_batch_conflict (blocks_data : list json) (w : world)
  news addresses max_height b l :
  planned Decimal_str blocks_data ∅ 0 = Ok (news, addresses, max_height) ->
  new_blocks news = b :: l ->
  Block.height b ∈ List.map Block.height (blocks (w_db w)) ->
  exists w' e,
    _index_blocks_batch Decimal_str blocks_data w = (w', Raise e)
    /\ (e = IntegrityError \/ e = OperationalError).
Proof.
  intros P NB Hin.
  destruct blocks_data as [|b0 rest]; [cbn in P; injection P as <-; discriminate|].
  unfold _index_blocks_batch, get_session_context.
  set (w0 := set_new [] (set_view (w_db w) w)).
  unfold bind at 1. unfold bind at 1.
  pose proof (index_blocks_planned (b0 :: rest) ∅ 0 w0) as Q.
  rewrite P in Q. rewrite Q. cbn [w_new w0 set_new app].
  unfold bind at 1.
  unfold _set_indexed_height at 1, bind at 1, utcnow at 1.
  unfold execute at 1, bind at 1.
  unfold flush at 1. cbn [w_new set_new].
  destruct news as [|p news']; [discriminate|].
  unfold bind at 1.
  destruct (roundtrip _) as [w1 [[]|e]] eqn:R.
  - pose proof (session_step_roundtrip _ _ _ R) as [_ D C].
    apply roundtrip_inv in R as (V & _).
    assert (F : flush_rows (w_clock w1) (w_view w1) (p :: news') = Raise IntegrityError).
    { unfold flush_rows. rewrite NB. cbn [insert_all]. unfold insert_block at 1.
      rewrite V. cbn [w_view set_new set_view].
      rewrite existsb_height_true by exact Hin. reflexivity. }
    rewrite F. eauto.
  - apply roundtrip_inv in R as (_ & _ & _ & [R|R] & _); [discriminate|].
    injection R as ->. eauto.
Qed.

End Session.

(** ** The persister *)

Lemma Forall2_map_r {A B C} (R : A -> C -> Prop) (f : B -> C) (l : list A) (k : list B) :
  Forall2 (fun a b => R a (f b)) l k -> Forall2 R l (List.map f k).
Proof. induction 1; cbn; constructor; auto. Qed.

(** C10. Every transaction row that the persister stores takes its gas_used
    from the gas_limit of its source transaction (0 when the source has
    none), not from the source's gas_used: the rows a successful
    [_index_blocks_batch] adds correspond one to one, in order, to the
    transactions of the batch, and each holds that value. *)
Theorem stored_gas_used_is_source_gas_limit
  {decimal : Type} (Decimal_str : json -> option decimal)
  (blocks_data : list json) (w w' : world) :
  _index_blocks_batch Decimal_str blocks_data w = (w', Ok tt) ->
  exists rows,
    transactions (w_db w') = transactions (w_db w) ++ rows
    /\ Forall2 (fun tx_data x =>
                  exists t, tx_data = JDict t
                    /\ Transaction.gas_used x
                       = dict_get_default t "gas_limit" (JInt 0))
               (List.flat_map source_transactions blocks_data) rows.
Proof.
  intros H. destruct blocks_data as [|b0 rest].
  - injection H as <-. exists []. rewrite app_nil_r. split; [reflexivity|constructor].
  - apply index_blocks_batch_inv in H as
        (news & a & m & st1 & P & F & _ & T & _); [|discriminate].
    apply flush_rows_inv in F as (_ & X & _).
    apply planned_inv in P as (_ & HT & _).
    eexists. split; [rewrite T; exact X|].
    apply Forall2_map_r. eapply Forall2_impl; [exact HT|].
    cbn. intros tx_data x (h & i & Hx).
    apply make_transaction_inv in Hx as (t & -> & _ & _ & _ & _ & G).
    exists t. split; [reflexivity|]. exact G.
Qed.

Lemma stored_gas_used_is_source_gas_limit_witness :
  exists rows,
    transactions
      (w_db (fst (_index_blocks_batch Decimal_of_int [raw_block "old" 1]
                    (at_rest empty_store))))
    = transactions (w_db (at_rest empty_store)) ++ rows
    /\ Forall2 (fun tx_data x =>
                  exists t, tx_data = JDict t
                    /\ Transaction.gas_used x
                       = dict_get_default t "gas_limit" (JInt 0))
               (List.flat_map source_transactions [raw_block "old" 1]) rows.
Proof.
  apply (stored_gas_used_is_source_gas_limit Decimal_of_int).
  vm_compute. reflexivity.
Defined.

(** The source of that witness carries gas_used 20000 and gas_limit 21000:
    the row stores 21000. *)
Example stored_gas_used_example :
  List.map Transaction.gas_used
    (transactions
       (w_db (fst (_index_blocks_batch Decimal_of_int [raw_block "old" 1]
                     (at_rest empty_store)))))
  = [JInt 21000].
Proof. vm_compute. reflexivity. Qed.

(** C9 (the code misses it). The first batch that names the addresses alice
    and bob inserts their Account rows with last_seen_height and last_seen_at
    set, and with first_seen_height and first_seen_at left NULL: the upsert
    of [_update_accounts_batch] lists no value for them. *)
Theorem first_seen_is_left_null :
  let run := _index_blocks_batch Decimal_of_int [raw_block "old" 1]
               (at_rest empty_store) in
  snd run = Ok tt
  /\ accounts empty_store !! "alice" = None
  /\ (Account.first_seen_height <$> accounts (w_db (fst run)) !! "alice") = Some None
  /\ (Account.first_seen_at <$> accounts (w_db (fst run)) !! "alice") = Some None
  /\ (Account.last_seen_height <$> accounts (w_db (fst run)) !! "alice") = Some (Some 1)
  /\ (Account.last_seen_at <$> accounts (w_db (fst run)) !! "alice") = Some (Some 0)
  /\ (Account.first_seen_height <$> accounts (w_db (fst run)) !! "bob") = Some None.
Proof. vm_compute. repeat split; reflexivity. Qed.

(** C5. The persister is atomic.  When [_index_blocks_batch] raises, whatever
    the cause (a violated key, a dropped connection, an unknown transaction
    type, a malformed block), the transaction is rolled back: the committed
    store is what it was before the call, so no Block, Transaction or Account
    row of the batch is visible and the watermark is unchanged.  The
    exception is not caught on the way up: the loop over the sub-batches
    stops with it, [_sync_loop] ends with it, and the catch-all of [start]
    logs it, sleeps 5 s and ends the cycle normally. *)
Theorem persist_is_atomic_and_its_error_reaches_the_catch_all
  {decimal : Type} (Decimal_str : json -> option decimal)
  (settings : Settings) (client : Node)
  (blocks_data : list json) (w w' : world) (e : exn) :
  _index_blocks_batch Decimal_str blocks_data w = (w', Raise e) ->
  (w_db w' = w_db w
   /\ watermark_of (w_db w') = watermark_of (w_db w)
   /\ w_view w' = w_db w /\ w_new w' = [] /\ w_in_tx w' = false)
  /\ (forall batch_start rest end_height w0 fetched,
        gather_blocks client
          (range_incl batch_start (Z.min (batch_start + BATCH_SIZE - 1) end_height)) w0
        = (w, Ok fetched) ->
        valid_blocks_of fetched = blocks_data ->
        sync_batches Decimal_str client (batch_start :: rest) end_height w0
        = (w', Raise e))
  /\ (forall w0 w1 w2 indexed_height chain_height,
        _get_indexed_height w0 = (w1, Ok indexed_height) ->
        get_block_height client w1 = (w2, Ok chain_height) ->
        chain_height <> 0 ->
        indexed_height < chain_height ->
        _sync_blocks_batch Decimal_str client (indexed_height + 1) chain_height w2
        = (w', Raise e) ->
        _sync_loop Decimal_str settings client w0 = (w', Raise e)
        /\ exists w'',
             start_cycle Decimal_str settings client w0 = (w'', Ok tt)
             /\ w_db w'' = w_db w'
             /\ w_trace w'' = w_trace w' ++ [EvLogError e; EvSleep 5000]
             /\ w_clock w'' = w_clock w' + 5000).
Proof.
  intros H. split; [|split].
  - pose proof (index_blocks_batch_raise _ _ _ _ _ H) as (D & V & N & T & _).
    repeat split; auto. now rewrite D.
  - intros batch_start rest end_height w0 fetched G <-.
    cbn [sync_batches]. unfold bind at 1. rewrite G.
    destruct (valid_blocks_of fetched) as [|b l] eqn:E; [discriminate H|].
    unfold bind at 1. now rewrite H.
  - intros w0 w1 w2 indexed_height chain_height G1 G2 Hc Hlt Hs.
    assert (L : _sync_loop Decimal_str settings client w0 = (w', Raise e)).
    { unfold _sync_loop. unfold bind at 1. rewrite G1.
      unfold bind at 1. rewrite G2.
      destruct (Z.eqb_spec chain_height 0) as [?|_]; [contradiction|].
      destruct (Z.ltb_spec indexed_height chain_height) as [_|?]; [|lia].
      unfold bind at 1. now rewrite Hs. }
    split; [exact L|].
    unfold start_cycle. rewrite L. cbn.
    eexists. split; [reflexivity|]. cbn. rewrite <- app_assoc. auto.
Qed.

(** A batch whose transaction has a type outside the enumeration. *)
Definition bad_type_block : json :=
  JDict [ ("header", JDict [ ("height", JInt 11); ("prev_hash", JStr "p");
                             ("timestamp", JInt 1011); ("chain_id", JStr "cc");
                             ("proposer_address", JStr "val");
                             ("tx_root", JStr "t"); ("state_root", JStr "old") ]);
          ("txs", JList [ JDict [ ("tx_type", JStr "MINT");
                                  ("from_address", JStr "carol") ] ]) ].

Lemma persist_is_atomic_and_its_error_reaches_the_catch_all_witness :
  let run := _index_blocks_batch Decimal_of_int [raw_block "old" 11; bad_type_block]
               (at_rest chain_1_10) in
  snd run = Raise ValueError
  /\ w_db (fst run) = w_db (at_rest chain_1_10)
  /\ watermark_of (w_db (fst run)) = watermark_of (w_db (at_rest chain_1_10)).
Proof.
  cbv zeta.
  assert (H : _index_blocks_batch Decimal_of_int [raw_block "old" 11; bad_type_block]
                (at_rest chain_1_10)
              = (fst (_index_blocks_batch Decimal_of_int
                        [raw_block "old" 11; bad_type_block] (at_rest chain_1_10)),
                 Raise ValueError)) by (vm_compute; reflexivity).
  split; [now rewrite H|].
  pose proof (proj1 (persist_is_atomic_and_its_error_reaches_the_catch_all
                       Decimal_of_int default_settings (forked_node 10 11)
                       _ _ _ _ H)) as (D & W & _).
  split; [exact D | exact W].
Defined.

Lemma no_row_of_absent_height (l : list Block.t) (h : Z) :
  h ∉ List.map Block.height l ->
  List.filter (fun r => Block.height r =? h) l = [].
Proof.
  induction l as [|r l IH]; cbn; [reflexivity|].
  intros H. destruct (Z.eqb_spec (Block.height r) h) as [E|E].
  - exfalso. apply H. rewrite E. apply list_elem_of_here.
  - apply IH. intros Hin. apply H. now apply list_elem_of_further.
Qed.

Lemma one_row_per_height (l : list Block.t) (h : Z) :
  NoDup (List.map Block.height l) ->
  h ∈ List.map Block.height l ->
  List.length (List.filter (fun r => Block.height r =? h) l) = 1%nat.
Proof.
  induction l as [|r l IH]; cbn.
  - intros _ H. inversion H.
  - intros [Hr ND]%NoDup_cons Hin.
    destruct (Z.eqb_spec (Block.height r) h) as [E|E]; cbn.
    + subst h. now rewrite no_row_of_absent_height.
    + apply IH; [exact ND|].
      apply elem_of_cons in Hin as [Hin|Hin]; [congruence|exact Hin].
Qed.

(** C2 (amended). Re-running the persister on a non-empty range that it has
    committed does not succeed: the blocks and transactions are inserted, not
    upserted, so the first block violates the unique key on its height (or
    the connection drops first), the call raises, and the rollback leaves the
    store exactly as the first run committed it.  Rows are therefore never
    duplicated: the unique keys on block height, block hash and transaction
    hash hold after the first run, and after the second there is exactly one
    Block row for the height of each block of the range. *)
Theorem rerun_of_a_committed_range_is_refused
  {decimal : Type} (Decimal_str : json -> option decimal)
  (blocks_data : list json) (w w1 : world) :
  blocks_data <> [] ->
  keys_ok (w_db w) ->
  _index_blocks_batch Decimal_str blocks_data w = (w1, Ok tt) ->
  keys_ok (w_db w1)
  /\ forall w2 : world,
       w_db w2 = w_db w1 ->
       exists w3 e,
         _index_blocks_batch Decimal_str blocks_data w2 = (w3, Raise e)
         /\ (e = IntegrityError \/ e = OperationalError)
         /\ w_db w3 = w_db w1
         /\ Forall (fun block_data =>
                      exists h, source_height block_data = Some h
                        /\ List.length
                             (List.filter (fun r => Block.height r =? h)
                                          (blocks (w_db w3))) = 1%nat)
                   blocks_data.
Proof.
  intros Hne K H.
  apply index_blocks_batch_inv in H as
      (news & a & m & st1 & P & F & B & T & _); [|exact Hne].
  pose proof (flush_rows_keys _ _ _ _ F K) as (K1 & K2 & K3).
  assert (K' : keys_ok (w_db w1)) by (unfold keys_ok; rewrite B, T; auto).
  split; [exact K'|].
  intros w2 D2.
  pose proof (planned_inv _ _ _ _ _ _ _ P) as (HB & _ & _).
  apply flush_rows_inv in F as (FB & _).
  assert (Hall : Forall (fun block_data =>
                   exists h, source_height block_data = Some h
                     /\ h ∈ List.map Block.height (blocks (w_db w1))) blocks_data).
  { rewrite B, FB, map_app, List.map_map.
    clear - HB. induction HB as [|b row bs rows (txs & Hmk) HB IH]; constructor.
    - exists (Block.height row). unfold source_height. rewrite Hmk.
      split; [reflexivity|]. apply elem_of_app. right. cbn. apply list_elem_of_here.
    - eapply Forall_impl; [exact IH|]. cbn. intros b' (h & Hs & Hin).
      exists h. split; [exact Hs|].
      apply elem_of_app in Hin as [Hin|Hin]; apply elem_of_app; [now left|right].
      cbn. now apply list_elem_of_further. }
  destruct (new_blocks news) as [|b l] eqn:NB.
  { inversion HB; subst; contradiction. }
  destruct (index_blocks_batch_conflict Decimal_str blocks_data w2 _ _ _ b l P NB)
    as (w3 & e & R & He).
  { rewrite D2, B, FB, map_app. apply elem_of_app. right. cbn. apply list_elem_of_here. }
  exists w3, e. split; [exact R|]. split; [exact He|].
  pose proof (index_blocks_batch_raise _ _ _ _ _ R) as (D3 & _).
  split; [congruence|].
  eapply Forall_impl; [exact Hall|]. cbn. intros b' (h & Hs & Hin).
  exists h. split; [exact Hs|].
  rewrite D3, D2. apply one_row_per_height; [apply K'|exact Hin].
Qed.

Lemma rerun_of_a_committed_range_is_refused_witness :
  let range := [raw_block "old" 1; raw_block "old" 2] in
  let w1 := fst (_index_blocks_batch Decimal_of_int range (at_rest empty_store)) in
  keys_ok (w_db w1)
  /\ snd (_index_blocks_batch Decimal_of_int range w1) = Raise IntegrityError
  /\ w_db (fst (_index_blocks_batch Decimal_of_int range w1)) = w_db w1.
Proof.
  cbv zeta.
  set (range := [raw_block "old" 1; raw_block "old" 2]).
  set (w1 := fst (_index_blocks_batch Decimal_of_int range (at_rest empty_store))).
  assert (H : _index_blocks_batch Decimal_of_int range (at_rest empty_store)
              = (w1, Ok tt)) by (vm_compute; reflexivity).
  assert (K : keys_ok (w_db (at_rest empty_store)))
    by (repeat split; apply NoDup_nil; exact I).
  destruct (rerun_of_a_committed_range_is_refused Decimal_of_int range
              (at_rest empty_store) w1 ltac:(discriminate) K H) as [K1 R].
  split; [exact K1|].
  destruct (R w1 eq_refl) as (w3 & e & R3 & _ & D3 & _).
  split.
  - vm_compute. reflexivity.
  - rewrite R3. exact D3.
Defined.

(** The claim of C2 as stated fails on this range: the second run raises. *)
Lemma rerun_of_committed_range_raises :
  let range := [raw_block "old" 1; raw_block "old" 2] in
  let first := _index_blocks_batch Decimal_of_int range (at_rest empty_store) in
  snd first = Ok tt
  /\ snd (_index_blocks_batch Decimal_of_int range (fst first)) <> Ok tt.
Proof. vm_compute. split; [reflexivity | discriminate]. Qed.

(** ** The reorg handler *)

Section Reorg.

Context {decimal : Type}.
Variable Decimal_str : json -> option decimal.
Variable settings : Settings.
Variable client : Node.

Local Abbreviation world := (world (decimal := decimal)).
Local Abbreviation store := (store (decimal := decimal)).

Lemma filter_filter_implied {A} (p q : A -> bool) (l : list A) :
  (forall x, p x = true -> q x = true) ->
  List.filter q (List.filter p l) = List.filter p l.
Proof.
  intros H. induction l as [|x l IH]; cbn; [reflexivity|].
  destruct (p x) eqn:E; cbn; [|exact IH].
  rewrite (H x E). now f_equal.
Qed.

Lemma existsb_filter_kept (h d : Z) (l : list Block.t) :
  h < d ->
  List.existsb (fun b => Block.height b =? h)
               (List.filter (fun b => negb (d <=? Block.height b)) l)
  = List.existsb (fun b => Block.height b =? h) l.
Proof.
  intros Hlt. induction l as [|b l IH]; cbn; [reflexivity|].
  destruct (Z.leb_spec d (Block.height b)); cbn.
  - rewrite IH. destruct (Z.eqb_spec (Block.height b) h); [lia|reflexivity].
  - now rewrite IH.
Qed.

(** After the transactions from [d] on are gone, deleting the blocks from
    [d] on cascades to no transaction. *)
Lemma delete_blocks_after_transactions (d : Z) (st st1 : store) :
  delete_transactions_from d st = Ok (st1, tt) ->
  delete_blocks_from d st1
  = Ok (Store (List.filter (fun b => Block.height b <? d) (blocks st))
              (List.filter (fun x => Transaction.block_height x <? d)
                           (transactions st))
              (accounts st) (sync_status st), tt).
Proof.
  unfold delete_transactions_from. intros [= <-].
  unfold delete_blocks_from. cbn [blocks transactions accounts sync_status].
  do 2 f_equal. f_equal.
  - apply List.filter_ext. intros b. symmetry. apply Z.ltb_antisym.
  - rewrite filter_filter_implied.
    + apply List.filter_ext. intros x. symmetry. apply Z.ltb_antisym.
    + intros x Hx. apply negb_true_iff, Z.leb_gt in Hx.
      rewrite existsb_filter_kept by exact Hx.
      now destruct (existsb _ _).
Qed.

(** The rewind transaction, read backwards from a success. *)
Lemma rewind_inv (d : Z) (w w' : world) :
  rewind d w = (w', Ok tt) ->
  w_db w'
  = Store (List.filter (fun b => Block.height b <? d) (blocks (w_db w)))
          (List.filter (fun x => Transaction.block_height x <? d)
                       (transactions (w_db w)))
          (accounts (w_db w))
          (<["last_indexed_height" :=
              SyncStatus.mk (Some (str_of_int (d - 1))) (w_clock w)]>
             (sync_status (w_db w)))
  /\ w_in_tx w' = false /\ w_clock w' = w_clock w.
Proof.
  unfold rewind. intros H.
  apply get_session_context_inv in H as (w3 & Hbody & Hcommit).
  unfold bind at 1 in Hbody.
  destruct (execute _ _) as [w1 [[]|e]] eqn:E1; [|discriminate].
  unfold bind at 1 in Hbody.
  destruct (execute _ w1) as [w2 [[]|e]] eqn:E2; [|discriminate].
  pose proof (session_step_execute _ _ _ _ E1) as [_ _ C1].
  pose proof (session_step_execute _ _ _ _ E2) as [_ _ C2].
  pose proof (session_step_set_indexed_height _ _ _ _ Hbody) as [_ _ C3].
  apply execute_inv in E1 as (s1 & F1 & U1 & N1 & T1).
  cbn in F1, C1. injection F1 as <-.
  apply execute_inv in E2 as (s2 & F2 & U2 & N2 & T2).
  rewrite N1, flush_rows_nil in F2. injection F2 as <-.
  unfold _set_indexed_height, bind, utcnow in Hbody.
  apply execute_inv in Hbody as (s3 & F3 & U3 & N3 & T3).
  rewrite N2, flush_rows_nil in F3. injection F3 as <-.
  pose proof (commit_step _ _ _ Hcommit) as [C4 _].
  apply commit_inv in Hcommit as (F4 & T4 & _); [|exact T3].
  rewrite N3, flush_rows_nil in F4. injection F4 as F4.
  destruct (delete_transactions_from d (w_db w)) as [[t1 []]|e] eqn:D1;
    [|discriminate].
  injection U1 as U1. rewrite <- U1 in U2.
  rewrite (delete_blocks_after_transactions _ _ _ D1) in U2.
  injection U2 as U2. rewrite <- U2 in U3. cbn in U3. injection U3 as U3.
  split; [|split; [exact T4 | congruence]].
  rewrite <- F4, <- U3. do 2 f_equal. congruence.
Qed.

Lemma rewind_raise (d : Z) (w w' : world) (e : exn) :
  rewind d w = (w', Raise e) ->
  w_db w' = w_db w /\ w_in_tx w' = false /\ w_clock w' = w_clock w.
Proof.
  unfold rewind. intros H.
  apply get_session_context_raise in H as (D & _ & _ & T & C); [auto|].
  apply session_step_bind; [apply session_step_execute|intros _].
  apply session_step_bind; [apply session_step_execute|intros _].
  apply session_step_set_indexed_height.
Qed.


End Reorg.

(** ** The reorg detector *)

Lemma range_down_nil (hi lo : Z) : hi < lo -> range_down hi lo = [].
Proof.
  intros H. unfold range_down. replace (Z.to_nat (hi + 1 - lo)) with 0%nat by lia.
  reflexivity.
Qed.

Lemma range_down_cons (hi lo : Z) :
  lo <= hi -> range_down hi lo = hi :: range_down (hi - 1) lo.
Proof.
  intros H. unfold range_down.
  replace (Z.to_nat (hi + 1 - lo)) with (S (Z.to_nat (hi - 1 + 1 - lo))) by lia.
  cbn [List.seq List.map]. f_equal; [lia|].
  rewrite <- List.seq_shift, List.map_map.
  apply List.map_ext. intros i. lia.
Qed.

Section Detector.

Context {decimal : Type}.
Variable settings : Settings.
Variable client : Node.

Local Abbreviation world := (world (decimal := decimal)).

Lemma get_indexed_height_inv (w w' : world) (height : Z) :
  _get_indexed_height w = (w', Ok height) ->
  watermark_of (w_db w) = Ok height /\ w_db w' = w_db w.
Proof.
  unfold _get_indexed_height. intros H.
  apply get_session_context_inv in H as (w1 & Hbody & Hcommit).
  unfold bind at 1 in Hbody.
  destruct (execute _ _) as [w2 [status|e]] eqn:E; [|discriminate].
  pose proof (session_step_execute _ _ _ _ E) as [_ D2 _].
  apply execute_inv in E as (s1 & F & U & N & T).
  cbn in F, D2. injection F as <-. injection U as U <-.
  assert (S1 : in_session w2 w1).
  { destruct (sync_status (w_db w) !! "last_indexed_height") as [row|];
      [destruct (SyncStatus.value row)|].
    - eapply session_step_lift, Hbody.
    - eapply session_step_raise, Hbody.
    - eapply session_step_ret, Hbody. }
  assert (V : w_view w1 = w_db w /\ w_new w1 = [] /\ w_in_tx w1 = true).
  { destruct (sync_status (w_db w) !! "last_indexed_height") as [row|];
      [destruct (SyncStatus.value row)|]; injection Hbody as <- _; auto. }
  destruct V as (V & N1 & T1).
  apply commit_inv in Hcommit as (F4 & _); [|exact T1].
  rewrite N1, flush_rows_nil, V in F4. injection F4 as F4.
  split; [|auto].
  unfold watermark_of.
  destruct (sync_status (w_db w) !! "last_indexed_height") as [row|];
    [destruct (SyncStatus.value row)|]; cbn in Hbody;
    unfold lift, raise, ret in Hbody; congruence.
Qed.

(** The scan returns the first height of its list at which history diverges. *)
Lemma scan_reorg_inv (n : nat) :
  forall (hi lo : Z) (w w' : world) (r : option Z),
    n = Z.to_nat (hi + 1 - lo) ->
    w_new w = [] ->
    scan_reorg client (range_down hi lo) w = (w', Ok r) ->
    match r with
    | Some h =>
        lo <= h <= hi /\ diverges client (w_view w) h
        /\ forall h', h < h' <= hi -> ~ diverges client (w_view w) h'
    | None => forall h', lo <= h' <= hi -> ~ diverges client (w_view w) h'
    end.
Proof.
  induction n as [|n IH]; intros hi lo w w' r Hn N.
  - rewrite range_down_nil by lia. intros [= <- <-]. intros h' Hh'. lia.
  - rewrite range_down_cons by lia. cbn [scan_reorg].
    unfold bind at 1.
    destruct (execute _ w) as [w1 [indexed_block|e]] eqn:E; [|discriminate].
    apply execute_inv in E as (s1 & F & U & N1 & T1).
    rewrite N, flush_rows_nil in F. injection F as <-.
    apply rbind_ok in U as (found & Hfound & U). injection U as V1 <-.
    assert (Hrest : forall w2 r2,
               w_view w2 = w_view w -> w_new w2 = [] ->
               ~ diverges client (w_view w) hi ->
               scan_reorg client (range_down (hi - 1) lo) w2 = (w', Ok r2) ->
               match r2 with
               | Some h =>
                   lo <= h <= hi /\ diverges client (w_view w) h
                   /\ forall h', h < h' <= hi -> ~ diverges client (w_view w) h'
               | None => forall h', lo <= h' <= hi -> ~ diverges client (w_view w) h'
               end).
    { intros w2 r2 V2 N2 Hhi Hs.
      apply (IH (hi - 1) lo w2 w' r2) in Hs; [|lia|exact N2].
      rewrite V2 in Hs. destruct r2 as [h|].
      - destruct Hs as (Hr & Hd & Hab). split; [lia|]. split; [exact Hd|].
        intros h' Hh'. destruct (Z.eq_dec h' hi) as [->|]; [exact Hhi|].
        apply Hab. lia.
      - intros h' Hh'. destruct (Z.eq_dec h' hi) as [->|]; [exact Hhi|].
        apply Hs. lia. }
    destruct found as [blk|].
    + unfold bind at 1, get_block at 1, bind at 1, emit at 1, ret at 1.
      fold (fetched client hi).
      destruct (truthy (fetched client hi)) eqn:Tr.
      * unfold bind at 1, lift at 1.
        destruct (compute_block_hash (fetched client hi)) as [chain_hash|e] eqn:Hc;
          [|discriminate].
        destruct (String.eqb_spec (Block.hash blk) chain_hash) as [Heq|Hneq].
        -- apply Hrest; [now cbn | now cbn |].
           intros (blk' & ch' & H1 & _ & H3 & H4). congruence.
        -- intros [= <- <-]. split; [lia|]. split.
           ++ exists blk, chain_hash. auto.
           ++ intros h' Hh'. lia.
      * apply Hrest; [now cbn | now cbn |].
        intros (blk' & ch' & _ & H2 & _). congruence.
    + apply Hrest; [now symmetry | exact N1 |].
      intros (blk' & ch' & H1 & _). congruence.
Qed.

End Detector.

(** C1 (amended). The reorg detector returns the first mismatch it meets
    scanning downward from the watermark: a height of the window
    [max(1, W - resync_depth) .. W] at which local and remote history
    diverge, with no divergence at any height above it up to the watermark.
    It is the highest divergent height of the window, not the lowest: for
    the chain 1..10 whose node differs from height 7 upward it is 10.  When
    it returns nothing, the watermark is 0 or no height of the window
    diverges. *)
Theorem reorg_detector_returns_first_mismatch_below_tip
  {decimal : Type} (settings : Settings) (client : Node)
  (w w' : world (decimal := decimal)) (r : option Z) :
  detect_reorg settings client w = (w', Ok r) ->
  exists W,
    watermark_of (w_db w) = Ok W
    /\ match r with
       | Some h =>
           Z.max 1 (W - resync_depth settings) <= h <= W
           /\ diverges client (w_db w) h
           /\ forall h', h < h' <= W -> ~ diverges client (w_db w) h'
       | None =>
           W = 0
           \/ forall h', Z.max 1 (W - resync_depth settings) <= h' <= W ->
                         ~ diverges client (w_db w) h'
       end.
Proof.
  unfold detect_reorg. intros H. unfold bind at 1 in H.
  destruct (_get_indexed_height w) as [w1 [W|e]] eqn:G; [|discriminate].
  apply get_indexed_height_inv in G as (HW & D1).
  exists W. split; [exact HW|].
  destruct (Z.eqb_spec W 0) as [->|HW0].
  - injection H as _ <-. now left.
  - apply get_session_context_inv in H as (w2 & Hscan & _).
    eapply scan_reorg_inv in Hscan; [|reflexivity|reflexivity].
    cbn [w_view set_new set_view] in Hscan. rewrite D1 in Hscan.
    destruct r as [h|]; [exact Hscan | now right].
Qed.

Lemma reorg_detector_returns_first_mismatch_below_tip_witness :
  exists W,
    watermark_of (w_db (at_rest chain_1_10)) = Ok W
    /\ (Z.max 1 (W - resync_depth default_settings) <= 10 <= W
        /\ diverges (forked_node 10 7) (w_db (at_rest chain_1_10)) 10
        /\ forall h', 10 < h' <= W ->
                      ~ diverges (forked_node 10 7) (w_db (at_rest chain_1_10)) h').
Proof.
  apply (reorg_detector_returns_first_mismatch_below_tip default_settings
           (forked_node 10 7) (at_rest chain_1_10)
           (fst (detect_reorg default_settings (forked_node 10 7) (at_rest chain_1_10)))
           (Some 10)).
  vm_compute. reflexivity.
Defined.

(** The scenario of C1: the store holds the chain 1..10, the node serves the
    same blocks below 7 and other ones from 7 upward; the detector answers
    10, not 7. *)
Lemma reorg_detector_answers_the_tip_not_the_fork :
  Forall (fun h => local_hash chain_1_10 h = remote_hash (forked_node 10 7) h)
         [1; 2; 3; 4; 5; 6]
  /\ Forall (fun h => local_hash chain_1_10 h <> remote_hash (forked_node 10 7) h)
            [7; 8; 9; 10]
  /\ watermark_of chain_1_10 = Ok 10
  /\ snd (detect_reorg default_settings (forked_node 10 7) (at_rest chain_1_10))
     = Ok (Some 10)
  /\ snd (detect_reorg default_settings (forked_node 10 7) (at_rest chain_1_10))
     <> Ok (Some 7).
Proof.
  split.
  { repeat (apply List.Forall_cons; [vm_compute; reflexivity|]). apply List.Forall_nil. }
  split.
  { repeat (apply List.Forall_cons; [vm_compute; discriminate|]). apply List.Forall_nil. }
  split; [vm_compute; reflexivity|].
  split; [vm_compute; reflexivity|].
  vm_compute. discriminate.
Qed.

(** ** Transactions and calls to the node *)

Section Traces.

Context {decimal : Type}.
Variable Decimal_str : json -> option decimal.
Variable settings : Settings.
Variable client : Node.

Local Abbreviation world := (world (decimal := decimal)).
Local Abbreviation M := (M (decimal := decimal)).

(** [m], started outside a transaction, ends outside one and calls the node
    only while no transaction is open. *)
Definition safe {A} (m : M A) : Prop :=
  forall w w' r, m w = (w', r) -> w_in_tx w = false ->
                 frame w w' /\ w_in_tx w' = false.

Lemma safe_ret {A} (a : A) : safe (ret a).
Proof. intros w w' r [= <- _] T. split; [apply frame_refl|exact T]. Qed.

Lemma safe_bind {A B} (m : M A) (k : A -> M B) :
  safe m -> (forall a, safe (k a)) -> safe (bind m k).
Proof.
  intros Hm Hk w w' r. unfold bind.
  destruct (m w) as [w1 [a|e]] eqn:E; intros H T.
  - destruct (Hm _ _ _ E T) as [F1 T1]. destruct (Hk a _ _ _ H T1) as [F2 T2].
    split; [eapply frame_trans; eauto | exact T2].
  - injection H as <- _. exact (Hm _ _ _ E T).
Qed.

Lemma safe_event (e : event) :
  tx_step false e = Some false -> safe (emit e).
Proof.
  intros He w w' r [= <- _] T. split; [|exact T].
  split; cbn; auto. exists [e]. split; [reflexivity|].
  rewrite T. cbn. now rewrite He.
Qed.

Lemma safe_sleep (ms : Z) : safe (sleep ms).
Proof.
  intros w w' r [= <- _] T. split; [|exact T].
  split; cbn; auto. exists [EvSleep ms]. split; [reflexivity|].
  now rewrite T.
Qed.

Lemma safe_get_block (height : Z) : safe (get_block client height).
Proof.
  unfold get_block. apply safe_bind; [now apply safe_event|intros _; apply safe_ret].
Qed.

Lemma safe_get_block_height : safe (get_block_height client).
Proof.
  unfold get_block_height.
  apply safe_bind; [now apply safe_event|intros _; apply safe_ret].
Qed.

Lemma commit_frame (w w' : world) r :
  commit w = (w', r) -> frame w w' /\ (r = Ok tt -> w_in_tx w' = false).
Proof.
  unfold commit, bind.
  destruct (flush w) as [w1 [[]|e]] eqn:F.
  - apply session_step_flush in F as [F1 _ _].
    destruct (w_in_tx w1) eqn:T1.
    + destruct (fault w1) as [w2 [[]|e]] eqn:Ef.
      * pose proof (session_step_fault _ _ _ Ef) as [F2 _ _].
        intros [= <- <-]. split; [|reflexivity].
        eapply frame_trans; [exact F1|]. eapply frame_trans; [exact F2|].
        destruct F2 as [_ _ (d & _ & S2)]. rewrite T1 in S2.
        split; cbn; auto. exists [EvCommit]. split; [reflexivity|].
        assert (w_in_tx w2 = true) as ->; [|reflexivity].
        unfold fault in Ef. destruct (w_faults w1) as [|[|] f];
          injection Ef as <-; exact T1.
      * pose proof (session_step_fault _ _ _ Ef) as [F2 _ _].
        intros [= <- <-]. split; [|discriminate]. eapply frame_trans; eauto.
    + intros [= <- <-]. split; [exact F1|intros _; exact T1].
  - apply session_step_flush in F as [F1 _ _].
    intros [= <- <-]. split; [exact F1|discriminate].
Qed.

Lemma rollback_frame (w : world) :
  frame w (fst (rollback w)) /\ w_in_tx (fst (rollback w)) = false.
Proof.
  unfold rollback. destruct (w_in_tx w) eqn:T; cbn.
  - split; [|reflexivity]. split; cbn; auto.
    exists [EvRollback]. split; [reflexivity|]. now rewrite T.
  - split; [|exact T]. split; cbn; auto.
    exists []. split; [now rewrite app_nil_r|]. now rewrite T.
Qed.

(** A session whose body only talks to the store is safe. *)
Lemma safe_get_session_context {A} (body : M A) :
  session_step body -> safe (get_session_context body).
Proof.
  intros Hb w w' r. unfold get_session_context, bind.
  set (w0 := set_new [] (set_view (w_db w) w)).
  assert (F0 : frame w w0).
  { split; cbn; auto. exists []. split; [now rewrite app_nil_r|reflexivity]. }
  destruct (body w0) as [w1 [a|e]] eqn:B.
  - apply Hb in B as [F1 _ _].
    destruct (commit w1) as [w2 [[]|e]] eqn:Cm.
    + apply commit_frame in Cm as [F2 T2]. unfold ret. intros [= <- <-] T.
      split; [eauto using frame_trans | auto].
    + apply commit_frame in Cm as [F2 _]. intros [= <- <-] T.
      destruct (rollback_frame w2) as [F3 T3].
      split; [eauto using frame_trans | exact T3].
  - apply Hb in B as [F1 _ _]. intros [= <- <-] T.
    destruct (rollback_frame w1) as [F3 T3].
    split; [eauto using frame_trans | exact T3].
Qed.

Lemma safe_index_blocks_batch (blocks_data : list json) :
  safe (_index_blocks_batch Decimal_str blocks_data).
Proof.
  unfold _index_blocks_batch. destruct blocks_data as [|b0 rest]; [apply safe_ret|].
  apply safe_get_session_context.
  apply session_step_bind; [apply session_step_index_blocks|].
  intros [addresses max_height].
  apply session_step_bind; [apply session_step_set_indexed_height|intros _].
  apply session_step_bind; [apply session_step_flush|intros _].
  destruct (bool_decide _);
    [apply session_step_ret | apply session_step_update_accounts_batch].
Qed.

Lemma safe_gather_blocks (heights : list Z) : safe (gather_blocks client heights).
Proof.
  induction heights as [|h rest IH]; cbn; [apply safe_ret|].
  apply safe_bind; [apply safe_get_block|intros b].
  apply safe_bind; [exact IH|intros bs; apply safe_ret].
Qed.

Lemma safe_sync_batches (batch_starts : list Z) (end_height : Z) :
  safe (sync_batches Decimal_str client batch_starts end_height).
Proof.
  induction batch_starts as [|b rest IH]; cbn [sync_batches]; [apply safe_ret|].
  apply safe_bind; [apply safe_gather_blocks|intros fetched_blocks].
  destruct (valid_blocks_of fetched_blocks) as [|v l]; [apply safe_ret|].
  apply safe_bind; [apply safe_index_blocks_batch|intros _].
  apply safe_bind; [apply safe_sleep|intros _; exact IH].
Qed.

Lemma safe_rewind (from_height : Z) : safe (rewind (decimal := decimal) from_height).
Proof.
  unfold rewind. apply safe_get_session_context.
  apply session_step_bind; [apply session_step_execute|intros _].
  apply session_step_bind; [apply session_step_execute|intros _].
  apply session_step_set_indexed_height.
Qed.

Lemma safe_handle_reorg (from_height : Z) :
  safe (_handle_reorg Decimal_str client from_height).
Proof.
  unfold _handle_reorg.
  apply safe_bind; [apply safe_rewind|intros _].
  apply safe_bind; [apply safe_get_block_height|intros chain_height].
  destruct (from_height <=? chain_height); [apply safe_sync_batches|apply safe_ret].
Qed.

Lemma safe_get_indexed_height : safe (_get_indexed_height (decimal := decimal)).
Proof.
  unfold _get_indexed_height. apply safe_get_session_context.
  apply session_step_bind; [apply session_step_execute|intros status].
  destruct status as [row|]; [destruct (SyncStatus.value row)|].
  - apply session_step_lift.
  - apply session_step_raise.
  - apply session_step_ret.
Qed.

End Traces.

Lemma safe_no_call {decimal A} (m : M (decimal := decimal) A) (w w' : world) r :
  safe m -> idle w -> m w = (w', r) -> no_call_inside_transaction w w'.
Proof.
  intros Hs Hi H. destruct (Hs _ _ _ H Hi) as [[_ _ (d & T & S)] T'].
  exists d. rewrite Hi, T' in S. auto.
Qed.

(** C8 (amended). No store transaction that writes is held open across a
    call to the Chain Source: in every run of the persister
    ([_index_blocks_batch]), of the rewind, of the batch synchronisation
    ([_sync_blocks_batch]) and of the reorg handler ([_handle_reorg]),
    started outside a transaction, each transaction begins and ends with no
    call to the node in between, and none is left open.  (The reorg
    detector is not in that list: its session begins a transaction at the
    first SELECT and keeps it open across its [get_block] calls.) *)
Theorem write_transactions_span_no_network_call
  {decimal : Type} (Decimal_str : json -> option decimal) (client : Node)
  (w w' : world) :
  idle w ->
  (forall blocks_data r,
      _index_blocks_batch Decimal_str blocks_data w = (w', r) ->
      no_call_inside_transaction w w')
  /\ (forall from_height r,
        rewind from_height w = (w', r) -> no_call_inside_transaction w w')
  /\ (forall start_height end_height r,
        _sync_blocks_batch Decimal_str client start_height end_height w = (w', r) ->
        no_call_inside_transaction w w')
  /\ (forall from_height r,
        _handle_reorg Decimal_str client from_height w = (w', r) ->
        no_call_inside_transaction w w').
Proof.
  intros Hi. repeat split; intros.
  - eapply safe_no_call; [apply safe_index_blocks_batch|exact Hi|eassumption].
  - eapply safe_no_call; [apply safe_rewind|exact Hi|eassumption].
  - eapply safe_no_call; [apply safe_sync_batches|exact Hi|eassumption].
  - eapply safe_no_call; [apply safe_handle_reorg|exact Hi|eassumption].
Qed.

Lemma write_transactions_span_no_network_call_witness :
  no_call_inside_transaction
    (at_rest chain_1_10)
    (fst (_handle_reorg Decimal_of_int (forked_node 10 7) 7 (at_rest chain_1_10))).
Proof.
  refine (proj2 (proj2 (proj2
    (write_transactions_span_no_network_call Decimal_of_int (forked_node 10 7)
       (at_rest chain_1_10)
       (fst (_handle_reorg Decimal_of_int (forked_node 10 7) 7 (at_rest chain_1_10)))
       _))) 7 (Ok tt) _).
  - reflexivity.
  - vm_compute. reflexivity.
Defined.

(** The claim of C8 as stated fails on the reorg detector: with the chain
    1..10 stored, its session begins a transaction with the SELECT of height
    10 and calls the node for block 10 before it commits. *)
Lemma reorg_detector_calls_the_node_inside_a_transaction :
  w_trace (fst (detect_reorg default_settings (forked_node 10 10)
                  (at_rest chain_1_10)))
  = [ EvBegin; EvStatement; EvCommit;
      EvBegin; EvStatement; EvGetBlock 10; EvCommit ]
  /\ tx_scan false
       (w_trace (fst (detect_reorg default_settings (forked_node 10 10)
                        (at_rest chain_1_10)))) = None
  /\ tx_scan false
       (w_trace (fst (_check_reorg Decimal_of_int default_settings (forked_node 10 10)
                        (at_rest chain_1_10)))) = None
  /\ ~ no_call_inside_transaction
         (at_rest chain_1_10)
         (fst (_check_reorg Decimal_of_int default_settings (forked_node 10 10)
                 (at_rest chain_1_10))).
Proof.
  split; [vm_compute; reflexivity|].
  split; [vm_compute; reflexivity|].
  assert (H : tx_scan false
       (w_trace (fst (_check_reorg Decimal_of_int default_settings (forked_node 10 10)
                        (at_rest chain_1_10)))) = None) by (vm_compute; reflexivity).
  split; [exact H|].
  intros (d & T & S). cbn [w_trace at_rest app] in T. rewrite T in H. congruence.
Qed.

(** ** The batch fetcher and the watermark *)

Lemma range_incl_nil (lo hi : Z) : hi < lo -> range_incl lo hi = [].
Proof.
  intros H. unfold range_incl. replace (Z.to_nat (hi + 1 - lo)) with 0%nat by lia.
  reflexivity.
Qed.

Lemma range_incl_cons (lo hi : Z) :
  lo <= hi -> range_incl lo hi = lo :: range_incl (lo + 1) hi.
Proof.
  intros H. unfold range_incl.
  replace (Z.to_nat (hi + 1 - lo)) with (S (Z.to_nat (hi + 1 - (lo + 1)))) by lia.
  cbn [List.seq List.map]. f_equal; [lia|].
  rewrite <- List.seq_shift, List.map_map.
  apply List.map_ext. intros i. lia.
Qed.

Lemma range_incl_app (a b c : Z) :
  a <= b + 1 -> b <= c ->
  range_incl a c = range_incl a b ++ range_incl (b + 1) c.
Proof.
  intros Hab Hbc.
  remember (Z.to_nat (b + 1 - a)) as n eqn:Hn.
  revert a Hab Hn. induction n as [|n IH]; intros a Hab Hn.
  - assert (a = b + 1) by lia. subst a.
    rewrite (range_incl_nil (b + 1) b) by lia. reflexivity.
  - rewrite (range_incl_cons a c) by lia. rewrite (range_incl_cons a b) by lia.
    cbn. f_equal. apply IH; lia.
Qed.

Lemma range_incl_bounds (lo hi h : Z) : h ∈ range_incl lo hi -> lo <= h <= hi.
Proof.
  unfold range_incl. rewrite list_elem_of_In, List.in_map_iff.
  intros (i & <- & Hi%List.in_seq). lia.
Qed.

Lemma range_step_batch_starts (start_height end_height : Z) :
  range_step start_height (end_height + 1) BATCH_SIZE
  = batch_starts_from start_height
      (Z.to_nat ((end_height + 1 - start_height + BATCH_SIZE - 1) / BATCH_SIZE)).
Proof. reflexivity. Qed.

Lemma batch_starts_from_S (start : Z) (n : nat) :
  batch_starts_from start (S n)
  = start :: batch_starts_from (start + BATCH_SIZE) n.
Proof.
  unfold batch_starts_from. cbn [List.seq List.map]. f_equal; [lia|].
  rewrite <- List.seq_shift, List.map_map.
  apply List.map_ext. intros i. lia.
Qed.

Lemma batch_starts_from_snoc (start : Z) (n : nat) :
  batch_starts_from start (S n)
  = batch_starts_from start n ++ [start + BATCH_SIZE * Z.of_nat n].
Proof.
  unfold batch_starts_from. rewrite List.seq_S, List.map_app. reflexivity.
Qed.

Lemma firstn_batch_starts_from (start : Z) (n k : nat) :
  List.firstn k (batch_starts_from start n) = batch_starts_from start (Nat.min k n).
Proof.
  unfold batch_starts_from. rewrite List.firstn_map, take_seq. reflexivity.
Qed.




Section Sync.

Context {decimal : Type}.
Variable Decimal_str : json -> option decimal.
Variable client : Node.

Local Abbreviation world := (world (decimal := decimal)).

Lemma gather_blocks_inv (heights : list Z) :
  forall w : world,
    exists w',
      gather_blocks client heights w = (w', Ok (List.map (fetched client) heights))
      /\ w_db w' = w_db w.
Proof.
  induction heights as [|h rest IH]; intros w; cbn [gather_blocks List.map].
  - exists w. split; reflexivity.
  - unfold bind at 1, get_block at 1, bind at 1, emit at 1, ret at 1.
    fold (fetched client h).
    destruct (IH (set_trace (w_trace w ++ [EvGetBlock h]) w)) as (w' & G & D).
    exists w'. unfold bind at 1. rewrite G. split; [reflexivity|exact D].
Qed.

(** The filter keeps the blocks of the heights whose fetch succeeded, in the
    order of the heights. *)
Lemma valid_blocks_fetched (heights : list Z) :
  valid_blocks_of (List.map (fetched client) heights)
  = List.map (fetched client) (List.filter (fetch_ok client) heights).
Proof.
  unfold valid_blocks_of, fetch_ok.
  induction heights as [|h rest IH]; cbn; [reflexivity|].
  destruct (negb (is_null (fetched client h))); cbn; now rewrite IH.
Qed.

Lemma persisted_heights (heights : list Z) (rows : list Block.t) :
  faithful client ->
  Forall2 (fun block_data row =>
             exists txs, make_block block_data = Ok (row, Block.height row, txs))
          (List.map (fetched client) heights) rows ->
  List.map Block.height rows = heights.
Proof.
  intros Hf. revert rows. induction heights as [|h rest IH]; intros rows H.
  - inversion H. reflexivity.
  - cbn in H. inversion H as [|? row ? rows' (txs & Hmk) Hrest]; subst.
    cbn. f_equal; [|now apply IH].
    apply Hf. unfold source_height. now rewrite Hmk.
Qed.

Lemma map_height_stamp (now : Z) (rows : list Block.t) :
  List.map Block.height (List.map (Block.stamp now) rows) = List.map Block.height rows.
Proof. rewrite List.map_map. apply List.map_ext. reflexivity. Qed.

(** A committed sub-batch: the store gains exactly the heights fetched, and
    the watermark is the maximum the loop accumulated from 0. *)
Lemma persist_fetched_ok (heights : list Z) (w w' : world) :
  faithful client -> heights <> [] ->
  _index_blocks_batch Decimal_str (List.map (fetched client) heights) w = (w', Ok tt) ->
  List.map Block.height (blocks (w_db w'))
  = List.map Block.height (blocks (w_db w)) ++ heights
  /\ watermark_of (w_db w') = Ok (List.fold_left Z.max heights 0).
Proof.
  intros Hf Hne H.
  apply index_blocks_batch_inv in H as
      (news & a & m & st1 & P & F & B & _ & S & _);
    [|destruct heights; [contradiction|discriminate]].
  apply planned_inv in P as (HB & _ & HM).
  apply flush_rows_inv in F as (FB & _).
  pose proof (persisted_heights _ _ Hf HB) as Hh.
  split.
  - rewrite B, FB, List.map_app, map_height_stamp, Hh. reflexivity.
  - unfold watermark_of. rewrite S, lookup_insert_eq. cbn.
    rewrite int_of_str_of_int, HM, Hh. reflexivity.
Qed.


(** One turn of the loop over the sub-batches. *)
Lemma sync_batches_cons (b : Z) (rest : list Z) (end_height : Z) (w : world) :
  let be := Z.min (b + BATCH_SIZE - 1) end_height in
  let hs := List.filter (fetch_ok client) (range_incl b be) in
  exists w1,
    w_db w1 = w_db w
    /\ sync_batches Decimal_str client (b :: rest) end_height w
       = match hs with
         | [] => (w1, Ok tt)
         | _ =>
             bind (_index_blocks_batch Decimal_str (List.map (fetched client) hs))
                  (fun _ => bind (sleep 100)
                     (fun _ => sync_batches Decimal_str client rest end_height)) w1
         end.
Proof.
  intros be hs.
  destruct (gather_blocks_inv (range_incl b be) w) as (w1 & G & D1).
  exists w1. split; [exact D1|].
  cbn [sync_batches]. fold be. unfold bind at 1. rewrite G.
  rewrite valid_blocks_fetched. fold hs.
  destruct hs; reflexivity.
Qed.


End Sync.

(** ** The batch synchronisation, sub-batch by sub-batch *)

Lemma source_height_inv (block_data : json) (n : Z) :
  source_height block_data = Some n ->
  exists b, block_data = JDict b
    /\ subscript (dict_get_default b "header" (JDict [])) "height" = Ok (JInt n).
Proof.
  unfold source_height, make_block.
  destruct block_data as [| | | | | |b]; cbn [attr_get rbind]; try discriminate.
  destruct (subscript _ "height") as [v|e] eqn:S; cbn [rbind]; [|discriminate].
  destruct v; cbn [int_of rbind]; try discriminate.
  destruct (compute_block_hash _); cbn [rbind]; [|discriminate].
  destruct (attr_get _); cbn [rbind]; [|discriminate].
  destruct (items_of _); cbn [rbind]; [|discriminate].
  intros [= <-]. eauto.
Qed.

Lemma forked_node_faithful (top fork : Z) : faithful (forked_node top fork).
Proof.
  intros h n H. apply source_height_inv in H as (b & E & S).
  unfold fetched, forked_node in E. cbn [http_block] in E.
  destruct ((1 <=? h) && (h <=? top)); [|discriminate].
  unfold raw_block in E. injection E as <-.
  cbn in S. now injection S.
Qed.

Lemma batch_count_covers (start_height end_height : Z) :
  let m := Z.to_nat ((end_height + 1 - start_height + BATCH_SIZE - 1) / BATCH_SIZE) in
  start_height <= end_height ->
  end_height <= start_height + BATCH_SIZE * Z.of_nat m - 1 /\ (0 < m)%nat.
Proof.
  intros m Hle. unfold BATCH_SIZE in *.
  pose proof (Z.div_mod (end_height + 1 - start_height + 50 - 1) 50 ltac:(lia)) as E.
  pose proof (Z.mod_pos_bound (end_height + 1 - start_height + 50 - 1) 50 ltac:(lia)) as B.
  assert (0 < (end_height + 1 - start_height + 50 - 1) / 50) by lia.
  subst m. lia.
Qed.

Lemma batch_count_empty (start_height end_height : Z) :
  end_height < start_height ->
  Z.to_nat ((end_height + 1 - start_height + BATCH_SIZE - 1) / BATCH_SIZE) = 0%nat.
Proof.
  unfold BATCH_SIZE. intros Hlt.
  pose proof (Z.div_mod (end_height + 1 - start_height + 50 - 1) 50 ltac:(lia)) as E.
  pose proof (Z.mod_pos_bound (end_height + 1 - start_height + 50 - 1) 50 ltac:(lia)) as B.
  lia.
Qed.

(** The heights of the first sub-batch and of the [j] that follow are those
    of [j + 1] sub-batches. *)
Lemma range_of_sub_batches (b e : Z) (j : nat) :
  b <= e ->
  range_incl b (Z.min (b + BATCH_SIZE * Z.of_nat (S j) - 1) e)
  = range_incl b (Z.min (b + BATCH_SIZE - 1) e)
    ++ range_incl (b + BATCH_SIZE)
         (Z.min (b + BATCH_SIZE + BATCH_SIZE * Z.of_nat j - 1) e).
Proof.
  unfold BATCH_SIZE. intros Hle.
  destruct (Z_le_gt_dec (b + 49) e) as [H|H].
  - rewrite (range_incl_app b (b + 49)) by lia.
    replace (Z.min (b + 50 - 1) e) with (b + 49) by lia.
    replace (b + 49 + 1) with (b + 50) by lia.
    do 2 f_equal. lia.
  - replace (Z.min (b + 50 * Z.of_nat (S j) - 1) e) with e by lia.
    replace (Z.min (b + 50 - 1) e) with e by lia.
    rewrite (range_incl_nil (b + 50)) by lia.
    now rewrite app_nil_r.
Qed.

Section Batches.

Context {decimal : Type}.
Variable Decimal_str : json -> option decimal.
Variable client : Node.

Local Abbreviation world := (world (decimal := decimal)).

Lemma gather_blocks_run (heights : list Z) (w : world) :
  gather_blocks client heights w
  = (set_trace (w_trace w ++ List.map EvGetBlock heights) w,
     Ok (List.map (fetched client) heights)).
Proof.
  revert w. induction heights as [|h rest IH]; intros w; cbn [gather_blocks List.map].
  - rewrite app_nil_r. now destruct w.
  - unfold bind at 1, get_block at 1, bind at 1, emit at 1, ret at 1.
    fold (fetched client h). unfold bind at 1. rewrite IH.
    cbn [w_trace set_trace ret]. rewrite <- app_assoc. reflexivity.
Qed.

(** The heights stored by a run of the loop: those served in the first [j]
    sub-batches, for some [j]; all [m] of them when the run ends normally and
    no sub-batch came back empty. *)
Lemma sync_batches_heights (end_height : Z) (m : nat) :
  faithful client ->
  forall (b : Z) (w w' : world) (r : result unit),
    sync_batches Decimal_str client (batch_starts_from b m) end_height w = (w', r) ->
    exists j : nat,
      (j <= m)%nat
      /\ List.map Block.height (blocks (w_db w'))
         = List.map Block.height (blocks (w_db w))
           ++ List.filter (fetch_ok client)
                (range_incl b (Z.min (b + BATCH_SIZE * Z.of_nat j - 1) end_height))
      /\ (r = Ok tt ->
          List.Forall (fun b' => served client end_height b' <> []) (batch_starts_from b m) ->
          j = m).
Proof.
  intros Hf. induction m as [|m IH]; intros b w w' r.
  - intros [= <- _]. exists 0%nat.
    rewrite range_incl_nil by (unfold BATCH_SIZE; lia).
    cbn. rewrite app_nil_r. auto.
  - rewrite batch_starts_from_S.
    destruct (sync_batches_cons Decimal_str client b
                (batch_starts_from (b + BATCH_SIZE) m) end_height w) as (w1 & D1 & ->).
    fold (served client end_height b).
    assert (Hstop : forall w2 : world, w_db w2 = w_db w ->
              List.map Block.height (blocks (w_db w2))
              = List.map Block.height (blocks (w_db w))
                ++ List.filter (fetch_ok client)
                     (range_incl b (Z.min (b + BATCH_SIZE * Z.of_nat 0 - 1) end_height))).
    { intros w2 ->. rewrite range_incl_nil by (unfold BATCH_SIZE; lia).
      cbn. now rewrite app_nil_r. }
    destruct (served client end_height b) as [|h0 hs1] eqn:Ehs.
    { intros [= <- _]. exists 0%nat. split; [lia|]. split; [now apply Hstop|].
      intros _ HF. inversion HF as [|? ? Hne _]. now rewrite Ehs in Hne. }
    assert (Hle : b <= end_height).
    { destruct (Z_le_gt_dec b end_height) as [H|H]; [exact H|].
      unfold served in Ehs. rewrite range_incl_nil in Ehs by (unfold BATCH_SIZE; lia).
      discriminate. }
    rewrite <- Ehs.
    assert (Hne : served client end_height b <> []) by (rewrite Ehs; discriminate).
    clear Ehs. unfold bind at 1.
    destruct (_index_blocks_batch Decimal_str _ w1) as [w2 [[]|e]] eqn:P.
    + apply persist_fetched_ok in P as (HB2 & _); [|exact Hf|exact Hne].
      unfold bind at 1, sleep at 1.
      set (w3 := set_clock _ _).
      intros Hrest.
      destruct (IH (b + BATCH_SIZE) w3 w' r Hrest) as (j & Hj & HB' & Hall).
      exists (S j). split; [lia|]. split.
      * rewrite HB'. cbn [w_db w3 set_clock set_trace]. rewrite HB2, D1.
        rewrite range_of_sub_batches by exact Hle.
        rewrite List.filter_app, <- app_assoc. reflexivity.
      * intros Hr HF. inversion HF; subst. f_equal. now apply Hall.
    + apply index_blocks_batch_raise in P as (D2 & _).
      intros [= <- <-]. exists 0%nat. split; [lia|]. split.
      * apply Hstop. congruence.
      * discriminate.
Qed.

End Batches.



(** X2. A synchronisation run stores the heights the node served, in
    ascending order and without a gap among them: with a node that answers
    each request with a block of the height asked, what a run of
    [_sync_blocks_batch] adds to the blocks, however it ends, is the list of
    the heights of the first [j] sub-batches whose fetch succeeded, for some
    number [j] of sub-batches.  A height whose fetch failed is skipped, and
    no height is stored before a lower one that was served. *)
Theorem sync_run_stores_the_served_heights_in_order
  {decimal : Type} (Decimal_str : json -> option decimal) (client : Node)
  (start_height end_height : Z) (w w' : world) (r : result unit) :
  faithful client ->
  _sync_blocks_batch Decimal_str client start_height end_height w = (w', r) ->
  exists j : nat,
    List.map Block.height (blocks (w_db w'))
    = List.map Block.height (blocks (w_db w))
      ++ List.filter (fetch_ok client)
           (range_incl start_height
              (Z.min (start_height + BATCH_SIZE * Z.of_nat j - 1) end_height)).
Proof.
  intros Hf H. unfold _sync_blocks_batch in H.
  rewrite range_step_batch_starts in H.
  destruct (sync_batches_heights Decimal_str client _ _ Hf _ _ _ _ H) as (j & _ & Hj & _).
  now exists j.
Qed.

Lemma sync_run_stores_the_served_heights_in_order_witness :
  let run := _sync_blocks_batch Decimal_of_int (forked_node 120 121) 1 120
               (at_rest empty_store) in
  exists j : nat,
    List.map Block.height (blocks (w_db (fst run)))
    = List.map Block.height (blocks (w_db (at_rest empty_store)))
      ++ List.filter (fetch_ok (forked_node 120 121))
           (range_incl 1 (Z.min (1 + BATCH_SIZE * Z.of_nat j - 1) 120)).
Proof.
  intros run.
  apply (sync_run_stores_the_served_heights_in_order
           Decimal_of_int (forked_node 120 121) 1 120 (at_rest empty_store)
           (fst run) (snd run)).
  - apply forked_node_faithful.
  - apply surjective_pairing.
Defined.

(** X3. With a node that answers each request with a block of the height
    asked, a run that ends normally and met no empty sub-batch stored every
    height the node served: when each sub-batch of
    [range(start, end + 1, BATCH_SIZE)] has at least one successful fetch and
    [_sync_blocks_batch] returns, the heights added are exactly those of
    [start .. end] whose fetch succeeded, in ascending order.  (A node that
    answers a request with a block of another height is outside the
    property: the persister stores the height the block carries.) *)
Theorem sync_run_stores_every_served_height
  {decimal : Type} (Decimal_str : json -> option decimal) (client : Node)
  (start_height end_height : Z) (w w' : world) :
  faithful client ->
  List.Forall (fun b => served client end_height b <> [])
              (range_step start_height (end_height + 1) BATCH_SIZE) ->
  _sync_blocks_batch Decimal_str client start_height end_height w = (w', Ok tt) ->
  List.map Block.height (blocks (w_db w'))
  = List.map Block.height (blocks (w_db w))
    ++ List.filter (fetch_ok client) (range_incl start_height end_height).
Proof.
  intros Hf HF H. unfold _sync_blocks_batch in H.
  rewrite range_step_batch_starts in H, HF.
  destruct (sync_batches_heights Decimal_str client _ _ Hf _ _ _ _ H)
    as (j & _ & Hj & Hall).
  rewrite Hj. rewrite (Hall eq_refl HF). do 2 f_equal.
  destruct (Z_le_gt_dec start_height end_height) as [Hle|Hgt].
  - destruct (batch_count_covers start_height end_height Hle) as [Hc _].
    cbv zeta in Hc. f_equal. lia.
  - rewrite batch_count_empty by lia.
    rewrite !range_incl_nil; [reflexivity | lia | unfold BATCH_SIZE; lia].
Qed.

Lemma sync_run_stores_every_served_height_witness :
  List.map Block.height (blocks chain_1_10)
  = List.map Block.height (blocks empty_store)
    ++ List.filter (fetch_ok (forked_node 10 11)) (range_incl 1 10).
Proof.
  apply (sync_run_stores_every_served_height
           Decimal_of_int (forked_node 10 11) 1 10 (at_rest empty_store)
           (fst (_sync_blocks_batch Decimal_of_int (forked_node 10 11) 1 10
                   (at_rest empty_store)))).
  - apply forked_node_faithful.
  - apply List.Forall_cons; [vm_compute; discriminate|]. apply List.Forall_nil.
  - vm_compute. reflexivity.
Defined.

Lemma filter_all_false {A} (p : A -> bool) (l : list A) :
  (forall a, a ∈ l -> p a = false) -> List.filter p l = [].
Proof.
  induction l as [|a l IH]; intros H; cbn; [reflexivity|].
  rewrite (H a) by apply list_elem_of_here.
  apply IH. intros a' Ha'. apply H. now apply list_elem_of_further.
Qed.

(** X4. The loop over the sub-batches stops at a sub-batch without a valid
    block.  When every fetch of the first sub-batch fails,
    [_sync_blocks_batch] returns normally after asking the node for the
    heights of that sub-batch, once each, and for nothing else: the store
    and the session are untouched, and the later sub-batches are not
    requested, whether or not the node could serve them. *)
Theorem sync_run_stops_at_a_sub_batch_without_block
  {decimal : Type} (Decimal_str : json -> option decimal) (client : Node)
  (start_height end_height : Z) (w : world) :
  (forall h, start_height <= h <= Z.min (start_height + BATCH_SIZE - 1) end_height ->
             fetch_ok client h = false) ->
  _sync_blocks_batch Decimal_str client start_height end_height w
  = (set_trace
       (w_trace w
        ++ List.map EvGetBlock
             (range_incl start_height
                (Z.min (start_height + BATCH_SIZE - 1) end_height))) w,
     Ok tt).
Proof.
  intros Hfail. unfold _sync_blocks_batch. rewrite range_step_batch_starts.
  destruct (Z_le_gt_dec start_height end_height) as [Hle|Hgt].
  - destruct (batch_count_covers start_height end_height Hle) as [_ Hm].
    cbv zeta in Hm.
    destruct (Z.to_nat _) as [|m]; [lia|].
    rewrite batch_starts_from_S. cbn [sync_batches].
    unfold bind at 1. rewrite gather_blocks_run, valid_blocks_fetched.
    rewrite filter_all_false; [reflexivity|].
    intros h Hh. apply Hfail. now apply range_incl_bounds.
  - rewrite batch_count_empty by lia.
    rewrite range_incl_nil by (unfold BATCH_SIZE; lia).
    cbn. rewrite app_nil_r. now destruct w.
Qed.

Lemma sync_run_stops_at_a_sub_batch_without_block_witness :
  _sync_blocks_batch Decimal_of_int (forked_node 10 11) 11 200 (at_rest chain_1_10)
  = (set_trace
       (w_trace (at_rest chain_1_10)
        ++ List.map EvGetBlock (range_incl 11 (Z.min (11 + BATCH_SIZE - 1) 200)))
       (at_rest chain_1_10),
     Ok tt).
Proof.
  apply (sync_run_stops_at_a_sub_batch_without_block
           Decimal_of_int (forked_node 10 11) 11 200 (at_rest chain_1_10)).
  intros h Hh. unfold fetch_ok, fetched, forked_node, BATCH_SIZE in *.
  cbn [http_block].
  replace (h <=? 10) with false by lia.
  rewrite andb_false_r. reflexivity.
Defined.

(** ** What the engine reads and what it keeps *)

Section Readers.

Context {decimal : Type}.
Variable settings : Settings.
Variable client : Node.

Local Abbreviation world := (world (decimal := decimal)).
Local Abbreviation store := (store (decimal := decimal)).
Local Abbreviation M := (M (decimal := decimal)).

Lemma get_indexed_height_db (w w' : world) (r : result Z) :
  _get_indexed_height w = (w', r) -> w_db w' = w_db w.
Proof.
  destruct r as [height|e]; intros H.
  - now apply get_indexed_height_inv in H.
  - unfold _get_indexed_height in H.
    apply get_session_context_raise in H; [tauto|].
    apply session_step_bind; [apply session_step_execute|].
    intros [row|]; [|apply session_step_ret].
    destruct (SyncStatus.value row);
      [apply session_step_lift | apply session_step_raise].
Qed.

Lemma get_indexed_height_value (w : world) :
  snd (_get_indexed_height w) = watermark_of (w_db w)
  \/ snd (_get_indexed_height w) = Raise OperationalError.
Proof.
  destruct w as [db view new in_tx clock faults trace lr].
  unfold _get_indexed_height, watermark_of, get_session_context, execute, flush,
    roundtrip, commit, rollback, bind, emit, fault, ret, lift, raise.
  cbn.
  destruct in_tx, faults as [|[] [|[] faults]]; cbn; auto;
    destruct (sync_status db !! "last_indexed_height") as [[[v|] u]|]; cbn; auto;
    destruct (int_of_str v); cbn; auto.
Qed.

Lemma get_indexed_height_run (w : world) :
  w_faults w = [] -> snd (_get_indexed_height w) = watermark_of (w_db w).
Proof.
  destruct w as [db view new in_tx clock faults trace lr]. cbn. intros ->.
  unfold _get_indexed_height, watermark_of, get_session_context, execute, flush,
    roundtrip, commit, rollback, bind, emit, fault, ret, lift, raise.
  cbn.
  destruct in_tx; cbn;
    destruct (sync_status db !! "last_indexed_height") as [[[v|] u]|]; cbn; auto;
    destruct (int_of_str v); cbn; auto.
Qed.

(** A computation that, run in a session without pending objects, leaves
    the session's view and the committed store as they are. *)
Definition reads {A} (m : M A) : Prop :=
  forall w w' r, m w = (w', r) -> w_new w = [] ->
    w_new w' = [] /\ w_view w' = w_view w /\ w_db w' = w_db w.

Lemma reads_ret {A} (a : A) : reads (ret a).
Proof. intros w w' r [= <- _]. auto. Qed.

Lemma reads_lift {A} (x : result A) : reads (lift x).
Proof. intros w w' r [= <- _]. auto. Qed.

Lemma reads_bind {A B} (m : M A) (k : A -> M B) :
  reads m -> (forall a, reads (k a)) -> reads (bind m k).
Proof.
  intros Hm Hk w w' r H Hn. unfold bind in H.
  destruct (m w) as [w1 [a|e]] eqn:E.
  - destruct (Hm _ _ _ E Hn) as (N1 & V1 & D1).
    destruct (Hk a _ _ _ H N1) as (N2 & V2 & D2).
    repeat split; congruence.
  - injection H as <- <-. exact (Hm _ _ _ E Hn).
Qed.

Lemma reads_get_block (height : Z) : reads (get_block client height).
Proof. intros w w' r [= <- _]. auto. Qed.

(** A SELECT: a statement that returns the store it was given. *)
Lemma reads_select {A} (f : store -> result (store * A)) :
  (forall st st' a, f st = Ok (st', a) -> st' = st) -> reads (execute f).
Proof.
  intros Hf w w' r H Hn.
  unfold execute in H. unfold bind at 1 in H. unfold flush at 1 in H.
  rewrite Hn in H. unfold bind at 1 in H.
  destruct (roundtrip w) as [w1 [[]|e]] eqn:R.
  - pose proof (session_step_roundtrip _ _ _ R) as S.
    apply roundtrip_inv in R as (V & N & _).
    destruct (f (w_view w1)) as [[st a]|e] eqn:F; injection H as <- <-.
    + apply Hf in F. subst st. cbn. rewrite N, V, (is_db _ _ S). auto.
    + rewrite N, V, (is_db _ _ S). auto.
  - pose proof (session_step_roundtrip _ _ _ R) as S.
    apply roundtrip_inv in R as (V & N & _).
    injection H as <- <-. rewrite N, V, (is_db _ _ S). auto.
Qed.

Lemma reads_scan_reorg (heights : list Z) : reads (scan_reorg client heights).
Proof.
  induction heights as [|height rest IH]; cbn [scan_reorg]; [apply reads_ret|].
  apply reads_bind.
  - apply reads_select. intros st st' a.
    destruct (scalar_one_or_none _); cbn; congruence.
  - intros [blk|]; [|exact IH].
    apply reads_bind; [apply reads_get_block|].
    intros chain_block. destruct (truthy chain_block); [|exact IH].
    apply reads_bind; [apply reads_lift|].
    intros chain_hash. destruct (String.eqb _ _); [exact IH|apply reads_ret].
Qed.

Lemma commit_clean (w w' : world) (r : result unit) :
  w_new w = [] -> commit w = (w', r) ->
  w_db w' = w_db w \/ w_db w' = w_view w.
Proof.
  intros Hn. unfold commit, bind, flush. rewrite Hn.
  destruct (w_in_tx w).
  - unfold fault. destruct (w_faults w) as [|[] f]; intros [= <- _]; cbn; auto.
  - intros [= <- _]. auto.
Qed.

(** A session that only reads commits nothing new. *)
Lemma session_of_reads {A} (body : M A) (w w' : world) (r : result A) :
  reads body -> get_session_context body w = (w', r) -> w_db w' = w_db w.
Proof.
  intros Hb. unfold get_session_context.
  set (w0 := set_new [] (set_view (w_db w) w)).
  unfold bind at 1.
  destruct (body w0) as [wb [a|e]] eqn:B;
    destruct (Hb _ _ _ B eq_refl) as (N & V & D); cbn in V, D.
  - unfold bind at 1. destruct (commit wb) as [wc [[]|e]] eqn:C.
    + intros [= <- _]. cbn.
      destruct (commit_clean _ _ _ N C); congruence.
    + intros [= <- _].
      destruct (rollback_inv wc) as (Dr & _). rewrite Dr.
      destruct (commit_clean _ _ _ N C); congruence.
  - intros [= <- _].
    destruct (rollback_inv wb) as (Dr & _). congruence.
Qed.

Lemma detect_reorg_db (w w' : world) (r : result (option Z)) :
  detect_reorg settings client w = (w', r) -> w_db w' = w_db w.
Proof.
  unfold detect_reorg, bind.
  destruct (_get_indexed_height w) as [w1 [height|e]] eqn:G;
    apply get_indexed_height_db in G.
  - destruct (height =? 0); [intros [= <- _]; exact G|].
    intros H. apply session_of_reads in H; [congruence|apply reads_scan_reorg].
  - intros [= <- _]. exact G.
Qed.

End Readers.

Section Invariants.

Context {decimal : Type}.
Variable Decimal_str : json -> option decimal.
Variable settings : Settings.
Variable client : Node.

Local Abbreviation world := (world (decimal := decimal)).
Local Abbreviation store := (store (decimal := decimal)).
Local Abbreviation M := (M (decimal := decimal)).

(** *** The unique keys and the foreign key, through the two writers *)

Lemma NoDup_map_filter {A B} (f : A -> B) (p : A -> bool) (l : list A) :
  NoDup (List.map f l) -> NoDup (List.map f (List.filter p l)).
Proof.
  induction l as [|a l IH]; cbn; [auto|].
  rewrite NoDup_cons. intros [Ha Hl].
  destruct (p a); cbn; [|auto].
  apply NoDup_cons. split; [|auto].
  intros Hin. apply Ha.
  apply list_elem_of_In, List.in_map_iff in Hin as (a' & E & Hin).
  apply List.filter_In in Hin as [Hin _].
  apply list_elem_of_In, List.in_map_iff. eauto.
Qed.

Lemma persist_keys (blocks_data : list json) (w w' : world) (r : result unit) :
  _index_blocks_batch Decimal_str blocks_data w = (w', r) ->
  keys_ok (w_db w) -> keys_ok (w_db w').
Proof.
  intros H K. destruct r as [[]|e].
  - destruct blocks_data as [|b l]; [injection H as <-; exact K|].
    apply index_blocks_batch_inv in H as
        (news & a & m & st1 & _ & F & B & T & _); [|discriminate].
    apply flush_rows_keys in F; [|exact K].
    unfold keys_ok in *. now rewrite B, T.
  - apply index_blocks_batch_raise in H as (D & _). now rewrite D.
Qed.

Lemma rewind_keys (d : Z) (w w' : world) (r : result unit) :
  rewind d w = (w', r) -> keys_ok (w_db w) -> keys_ok (w_db w').
Proof.
  intros H (K1 & K2 & K3). destruct r as [[]|e].
  - apply rewind_inv in H as (D & _). rewrite D. unfold keys_ok. cbn.
    auto using NoDup_map_filter.
  - apply rewind_raise in H as (D & _). rewrite D. now repeat split.
Qed.

Lemma existsb_height_in (l : list Block.t) (h : Z) :
  List.existsb (fun b => Block.height b =? h) l = true ->
  h ∈ List.map Block.height l.
Proof.
  intros H. apply List.existsb_exists in H as (b & Hb & E).
  apply Z.eqb_eq in E. subst h.
  apply list_elem_of_In, List.in_map, Hb.
Qed.

Lemma insert_all_transactions_refs (now : Z) (l : list (Transaction.t decimal)) :
  forall st st' : store,
    insert_all (insert_transaction now) st l = Ok st' ->
    refs_ok st -> refs_ok st'.
Proof.
  induction l as [|x l IH]; intros st st' H R; cbn in H.
  - now injection H as <-.
  - destruct (insert_transaction now st x) as [st1|e] eqn:I; [|discriminate].
    cbn in H. apply (IH _ _ H).
    unfold insert_transaction in I.
    destruct (List.existsb _ (transactions st)); [discriminate|].
    destruct (List.existsb _ (blocks st)) eqn:E; cbn [negb] in I; [|discriminate].
    destruct (negb _); [discriminate|]. injection I as <-.
    intros y. cbn. rewrite elem_of_app, list_elem_of_singleton.
    intros [Hy| ->]; [now apply R|].
    apply existsb_height_in in E. exact E.
Qed.

Lemma flush_rows_refs (now : Z) (st st' : store) (news : list pending) :
  flush_rows now st news = Ok st' -> refs_ok st -> refs_ok st'.
Proof.
  unfold flush_rows. intros H R.
  destruct (insert_all (insert_block now) st (new_blocks news)) as [st1|e] eqn:I;
    [|discriminate].
  cbn in H. apply (insert_all_transactions_refs _ _ _ _ H).
  apply insert_all_blocks in I as (B & T & _).
  intros x. rewrite T, B, List.map_app, elem_of_app. auto.
Qed.

Lemma persist_refs (blocks_data : list json) (w w' : world) (r : result unit) :
  _index_blocks_batch Decimal_str blocks_data w = (w', r) ->
  refs_ok (w_db w) -> refs_ok (w_db w').
Proof.
  intros H R. destruct r as [[]|e].
  - destruct blocks_data as [|b l]; [injection H as <-; exact R|].
    apply index_blocks_batch_inv in H as
        (news & a & m & st1 & _ & F & B & T & _); [|discriminate].
    apply flush_rows_refs in F; [|exact R].
    unfold refs_ok in *. now rewrite B, T.
  - apply index_blocks_batch_raise in H as (D & _). now rewrite D.
Qed.

Lemma rewind_refs (d : Z) (w w' : world) (r : result unit) :
  rewind d w = (w', r) -> refs_ok (w_db w) -> refs_ok (w_db w').
Proof.
  intros H R. destruct r as [[]|e].
  - apply rewind_inv in H as (D & _). rewrite D. intros x. cbn.
    rewrite !list_elem_of_In, List.filter_In, List.in_map_iff.
    intros [Hx Hlt]. apply list_elem_of_In, R, list_elem_of_In in Hx.
    apply List.in_map_iff in Hx as (b & E & Hb).
    exists b. split; [exact E|]. apply List.filter_In. split; [exact Hb|].
    now rewrite E.
  - apply rewind_raise in H as (D & _). now rewrite D.
Qed.

(** *** An invariant of the two writers is an invariant of the engine *)

Variable P : store -> Prop.

Definition keeps {A} (m : M A) : Prop :=
  forall w w' r, m w = (w', r) -> P (w_db w) -> P (w_db w').

Lemma keeps_same {A} (m : M A) :
  (forall w w' r, m w = (w', r) -> w_db w' = w_db w) -> keeps m.
Proof. intros H w w' r E. now rewrite (H _ _ _ E). Qed.

Lemma keeps_ret {A} (a : A) : keeps (ret a).
Proof. apply keeps_same. now intros w w' r [= <- _]. Qed.

Lemma keeps_bind {A B} (m : M A) (k : A -> M B) :
  keeps m -> (forall a, keeps (k a)) -> keeps (bind m k).
Proof.
  intros Hm Hk w w' r H. unfold bind in H.
  destruct (m w) as [w1 [a|e]] eqn:E.
  - intros Hp. exact (Hk a _ _ _ H (Hm _ _ _ E Hp)).
  - injection H as <- <-. exact (Hm _ _ _ E).
Qed.

Lemma keeps_sleep (ms : Z) : keeps (sleep ms).
Proof. apply keeps_same. now intros w w' r [= <- _]. Qed.

Lemma keeps_get_block_height : keeps (get_block_height client).
Proof. apply keeps_same. now intros w w' r [= <- _]. Qed.

Lemma keeps_gather_blocks (heights : list Z) : keeps (gather_blocks client heights).
Proof.
  apply keeps_same. intros w w' r. rewrite gather_blocks_run. now intros [= <- _].
Qed.

(** The synchronisation persists what it fetched from the node, and nothing
    else. *)
Hypothesis persist_keeps :
  forall heights,
    keeps (_index_blocks_batch Decimal_str (List.map (fetched client) heights)).

Lemma keeps_sync_batches (batch_starts : list Z) (end_height : Z) :
  keeps (sync_batches Decimal_str client batch_starts end_height).
Proof.
  induction batch_starts as [|b rest IH]; [apply keeps_ret|].
  intros w w' r H Hp.
  destruct (sync_batches_cons Decimal_str client b rest end_height w)
    as (w1 & D1 & E).
  rewrite E in H. rewrite <- D1 in Hp.
  destruct (List.filter _ _) as [|h hs] eqn:F.
  - now injection H as <- _.
  - rewrite <- F in H. revert H Hp.
    apply keeps_bind; [apply persist_keeps|]. intros _.
    apply keeps_bind; [apply keeps_sleep|]. intros _. exact IH.
Qed.

Lemma keeps_handle_reorg (from_height : Z) :
  keeps (rewind from_height) ->
  keeps (_handle_reorg Decimal_str client from_height).
Proof.
  intros rewind_keeps. unfold _handle_reorg.
  apply keeps_bind; [apply rewind_keeps|]. intros _.
  apply keeps_bind; [apply keeps_get_block_height|]. intros chain_height.
  destruct (from_height <=? chain_height); [apply keeps_sync_batches|apply keeps_ret].
Qed.

Lemma keeps_check_reorg :
  (forall d, keeps (rewind d)) ->
  keeps (_check_reorg Decimal_str settings client).
Proof.
  intros rewind_keeps. unfold _check_reorg.
  apply keeps_bind; [apply keeps_same, detect_reorg_db|].
  intros [h|]; [|apply keeps_ret].
  destruct (h =? 0); [apply keeps_ret|apply keeps_handle_reorg, rewind_keeps].
Qed.

Lemma keeps_sync_loop :
  keeps (_check_reorg Decimal_str settings client) ->
  keeps (_sync_loop Decimal_str settings client).
Proof.
  intros check_keeps. unfold _sync_loop.
  apply keeps_bind; [apply keeps_same, get_indexed_height_db|]. intros indexed_height.
  apply keeps_bind; [apply keeps_get_block_height|]. intros chain_height.
  destruct (chain_height =? 0); [apply keeps_sleep|].
  apply keeps_bind.
  { destruct (indexed_height <? chain_height);
      [apply keeps_sync_batches|apply keeps_ret]. }
  intros _. apply keeps_bind; [apply keeps_same; now intros w w' r [= <- _]|].
  intros current_time. apply keeps_bind; [|intros _; apply keeps_sleep].
  intros w w' r. destruct (_ <? _); [|now intros [= <- _]].
  apply keeps_bind; [apply check_keeps|].
  intros _. apply keeps_same. now intros w1 w2 r1 [= <- _].
Qed.

Lemma keeps_start_cycle :
  keeps (_check_reorg Decimal_str settings client) ->
  keeps (start_cycle Decimal_str settings client).
Proof.
  intros check_keeps w w' r. unfold start_cycle.
  destruct (_sync_loop Decimal_str settings client w) as [w1 [[]|e]] eqn:L.
  - intros [= <- _]. exact (keeps_sync_loop check_keeps _ _ _ L).
  - intros H Hp. apply (keeps_sync_loop check_keeps _ _ _ L) in Hp.
    revert H Hp. apply keeps_bind; [|intros _; apply keeps_sleep].
    apply keeps_same. now intros w2 w3 r2 [= <- _].
Qed.

End Invariants.

(** X5. [_get_indexed_height] reads the committed store and writes nothing.
    Whatever the state of the session it is called in, and however it ends,
    the committed store is unchanged; its result is what the row
    [last_indexed_height] of the committed store holds (0 when there is no
    row, the exception of [int] when the value is no integer), or
    [OperationalError] when the connection drops; with a connection that
    holds it is the former. *)
Theorem indexed_height_is_read_from_the_committed_store
  {decimal : Type} (w w' : world (decimal := decimal)) (r : result Z) :
  _get_indexed_height w = (w', r) ->
  w_db w' = w_db w
  /\ (r = watermark_of (w_db w) \/ r = Raise OperationalError)
  /\ (w_faults w = [] -> r = watermark_of (w_db w)).
Proof.
  intros H. split; [exact (get_indexed_height_db _ _ _ H)|].
  pose proof (get_indexed_height_value w) as V.
  pose proof (get_indexed_height_run w) as R.
  rewrite H in V, R. cbn in V, R. auto.
Qed.

Lemma indexed_height_is_read_from_the_committed_store_witness :
  let run := _get_indexed_height (at_rest chain_1_10) in
  w_db (fst run) = w_db (at_rest chain_1_10)
  /\ (snd run = watermark_of (w_db (at_rest chain_1_10))
      \/ snd run = Raise OperationalError)
  /\ (w_faults (at_rest chain_1_10) = [] ->
      snd run = watermark_of (w_db (at_rest chain_1_10))).
Proof.
  intros run.
  apply (indexed_height_is_read_from_the_committed_store
           (at_rest chain_1_10) (fst run) (snd run)).
  apply surjective_pairing.
Defined.

(** X6. The persister sets the watermark to the highest height of its batch,
    counted from 0, whatever the watermark was before: after a successful
    [_index_blocks_batch] on a non-empty batch whose blocks carry [int]
    heights, the row [last_indexed_height] holds the decimal text of the
    maximum of 0 and the heights of the blocks of the batch, and
    [_get_indexed_height] on a connection that holds reads that number back.
    (The persister itself does not compare with the old watermark: a batch of
    lower heights lowers it.  A height that is a [float] is outside the
    property: its text is no text of an [int].) *)
Theorem persist_sets_the_watermark_to_the_highest_height_of_the_batch
  {decimal : Type} (Decimal_str : json -> option decimal)
  (blocks_data : list json) (w w' : world) :
  blocks_data <> [] ->
  integer_heights blocks_data ->
  _index_blocks_batch Decimal_str blocks_data w = (w', Ok tt) ->
  exists heights,
    Forall2 (fun block_data h => source_height block_data = Some h)
            blocks_data heights
    /\ (SyncStatus.value <$> sync_status (w_db w') !! "last_indexed_height")
       = Some (Some (str_of_int (List.fold_left Z.max heights 0)))
    /\ watermark_of (w_db w') = Ok (List.fold_left Z.max heights 0)
    /\ (w_faults w' = [] ->
        snd (_get_indexed_height w') = Ok (List.fold_left Z.max heights 0)).
Proof.
  intros Hne _ H.
  apply index_blocks_batch_inv in H as
      (news & a & m & st1 & P & _ & _ & _ & S & _); [|exact Hne].
  apply planned_inv in P as (HB & _ & HM).
  exists (List.map Block.height (new_blocks news)).
  assert (HW : watermark_of (w_db w') = Ok m).
  { unfold watermark_of. rewrite S, lookup_insert_eq. cbn.
    apply int_of_str_of_int. }
  rewrite <- HM. split; [|split; [|split]].
  - apply Forall2_map_r. eapply Forall2_impl; [exact HB|].
    intros b row (txs & E). unfold source_height. now rewrite E.
  - rewrite S, lookup_insert_eq. reflexivity.
  - exact HW.
  - intros Hf. rewrite get_indexed_height_run by exact Hf. exact HW.
Qed.

Lemma persist_sets_the_watermark_to_the_highest_height_of_the_batch_witness :
  let w := fst (_index_blocks_batch Decimal_of_int [raw_block "old" 10]
                  (at_rest empty_store)) in
  let w' := fst (_index_blocks_batch Decimal_of_int [raw_block "old" 3] w) in
  watermark_of (w_db w) = Ok 10
  /\ exists heights,
       Forall2 (fun block_data h => source_height block_data = Some h)
               [raw_block "old" 3] heights
       /\ (SyncStatus.value <$> sync_status (w_db w') !! "last_indexed_height")
          = Some (Some (str_of_int (List.fold_left Z.max heights 0)))
       /\ watermark_of (w_db w') = Ok (List.fold_left Z.max heights 0)
       /\ (w_faults w' = [] ->
           snd (_get_indexed_height w') = Ok (List.fold_left Z.max heights 0)).
Proof.
  intros w w'. split; [vm_compute; reflexivity|].
  apply (persist_sets_the_watermark_to_the_highest_height_of_the_batch
           Decimal_of_int [raw_block "old" 3] w w').
  - discriminate.
  - apply List.Forall_cons; [exists 3; reflexivity|apply List.Forall_nil].
  - vm_compute. reflexivity.
Defined.

(** X7. The reorg detector writes nothing.  However [detect_reorg] (the
    part of [_check_reorg] up to the end of its session) ends, with a
    divergence, with none or with an exception, the committed store is what
    it was; and when it reports no divergence, or height 0, the whole of
    [_check_reorg] leaves the store as it was. *)
Theorem reorg_detector_writes_nothing
  {decimal : Type} (Decimal_str : json -> option decimal)
  (settings : Settings) (client : Node)
  (w w1 : world) (found : result (option Z)) :
  detect_reorg settings client w = (w1, found) ->
  w_db w1 = w_db w
  /\ forall w' r,
       _check_reorg Decimal_str settings client w = (w', r) ->
       (forall h, found = Ok (Some h) -> h = 0) ->
       w_db w' = w_db w.
Proof.
  intros H. pose proof (detect_reorg_db _ _ _ _ _ H) as D.
  split; [exact D|].
  intros w' r. unfold _check_reorg, bind. rewrite H.
  destruct found as [[h|]|e].
  - intros Hc Hz. rewrite (Hz h eq_refl) in Hc. cbn in Hc.
    injection Hc as <- _. exact D.
  - intros [= <- _] _. exact D.
  - intros [= <- _] _. exact D.
Qed.

Lemma reorg_detector_writes_nothing_witness :
  let run := detect_reorg default_settings (forked_node 10 7) (at_rest chain_1_10) in
  w_db (fst run) = w_db (at_rest chain_1_10).
Proof.
  intros run.
  apply (reorg_detector_writes_nothing Decimal_of_int default_settings
           (forked_node 10 7) (at_rest chain_1_10) (fst run) (snd run)).
  apply surjective_pairing.
Defined.

(** X8. The unique keys of the schema are an invariant of the engine.  If
    no two Block rows share a height or a hash and no two Transaction rows
    share a hash, the same holds after [_index_blocks_batch], after the
    rewind of [_handle_reorg] and after a whole cycle of the loop of [start]
    (synchronisation, reorg check and repair included), however each of them
    ends. *)
Theorem unique_keys_hold_after_every_cycle
  {decimal : Type} (Decimal_str : json -> option decimal)
  (settings : Settings) (client : Node) (w : world) :
  keys_ok (w_db w) ->
  (forall blocks_data w' r,
      _index_blocks_batch Decimal_str blocks_data w = (w', r) -> keys_ok (w_db w'))
  /\ (forall from_height w' r,
        rewind from_height w = (w', r) -> keys_ok (w_db w'))
  /\ (forall w' r,
        start_cycle Decimal_str settings client w = (w', r) -> keys_ok (w_db w')).
Proof.
  intros K. split; [|split].
  - intros blocks_data w' r H. exact (persist_keys _ _ _ _ _ H K).
  - intros d w' r H. exact (rewind_keys _ _ _ _ H K).
  - intros w' r H. revert H K.
    assert (Hp : forall heights,
               keeps keys_ok
                 (_index_blocks_batch Decimal_str (List.map (fetched client) heights)))
      by (intros heights w1 w2 r1; apply persist_keys).
    apply keeps_start_cycle, keeps_check_reorg; try exact Hp.
    intros d w1 w2 r1. apply rewind_keys.
Qed.

Lemma unique_keys_hold_after_every_cycle_witness :
  keys_ok (w_db (fst (start_cycle Decimal_of_int default_settings (forked_node 10 11)
                        (at_rest empty_store)))).
Proof.
  assert (K : keys_ok (w_db (at_rest empty_store))).
  { repeat split; apply NoDup_nil_2. }
  destruct (unique_keys_hold_after_every_cycle Decimal_of_int default_settings
              (forked_node 10 11) (at_rest empty_store) K) as (_ & _ & H).
  apply (H _ (snd (start_cycle Decimal_of_int default_settings (forked_node 10 11)
                     (at_rest empty_store)))).
  apply surjective_pairing.
Defined.

Lemma refs_ok_check {decimal} (st : store (decimal := decimal)) :
  List.forallb
    (fun x => List.existsb (fun b => Block.height b =? Transaction.block_height x)
                           (blocks st))
    (transactions st) = true ->
  refs_ok st.
Proof.
  intros H x Hx. rewrite List.forallb_forall in H.
  apply existsb_height_in, H, list_elem_of_In, Hx.
Qed.

(** X9. The foreign key of the transactions is an invariant of the engine.
    If every Transaction row refers to the height of a Block row, the same
    holds after [_index_blocks_batch], after the rewind of [_handle_reorg]
    (which deletes the transactions from the divergence height on before the
    blocks) and after a whole cycle of the loop of [start], however each of
    them ends: the engine never leaves a transaction without its block. *)
Theorem no_transaction_is_left_without_its_block
  {decimal : Type} (Decimal_str : json -> option decimal)
  (settings : Settings) (client : Node) (w : world) :
  refs_ok (w_db w) ->
  (forall blocks_data w' r,
      _index_blocks_batch Decimal_str blocks_data w = (w', r) -> refs_ok (w_db w'))
  /\ (forall from_height w' r,
        rewind from_height w = (w', r) -> refs_ok (w_db w'))
  /\ (forall w' r,
        start_cycle Decimal_str settings client w = (w', r) -> refs_ok (w_db w')).
Proof.
  intros K. split; [|split].
  - intros blocks_data w' r H. exact (persist_refs _ _ _ _ _ H K).
  - intros d w' r H. exact (rewind_refs _ _ _ _ H K).
  - intros w' r H. revert H K.
    assert (Hp : forall heights,
               keeps refs_ok
                 (_index_blocks_batch Decimal_str (List.map (fetched client) heights)))
      by (intros heights w1 w2 r1; apply persist_refs).
    apply keeps_start_cycle, keeps_check_reorg; try exact Hp.
    intros d w1 w2 r1. apply rewind_refs.
Qed.

Lemma no_transaction_is_left_without_its_block_witness :
  refs_ok (w_db (fst (rewind 7 (at_rest chain_1_10)))).
Proof.
  assert (K : refs_ok (w_db (at_rest chain_1_10))).
  { apply refs_ok_check. vm_compute. reflexivity. }
  destruct (no_transaction_is_left_without_its_block Decimal_of_int default_settings
              (forked_node 10 7) (at_rest chain_1_10) K) as (_ & H & _).
  apply (H 7 _ (snd (rewind 7 (at_rest chain_1_10)))).
  apply surjective_pairing.
Defined.

(** ** A node whose answers the store already holds *)

Lemma make_block_hash (block_data : json) row height txs :
  make_block block_data = Ok (row, height, txs) ->
  compute_block_hash block_data = Ok (Block.hash row).
Proof.
  unfold make_block. intros H.
  apply rbind_ok in H as (b & _ & H).
  apply rbind_ok in H as (height_v & _ & H).
  apply rbind_ok in H as (h & _ & H).
  apply rbind_ok in H as (block_hash & Hh & H).
  apply rbind_ok in H as (hd & _ & H).
  apply rbind_ok in H as (items & _ & H).
  injection H as <- _ _. exact Hh.
Qed.

Lemma mirrors_check {decimal} (client : Node) (st : store (decimal := decimal)) :
  List.forallb
    (fun row => match compute_block_hash (fetched client (Block.height row)) with
                | Ok h => String.eqb h (Block.hash row)
                | Raise _ => false
                end)
    (blocks st) = true ->
  mirrors client st.
Proof.
  intros H row Hrow. rewrite List.forallb_forall in H.
  apply list_elem_of_In, H in Hrow.
  destruct (compute_block_hash _) as [h|e]; [|discriminate].
  apply String.eqb_eq in Hrow. now subst h.
Qed.

Section Stable.

Context {decimal : Type}.
Variable Decimal_str : json -> option decimal.
Variable settings : Settings.
Variable client : Node.

Local Abbreviation world := (world (decimal := decimal)).
Local Abbreviation store := (store (decimal := decimal)).

Hypothesis client_faithful : faithful client.

Lemma fetched_rows_mirror (heights : list Z) :
  forall rows : list Block.t,
    Forall2 (fun block_data row =>
               exists txs, make_block block_data = Ok (row, Block.height row, txs))
            (List.map (fetched client) heights) rows ->
    List.Forall (fun row =>
                   compute_block_hash (fetched client (Block.height row))
                   = Ok (Block.hash row)) rows.
Proof.
  induction heights as [|h rest IH]; intros rows H.
  - inversion H. constructor.
  - cbn in H. inversion H as [|? row ? rows' (txs & Hmk) Hrest]; subst.
    constructor; [|now apply IH].
    rewrite (client_faithful h (Block.height row)).
    + exact (make_block_hash _ _ _ _ Hmk).
    + unfold source_height. now rewrite Hmk.
Qed.

(** What the persister does to the blocks and the transactions: it appends,
    or it changes nothing. *)
Lemma persist_appends (blocks_data : list json) (w w' : world) (r : result unit) :
  _index_blocks_batch Decimal_str blocks_data w = (w', r) ->
  exists news,
    blocks (w_db w')
    = blocks (w_db w) ++ List.map (Block.stamp (w_clock w)) (new_blocks news)
    /\ transactions (w_db w')
       = transactions (w_db w)
         ++ List.map (Transaction.stamp (w_clock w)) (new_transactions news)
    /\ (new_blocks news <> [] ->
        r = Ok tt /\ exists a m, planned Decimal_str blocks_data ∅ 0 = Ok (news, a, m)).
Proof.
  intros H.
  assert (Hnone : w_db w' = w_db w ->
            blocks (w_db w') = blocks (w_db w) ++ List.map (Block.stamp (w_clock w)) []
            /\ transactions (w_db w')
               = transactions (w_db w) ++ List.map (Transaction.stamp (w_clock w)) []
            /\ ((@nil Block.t) <> [] ->
                r = Ok tt /\ exists a m,
                  planned Decimal_str blocks_data ∅ 0 = Ok ([], a, m))).
  { intros ->. cbn. rewrite !app_nil_r. repeat split; auto; contradiction. }
  destruct r as [[]|e].
  - destruct blocks_data as [|b l].
    + injection H as <-. exists []. now apply Hnone.
    + apply index_blocks_batch_inv in H as
          (news & a & m & st1 & P & F & B & T & _); [|discriminate].
      apply flush_rows_inv in F as (FB & FT & _).
      exists news. rewrite B, T, FB, FT. repeat split; eauto.
  - apply index_blocks_batch_raise in H as (D & _).
    exists []. now apply Hnone.
Qed.

Lemma persist_mirrors (heights : list Z) (w w' : world) (r : result unit) :
  _index_blocks_batch Decimal_str (List.map (fetched client) heights) w = (w', r) ->
  mirrors client (w_db w) -> mirrors client (w_db w').
Proof.
  intros H Hm.
  destruct (persist_appends _ _ _ _ H) as (news & B & _ & Hp).
  intros row. rewrite B, elem_of_app. intros [Hold|Hnew]; [now apply Hm|].
  destruct (new_blocks news) as [|b0 l0] eqn:E; [inversion Hnew|].
  destruct Hp as (_ & a & m & P); [discriminate|].
  apply planned_inv in P as (HB & _).
  apply fetched_rows_mirror in HB. rewrite E in HB.
  apply list_elem_of_In, List.in_map_iff in Hnew as (row0 & <- & Hin).
  rewrite List.Forall_forall in HB. exact (HB _ Hin).
Qed.

Lemma persist_mirrors_from (d : Z) (heights : list Z) (w w' : world)
  (r : result unit) :
  _index_blocks_batch Decimal_str (List.map (fetched client) heights) w = (w', r) ->
  mirrors_from client d (w_db w) -> mirrors_from client d (w_db w').
Proof.
  intros H Hm.
  destruct (persist_appends _ _ _ _ H) as (news & B & _ & Hp).
  intros row. rewrite B, elem_of_app. intros [Hold|Hnew]; [now apply Hm|]. intros _.
  destruct (new_blocks news) as [|b0 l0] eqn:E; [inversion Hnew|].
  destruct Hp as (_ & a & m & P); [discriminate|].
  apply planned_inv in P as (HB & _).
  apply fetched_rows_mirror in HB. rewrite E in HB.
  apply list_elem_of_In, List.in_map_iff in Hnew as (row0 & <- & Hin).
  rewrite List.Forall_forall in HB. exact (HB _ Hin).
Qed.

(** With such a store the detector finds no divergence. *)
Lemma detect_reorg_mirrors (w w' : world) (found : option Z) :
  mirrors client (w_db w) ->
  detect_reorg settings client w = (w', Ok found) -> found = None.
Proof.
  intros Hm H. unfold detect_reorg in H. unfold bind at 1 in H.
  destruct (_get_indexed_height w) as [w1 [W|e]] eqn:G; [|discriminate].
  apply get_indexed_height_inv in G as (_ & D1).
  destruct (W =? 0); [now injection H as _ <-|].
  apply get_session_context_inv in H as (w2 & Hscan & _).
  eapply scan_reorg_inv in Hscan; [|reflexivity|reflexivity].
  cbn [w_view set_new set_view] in Hscan. rewrite D1 in Hscan.
  destruct found as [h|]; [exfalso|reflexivity].
  destruct Hscan as (_ & (blk & chain_hash & H1 & _ & H3 & H4) & _).
  destruct (List.filter _ _) as [|b [|b' l]] eqn:F; cbn in H1; try discriminate.
  injection H1 as ->.
  assert (Hin : In blk (List.filter (fun b => Block.height b =? h)
                                    (blocks (w_db w)))) by (rewrite F; now left).
  apply List.filter_In in Hin as [Hin Hh]. apply Z.eqb_eq in Hh.
  apply list_elem_of_In, Hm in Hin. rewrite Hh in Hin. congruence.
Qed.

(** The blocks and the transactions of [st0] are still there, in place. *)
Definition grown_from (st0 st : store) : Prop :=
  (exists added, blocks st = blocks st0 ++ added)
  /\ (exists added, transactions st = transactions st0 ++ added).

Lemma stable_persist (st0 : store) (heights : list Z) :
  keeps (fun st => mirrors client st /\ grown_from st0 st)
        (_index_blocks_batch Decimal_str (List.map (fetched client) heights)).
Proof.
  intros w w' r H [Hm [[b Hb] [t Ht]]].
  split; [exact (persist_mirrors _ _ _ _ H Hm)|].
  destruct (persist_appends _ _ _ _ H) as (news & B & T & _).
  split; eexists.
  - rewrite B, Hb, <- app_assoc. reflexivity.
  - rewrite T, Ht, <- app_assoc. reflexivity.
Qed.

Lemma stable_check_reorg (st0 : store) :
  keeps (fun st => mirrors client st /\ grown_from st0 st)
        (_check_reorg Decimal_str settings client).
Proof.
  intros w w' r H [Hm Hg]. unfold _check_reorg, bind in H.
  destruct (detect_reorg settings client w) as [w1 [found|e]] eqn:D.
  - pose proof (detect_reorg_db _ _ _ _ _ D) as D1.
    apply detect_reorg_mirrors in D; [|exact Hm]. subst found.
    injection H as <- _. now rewrite D1.
  - pose proof (detect_reorg_db _ _ _ _ _ D) as D1.
    injection H as <- _. now rewrite D1.
Qed.

End Stable.

(** X10. A store that agrees with the node is never rewound.  When the
    node answers each request with a block of the height asked, and the hash
    stored at every height of the store is the canonical hash of the block
    the node serves there, then the reorg detector reports no divergence,
    and a whole cycle of the loop of [start], however it ends, deletes
    nothing: the blocks and the transactions stored before are still there,
    in place, what the cycle adds comes after them, and the store agrees
    with the node again. *)
Theorem store_that_agrees_with_the_node_is_never_rewound
  {decimal : Type} (Decimal_str : json -> option decimal)
  (settings : Settings) (client : Node) (w : world) :
  faithful client ->
  mirrors client (w_db w) ->
  (forall w1 found,
      detect_reorg settings client w = (w1, Ok found) -> found = None)
  /\ (forall w' r,
        start_cycle Decimal_str settings client w = (w', r) ->
        mirrors client (w_db w')
        /\ (exists added, blocks (w_db w') = blocks (w_db w) ++ added)
        /\ (exists added, transactions (w_db w') = transactions (w_db w) ++ added)).
Proof.
  intros Hf Hm. split.
  - intros w1 found. now apply detect_reorg_mirrors.
  - intros w' r H.
    assert (P0 : mirrors client (w_db w) /\ grown_from (w_db w) (w_db w)).
    { split; [exact Hm|]. split; exists []; now rewrite app_nil_r. }
    revert H P0.
    apply (keeps_start_cycle Decimal_str settings client
             (fun st => mirrors client st /\ grown_from (w_db w) st)).
    + intros heights. now apply stable_persist.
    + now apply stable_check_reorg.
Qed.

Lemma store_that_agrees_with_the_node_is_never_rewound_witness :
  let run := start_cycle Decimal_of_int default_settings (forked_node 12 13)
               (at_rest chain_1_10) in
  mirrors (forked_node 12 13) (w_db (fst run))
  /\ (exists added, blocks (w_db (fst run)) = blocks (w_db (at_rest chain_1_10)) ++ added)
  /\ (exists added,
         transactions (w_db (fst run))
         = transactions (w_db (at_rest chain_1_10)) ++ added).
Proof.
  intros run.
  destruct (store_that_agrees_with_the_node_is_never_rewound
              Decimal_of_int default_settings (forked_node 12 13) (at_rest chain_1_10))
    as [_ H].
  - apply forked_node_faithful.
  - apply mirrors_check. vm_compute. reflexivity.
  - apply (H (fst run) (snd run)). apply surjective_pairing.
Defined.

(** ** The errors of the persister *)

Section Errors.

Context {decimal : Type}.
Variable Decimal_str : json -> option decimal.

Local Abbreviation world := (world (decimal := decimal)).
Local Abbreviation store := (store (decimal := decimal)).
Local Abbreviation M := (M (decimal := decimal)).

Definition store_errors_only {A} (m : M A) : Prop :=
  forall w w' e, m w = (w', Raise e) -> store_error e.

Lemma store_errors_ret {A} (a : A) : store_errors_only (ret a).
Proof. intros w w' e. discriminate. Qed.

Lemma store_errors_bind {A B} (m : M A) (k : A -> M B) :
  store_errors_only m -> (forall a, store_errors_only (k a)) ->
  store_errors_only (bind m k).
Proof.
  intros Hm Hk w w' e H. unfold bind in H.
  destruct (m w) as [w1 [a|e1]] eqn:E.
  - exact (Hk a _ _ _ H).
  - injection H as <- <-. exact (Hm _ _ _ E).
Qed.

Lemma store_errors_roundtrip : store_errors_only roundtrip.
Proof.
  intros w w' e H. apply roundtrip_inv in H as (_ & _ & _ & [H|H] & _);
    [discriminate|injection H as ->; now right].
Qed.

Lemma insert_all_error {A} (ins : store -> A -> result store) (l : list A) :
  (forall st a e, ins st a = Raise e -> e = IntegrityError) ->
  forall st e, insert_all ins st l = Raise e -> e = IntegrityError.
Proof.
  intros Hins. induction l as [|a l IH]; intros st e H; cbn in H; [discriminate|].
  destruct (ins st a) as [st1|e1] eqn:I; cbn in H.
  - exact (IH _ _ H).
  - injection H as <-. exact (Hins _ _ _ I).
Qed.

Lemma flush_rows_error (now : Z) (st : store) (news : list pending) (e : exn) :
  flush_rows now st news = Raise e -> e = IntegrityError.
Proof.
  unfold flush_rows. intros H.
  destruct (insert_all (insert_block now) st (new_blocks news)) as [st1|e1] eqn:I;
    cbn in H.
  - revert H. apply insert_all_error. intros st2 x e2. unfold insert_transaction.
    repeat (destruct (_ : bool); [congruence|]). discriminate.
  - injection H as <-. revert I. apply insert_all_error.
    intros st2 b e2. unfold insert_block.
    repeat (destruct (_ : bool); [congruence|]). discriminate.
Qed.

Lemma store_errors_flush : store_errors_only flush.
Proof.
  intros w w' e. unfold flush. destruct (w_new w) as [|p l]; [discriminate|].
  unfold bind at 1. destruct (roundtrip w) as [w1 [[]|e1]] eqn:R.
  - destruct (flush_rows _ _ _) as [st|e2] eqn:F; [discriminate|].
    intros [= _ <-]. left. exact (flush_rows_error _ _ _ _ F).
  - intros [= _ <-]. exact (store_errors_roundtrip _ _ _ R).
Qed.

(** A statement that the store cannot refuse. *)
Lemma store_errors_execute {A} (f : store -> result (store * A)) :
  (forall st e, f st <> Raise e) -> store_errors_only (execute f).
Proof.
  intros Hf. unfold execute.
  apply store_errors_bind; [apply store_errors_flush|]. intros _.
  apply store_errors_bind; [apply store_errors_roundtrip|]. intros _.
  intros w w' e. destruct (f (w_view w)) as [[st a]|e1] eqn:F; [discriminate|].
  now apply Hf in F.
Qed.

Lemma store_errors_commit : store_errors_only commit.
Proof.
  unfold commit. apply store_errors_bind; [apply store_errors_flush|]. intros _.
  intros w w' e. destruct (w_in_tx w); [|discriminate].
  unfold bind, fault. destruct (w_faults w) as [|[] f]; try discriminate.
  intros [= _ <-]. now right.
Qed.

Lemma store_errors_for_each {A} (l : list A) (body : A -> M unit) :
  (forall a, store_errors_only (body a)) -> store_errors_only (for_each l body).
Proof.
  intros Hb. induction l as [|a l IH]; cbn [for_each]; [apply store_errors_ret|].
  apply store_errors_bind; [apply Hb|]. intros _. exact IH.
Qed.

Lemma store_errors_set_indexed_height (height : Z) :
  store_errors_only (_set_indexed_height height).
Proof.
  unfold _set_indexed_height.
  apply store_errors_bind; [intros w w' e; discriminate|]. intros now.
  apply store_errors_execute. discriminate.
Qed.

Lemma store_errors_update_accounts_batch (addresses : gset string) (height : Z) :
  store_errors_only (_update_accounts_batch addresses height).
Proof.
  unfold _update_accounts_batch.
  apply store_errors_bind; [intros w w' e; discriminate|]. intros now.
  apply store_errors_for_each. intros a. apply store_errors_execute. discriminate.
Qed.

Lemma get_session_context_raise_inv {A} (body : M A) (w w' : world) (e : exn) :
  get_session_context body w = (w', Raise e) ->
  exists w1,
    w' = fst (rollback w1)
    /\ (body (set_new [] (set_view (w_db w) w)) = (w1, Raise e)
        \/ exists w2 a, body (set_new [] (set_view (w_db w) w)) = (w2, Ok a)
                        /\ commit w2 = (w1, Raise e)).
Proof.
  unfold get_session_context. set (w0 := set_new [] (set_view (w_db w) w)).
  unfold bind at 1. destruct (body w0) as [wb [a|e1]] eqn:B.
  - unfold bind at 1. destruct (commit wb) as [wc [[]|e2]] eqn:C; [discriminate|].
    intros [= <- <-]. exists wc. split; [reflexivity|]. right. eauto.
  - intros [= <- <-]. exists wb. auto.
Qed.

(** An exception of the persister is raised on the content of the batch,
    before the session has sent a statement, or it is an error of the
    store. *)
Lemma index_blocks_batch_error (blocks_data : list json) (w w' : world) (e : exn) :
  _index_blocks_batch Decimal_str blocks_data w = (w', Raise e) ->
  (planned Decimal_str blocks_data ∅ 0 = Raise e
   /\ w_db w' = w_db w
   /\ (w_in_tx w = false -> w_trace w' = w_trace w))
  \/ store_error e.
Proof.
  destruct blocks_data as [|b l]; [discriminate|].
  unfold _index_blocks_batch. intros H.
  apply get_session_context_raise_inv in H as (w1 & -> & H).
  set (w0 := set_new [] (set_view (w_db w) w)) in *.
  pose proof (index_blocks_planned Decimal_str (b :: l) ∅ 0 w0) as Hp.
  destruct (planned Decimal_str (b :: l) ∅ 0) as [[[news a] m]|e0].
  - right. destruct H as [H|(w2 & [] & H & C)].
    + unfold bind at 1 in H. rewrite Hp in H. revert H.
      apply store_errors_bind; [apply store_errors_set_indexed_height|]. intros _.
      apply store_errors_bind; [apply store_errors_flush|]. intros _.
      destruct (bool_decide _);
        [apply store_errors_ret|apply store_errors_update_accounts_batch].
    + exact (store_errors_commit _ _ _ C).
  - left. destruct Hp as (news & Hp).
    destruct H as [H|(w2 & [] & H & C)]; unfold bind at 1 in H; rewrite Hp in H;
      [|discriminate].
    injection H as <- <-. split; [reflexivity|].
    unfold rollback. cbn. split; [now destruct (w_in_tx w)|].
    intros ->. reflexivity.
Qed.

End Errors.

Lemma TxType_of_error (value : json) (e : exn) :
  TxType_of value = Raise e -> e = ValueError.
Proof.
  unfold TxType_of. destruct value; try congruence.
  destruct (List.find _ _); congruence.
Qed.

(** X11. A batch refused for its content never reaches the store.  When
    [_index_blocks_batch], called outside a transaction on a batch without a
    [float] or [bool] height, raises one of the exceptions of the loops that
    build the rows ([AttributeError] on a value that is no [dict],
    [KeyError] on a header without height, [TypeError], [ValueError] on an
    unknown transaction type, [InvalidOperation] on an amount that is no
    number), the session has sent no statement: no transaction was begun,
    the trace of the store is what it was, and so is the committed store. *)
Theorem batch_refused_for_its_content_never_reaches_the_store
  {decimal : Type} (Decimal_str : json -> option decimal)
  (blocks_data : list json) (w w' : world) (e : exn) :
  idle w ->
  no_fractional_height blocks_data ->
  _index_blocks_batch Decimal_str blocks_data w = (w', Raise e) ->
  content_error e ->
  w_trace w' = w_trace w /\ w_db w' = w_db w /\ idle w'.
Proof.
  intros Hidle _ H C.
  pose proof (index_blocks_batch_raise _ _ _ _ _ H) as (_ & _ & _ & T' & _).
  destruct (index_blocks_batch_error _ _ _ _ _ H) as [(P & D & T)|S].
  - split; [now apply T|]. split; [exact D|exact T'].
  - exfalso. destruct S as [-> | ->];
      destruct C as [C|[C|[C|[C|C]]]]; discriminate.
Qed.

Lemma batch_refused_for_its_content_never_reaches_the_store_witness :
  let run := _index_blocks_batch Decimal_of_int [raw_block "old" 11; bad_type_block]
               (at_rest chain_1_10) in
  snd run = Raise ValueError
  /\ w_trace (fst run) = w_trace (at_rest chain_1_10)
  /\ w_db (fst run) = w_db (at_rest chain_1_10)
  /\ idle (fst run).
Proof.
  intros run.
  assert (R : snd run = Raise ValueError) by (vm_compute; reflexivity).
  split; [exact R|].
  apply (batch_refused_for_its_content_never_reaches_the_store
           Decimal_of_int [raw_block "old" 11; bad_type_block]
           (at_rest chain_1_10) (fst run) ValueError).
  - reflexivity.
  - repeat (apply List.Forall_cons; [exact I|]). apply List.Forall_nil.
  - rewrite <- R. apply surjective_pairing.
  - unfold content_error. tauto.
Defined.

(** ** The rows of a batch *)

Lemma Forall2_map_both {A B C D} (R : C -> D -> Prop) (f : A -> C) (g : B -> D)
  (l : list A) (k : list B) :
  Forall2 (fun a b => R (f a) (g b)) l k -> Forall2 R (List.map f l) (List.map g k).
Proof. induction 1; cbn; constructor; auto. Qed.

Lemma make_block_tx_count (block_data : json) row height txs :
  make_block block_data = Ok (row, height, txs) ->
  Block.tx_count row = Z.of_nat (List.length txs).
Proof.
  unfold make_block. intros H.
  repeat (apply rbind_ok in H as (? & _ & H)).
  now injection H as <- _ <-.
Qed.

Section Rows.

Context {decimal : Type}.
Variable Decimal_str : json -> option decimal.

Local Abbreviation world := (world (decimal := decimal)).

Lemma make_transaction_addresses (height idx : Z) (t : pydict) x :
  make_transaction Decimal_str height idx (JDict t) = Ok x ->
  Transaction.from_address x = dict_get_default t "from_address" (JStr EmptyString)
  /\ Transaction.to_address x = dict_get t "to_address".
Proof.
  unfold make_transaction. intros H.
  apply rbind_ok in H as (tx_hash & _ & H).
  apply rbind_ok in H as (t' & Ht & H). injection Ht as <-.
  repeat (apply rbind_ok in H as (? & _ & H)).
  now injection H as <-.
Qed.

Lemma planned_transactions_rows (txs : list json) :
  forall height idx addresses xs addresses',
    planned_transactions Decimal_str height idx txs addresses = Ok (xs, addresses') ->
    List.length xs = List.length txs
    /\ List.map Transaction.tx_index xs
       = List.map (fun i => idx + Z.of_nat i) (List.seq 0 (List.length txs))
    /\ List.Forall (fun x => Transaction.block_height x = height) xs.
Proof.
  induction txs as [|tx rest IH]; intros height idx addresses xs addresses' H;
    cbn [planned_transactions] in H.
  - injection H as <- _. repeat split; constructor.
  - apply rbind_ok in H as (x & Hx & H).
    apply rbind_ok in H as (t & _ & H).
    apply rbind_ok in H as (a1 & _ & H).
    apply rbind_ok in H as (a2 & _ & H).
    apply rbind_ok in H as ([xs' a3] & Hr & H).
    injection H as <- _. cbn [fst].
    apply IH in Hr as (L & I & F).
    apply make_transaction_inv in Hx as (_ & _ & _ & Hh & Hi & _).
    split; [cbn; now rewrite L|]. split; [|constructor; auto].
    cbn [List.length List.seq List.map]. f_equal; [lia|].
    rewrite I, <- List.seq_shift, List.map_map.
    apply List.map_ext. intros i. lia.
Qed.

Lemma planned_groups (blocks_data : list json) :
  forall addresses max_height news addresses' max_height',
    planned Decimal_str blocks_data addresses max_height
    = Ok (news, addresses', max_height') ->
    exists groups,
      new_transactions news = List.concat groups
      /\ Forall2 block_of_rows (new_blocks news) groups.
Proof.
  induction blocks_data as [|b l IH]; intros a m news a' m' H; cbn [planned] in H.
  - injection H as <- _ _. exists []. split; [reflexivity|constructor].
  - apply rbind_ok in H as ([[row h] txs] & Hmk & H). cbn [fst snd] in H.
    apply rbind_ok in H as ([xs a1] & Hx & H). cbn [fst snd] in H.
    apply rbind_ok in H as ([[news' a2] m2] & Hr & H). cbn [fst snd] in H.
    injection H as <- _ _.
    apply IH in Hr as (groups & C & F).
    apply planned_transactions_rows in Hx as (L & I & Fh).
    exists (xs :: groups).
    change (NewBlock row :: List.map NewTransaction xs ++ news')
      with ([NewBlock row] ++ List.map NewTransaction xs ++ news').
    rewrite !new_blocks_app, !new_transactions_app.
    rewrite new_blocks_transactions, new_transactions_transactions.
    cbn. split; [now rewrite C|]. constructor; [|exact F].
    unfold block_of_rows. rewrite L.
    split; [exact (make_block_tx_count _ _ _ _ Hmk)|].
    split; [rewrite I; apply List.map_ext; intros i; lia|].
    now rewrite (make_block_height _ _ _ _ Hmk).
Qed.

Lemma collect_address_spec (v : json) (addresses addresses' : gset string) :
  collect_address v addresses = Ok addresses' ->
  forall s, s ∈ addresses' <-> s ∈ addresses \/ (s <> EmptyString /\ v = JStr s).
Proof.
  unfold collect_address. intros H s.
  destruct (truthy v) eqn:T.
  - destruct v as [| | | |s0| |]; try discriminate. injection H as <-.
    cbn in T. apply negb_true_iff, String.eqb_neq in T.
    rewrite elem_of_union, elem_of_singleton. split.
    + intros [->|Hs]; auto.
    + intros [Hs|[_ [= ->]]]; auto.
  - injection H as <-. split; [auto|].
    intros [Hs|[Hne ->]]; [exact Hs|].
    cbn in T. apply negb_false_iff, String.eqb_eq in T. contradiction.
Qed.

Lemma from_address_default (t : pydict) (s : string) :
  s <> EmptyString ->
  dict_get t "from_address" = JStr s
  <-> dict_get_default t "from_address" (JStr EmptyString) = JStr s.
Proof.
  intros Hne. unfold dict_get, dict_get_default.
  destruct (dict_lookup t "from_address"); [reflexivity|].
  split; [discriminate|]. intros [= <-]. contradiction.
Qed.

Lemma planned_transactions_addresses (txs : list json) :
  forall height idx addresses xs addresses',
    planned_transactions Decimal_str height idx txs addresses = Ok (xs, addresses') ->
    forall s, s ∈ addresses'
              <-> s ∈ addresses
                  \/ (s <> EmptyString /\ exists x, x ∈ xs /\ names s x).
Proof.
  induction txs as [|tx rest IH]; intros height idx addresses xs addresses' H s;
    cbn [planned_transactions] in H.
  - injection H as <- <-. split; [auto|].
    intros [Hs|(_ & x & Hx & _)]; [exact Hs|inversion Hx].
  - apply rbind_ok in H as (x & Hx & H).
    apply rbind_ok in H as (t & Ht & H).
    destruct tx as [| | | | | |t']; try discriminate. injection Ht as ->.
    apply rbind_ok in H as (a1 & H1 & H).
    apply rbind_ok in H as (a2 & H2 & H).
    apply rbind_ok in H as ([xs' a3] & Hr & H).
    injection H as <- <-. cbn [fst snd].
    apply make_transaction_addresses in Hx as (Hfrom & Hto).
    rewrite (IH _ _ _ _ _ Hr s), (collect_address_spec _ _ _ H2 s),
      (collect_address_spec _ _ _ H1 s).
    unfold names. split.
    + intros [[[Hs|[Hne Hf]]|[Hne Hf]]|(Hne & y & Hy & Hn)]; auto.
      * right. split; [exact Hne|]. exists x. split; [apply list_elem_of_here|].
        left. rewrite Hfrom. now apply from_address_default.
      * right. split; [exact Hne|]. exists x. split; [apply list_elem_of_here|].
        right. now rewrite Hto.
      * right. split; [exact Hne|]. exists y. split; [|exact Hn].
        now apply list_elem_of_further.
    + intros [Hs|(Hne & y & Hy & Hn)]; [auto|].
      apply elem_of_cons in Hy as [->|Hy].
      * destruct Hn as [Hn|Hn].
        -- left. left. right. split; [exact Hne|].
           apply from_address_default; [exact Hne|]. now rewrite <- Hfrom.
        -- left. right. split; [exact Hne|]. now rewrite <- Hto.
      * right. eauto.
Qed.

Lemma planned_addresses (blocks_data : list json) :
  forall addresses max_height news addresses' max_height',
    planned Decimal_str blocks_data addresses max_height
    = Ok (news, addresses', max_height') ->
    forall s, s ∈ addresses'
              <-> s ∈ addresses
                  \/ (s <> EmptyString
                      /\ exists x, x ∈ new_transactions news /\ names s x).
Proof.
  induction blocks_data as [|b l IH]; intros a m news a' m' H s; cbn [planned] in H.
  - injection H as <- <- _. split; [auto|].
    intros [Hs|(_ & x & Hx & _)]; [exact Hs|inversion Hx].
  - apply rbind_ok in H as ([[row h] txs] & Hmk & H). cbn [fst snd] in H.
    apply rbind_ok in H as ([xs a1] & Hx & H). cbn [fst snd] in H.
    apply rbind_ok in H as ([[news' a2] m2] & Hr & H). cbn [fst snd] in H.
    injection H as <- <- _.
    change (NewBlock row :: List.map NewTransaction xs ++ news')
      with ([NewBlock row] ++ List.map NewTransaction xs ++ news').
    rewrite !new_transactions_app, new_transactions_transactions. cbn [new_transactions List.flat_map app].
    rewrite (IH _ _ _ _ _ Hr s), (planned_transactions_addresses _ _ _ _ _ _ Hx s).
    split.
    + intros [[Hs|(Hne & y & Hy & Hn)]|(Hne & y & Hy & Hn)]; auto;
        right; (split; [exact Hne|]); exists y; rewrite elem_of_app; auto.
    + intros [Hs|(Hne & y & Hy & Hn)]; [auto|].
      apply elem_of_app in Hy as [Hy|Hy]; [left; right|right]; eauto.
Qed.

End Rows.

(** X12. The transactions of a batch are stored block by block, with their
    positions.  After a successful [_index_blocks_batch] the Block rows added
    are in the order of the batch and the Transaction rows added are the
    concatenation, in the same order, of one group per block: each group has
    as many rows as the [tx_count] of its Block row, their [tx_index] are
    0, 1, 2, ... in order, and each has the height of that Block row as its
    [block_height]. *)
Theorem transactions_are_stored_by_block_with_their_positions
  {decimal : Type} (Decimal_str : json -> option decimal)
  (blocks_data : list json) (w w' : world) :
  _index_blocks_batch Decimal_str blocks_data w = (w', Ok tt) ->
  exists rows groups,
    blocks (w_db w') = blocks (w_db w) ++ rows
    /\ transactions (w_db w') = transactions (w_db w) ++ List.concat groups
    /\ Forall2 (fun block_data row => source_height block_data = Some (Block.height row))
               blocks_data rows
    /\ Forall2 block_of_rows rows groups.
Proof.
  intros H. destruct blocks_data as [|b l].
  - injection H as <-. exists [], []. cbn. rewrite !app_nil_r.
    repeat split; constructor.
  - apply index_blocks_batch_inv in H as
        (news & a & m & st1 & P & F & B & T & _); [|discriminate].
    apply flush_rows_inv in F as (FB & FT & _).
    destruct (planned_groups _ _ _ _ _ _ _ P) as (groups & C & G).
    apply planned_inv in P as (HB & _).
    exists (List.map (Block.stamp (w_clock w)) (new_blocks news)),
           (List.map (List.map (Transaction.stamp (w_clock w))) groups).
    rewrite B, T, FB, FT, C, List.concat_map.
    split; [reflexivity|]. split; [reflexivity|]. split.
    + apply Forall2_map_r. eapply Forall2_impl; [exact HB|].
      intros b0 row (txs & E). unfold source_height. now rewrite E.
    + apply Forall2_map_both. eapply Forall2_impl; [exact G|].
      intros row g (Hc & Hi & Hh). unfold block_of_rows.
      rewrite List.length_map, List.map_map. cbn. split; [exact Hc|].
      split; [exact Hi|].
      rewrite List.Forall_forall in *. intros x Hx.
      apply List.in_map_iff in Hx as (x0 & <- & Hx0). exact (Hh _ Hx0).
Qed.

Lemma transactions_are_stored_by_block_with_their_positions_witness :
  let range := [raw_block "old" 1; raw_block "old" 2] in
  let w' := fst (_index_blocks_batch Decimal_of_int range (at_rest empty_store)) in
  exists rows groups,
    blocks (w_db w') = blocks (w_db (at_rest empty_store)) ++ rows
    /\ transactions (w_db w')
       = transactions (w_db (at_rest empty_store)) ++ List.concat groups
    /\ Forall2 (fun block_data row => source_height block_data = Some (Block.height row))
               range rows
    /\ Forall2 block_of_rows rows groups.
Proof.
  intros range w'.
  apply (transactions_are_stored_by_block_with_their_positions
           Decimal_of_int range (at_rest empty_store) w').
  vm_compute. reflexivity.
Defined.

(** X13. The accounts follow the addresses of the batch.  After a successful
    [_index_blocks_batch] on a non-empty batch, with [H] the maximum of 0 and
    the heights of the blocks of the batch (the watermark the batch sets):
    every non-empty text that a Transaction row added by the batch carries
    as sender or as recipient has an Account row, the row of the upsert of
    [_update_accounts_batch] (a new row with zero balance, nonce and
    counters; an existing row with only [last_seen_height], [last_seen_at]
    and [updated_at] overwritten), whose [last_seen_height] is [H], whatever
    the block of the batch the address appears in; every other account is as
    it was. *)
Theorem accounts_follow_the_addresses_of_the_batch
  {decimal : Type} (Decimal_str : json -> option decimal)
  (blocks_data : list json) (w w' : world) :
  blocks_data <> [] ->
  _index_blocks_batch Decimal_str blocks_data w = (w', Ok tt) ->
  exists rows heights,
    transactions (w_db w') = transactions (w_db w) ++ rows
    /\ Forall2 (fun block_data h => source_height block_data = Some h)
               blocks_data heights
    /\ watermark_of (w_db w') = Ok (List.fold_left Z.max heights 0)
    /\ forall s : string,
         ((s <> EmptyString /\ exists x, x ∈ rows /\ names s x) ->
          accounts (w_db w') !! s
          = Some (account_row s (List.fold_left Z.max heights 0) (w_clock w)
                              (accounts (w_db w) !! s))
          /\ (Account.last_seen_height <$> accounts (w_db w') !! s)
             = Some (Some (List.fold_left Z.max heights 0)))
         /\ (~ (s <> EmptyString /\ exists x, x ∈ rows /\ names s x) ->
             accounts (w_db w') !! s = accounts (w_db w) !! s).
Proof.
  intros Hne H.
  apply index_blocks_batch_inv in H as
      (news & a & m & st1 & P & F & _ & T & S & A & _); [|exact Hne].
  apply flush_rows_inv in F as (_ & FT & _).
  pose proof (planned_addresses _ _ _ _ _ _ _ P) as Ha.
  apply planned_inv in P as (HB & _ & HM).
  exists (List.map (Transaction.stamp (w_clock w)) (new_transactions news)),
         (List.map Block.height (new_blocks news)).
  rewrite <- HM.
  split; [now rewrite T, FT|]. split.
  { apply Forall2_map_r. eapply Forall2_impl; [exact HB|].
    intros b row (txs & E). unfold source_height. now rewrite E. }
  split.
  { unfold watermark_of. rewrite S, lookup_insert_eq. cbn. apply int_of_str_of_int. }
  assert (Hiff : forall s,
             s ∈ a <-> (s <> EmptyString
                        /\ exists x, x ∈ List.map (Transaction.stamp (w_clock w))
                                           (new_transactions news) /\ names s x)).
  { intros s. rewrite (Ha s). split.
    - intros [Hs|(Hs & x & Hx & Hn)]; [now apply elem_of_empty in Hs|].
      split; [exact Hs|]. exists (Transaction.stamp (w_clock w) x).
      split; [|exact Hn]. apply list_elem_of_In, List.in_map, list_elem_of_In, Hx.
    - intros (Hs & x & Hx & Hn). right. split; [exact Hs|].
      apply list_elem_of_In, List.in_map_iff in Hx as (x0 & <- & Hx0).
      exists x0. split; [now apply list_elem_of_In|exact Hn]. }
  intros s. specialize (A s). split.
  - intros Hs. apply Hiff in Hs. rewrite bool_decide_eq_true_2 in A by exact Hs.
    rewrite A. split; [reflexivity|].
    cbn. unfold account_row. now destruct (accounts (w_db w) !! s).
  - intros Hs. rewrite bool_decide_eq_false_2 in A; [exact A|].
    intros Hin. apply Hs, Hiff, Hin.
Qed.

Lemma accounts_follow_the_addresses_of_the_batch_witness :
  let range := [raw_block "old" 1; raw_block "old" 2] in
  let w' := fst (_index_blocks_batch Decimal_of_int range (at_rest empty_store)) in
  exists rows heights,
    transactions (w_db w') = transactions (w_db (at_rest empty_store)) ++ rows
    /\ Forall2 (fun block_data h => source_height block_data = Some h) range heights
    /\ watermark_of (w_db w') = Ok (List.fold_left Z.max heights 0)
    /\ forall s : string,
         ((s <> EmptyString /\ exists x, x ∈ rows /\ names s x) ->
          accounts (w_db w') !! s
          = Some (account_row s (List.fold_left Z.max heights 0)
                              (w_clock (at_rest empty_store))
                              (accounts (w_db (at_rest empty_store)) !! s))
          /\ (Account.last_seen_height <$> accounts (w_db w') !! s)
             = Some (Some (List.fold_left Z.max heights 0)))
         /\ (~ (s <> EmptyString /\ exists x, x ∈ rows /\ names s x) ->
             accounts (w_db w') !! s = accounts (w_db (at_rest empty_store)) !! s).
Proof.
  intros range w'.
  apply (accounts_follow_the_addresses_of_the_batch
           Decimal_of_int range (at_rest empty_store) w').
  - discriminate.
  - vm_compute. reflexivity.
Defined.

(** ** The requests made to the node *)

Lemma block_requests_app (t1 t2 : list event) :
  block_requests (t1 ++ t2) = block_requests t1 ++ block_requests t2.
Proof. apply List.flat_map_app. Qed.

Lemma block_requests_get_block (heights : list Z) :
  block_requests (List.map EvGetBlock heights) = heights.
Proof. induction heights; cbn; [|f_equal]; auto. Qed.

Section Requests.

Context {decimal : Type}.
Variable Decimal_str : json -> option decimal.
Variable settings : Settings.
Variable client : Node.

Local Abbreviation world := (world (decimal := decimal)).
Local Abbreviation store := (store (decimal := decimal)).
Local Abbreviation M := (M (decimal := decimal)).

(** Whatever [m] does, the blocks it requests satisfy [P]. *)
Definition asks {A} (P : list Z -> Prop) (m : M A) : Prop :=
  forall w w' r, m w = (w', r) ->
    exists d, w_trace w' = w_trace w ++ d /\ P (block_requests d).

(** [m] requests no block. *)
Definition quiet {A} (m : M A) : Prop := asks (fun l => l = []) m.

Lemma quiet_same {A} (m : M A) :
  (forall w w' r, m w = (w', r) -> w_trace w' = w_trace w) -> quiet m.
Proof.
  intros H w w' r E. exists []. rewrite app_nil_r. split; [eauto|reflexivity].
Qed.

Lemma quiet_ret {A} (a : A) : quiet (ret a).
Proof. apply quiet_same. now intros w w' r [= <- _]. Qed.

Lemma quiet_lift {A} (x : result A) : quiet (lift x).
Proof. apply quiet_same. now intros w w' r [= <- _]. Qed.

Lemma quiet_raise {A} (e : exn) : quiet (raise (A := A) e).
Proof. apply quiet_same. now intros w w' r [= <- _]. Qed.

Lemma quiet_utcnow : quiet utcnow.
Proof. apply quiet_same. now intros w w' r [= <- _]. Qed.

Lemma quiet_bind {A B} (m : M A) (k : A -> M B) :
  quiet m -> (forall a, quiet (k a)) -> quiet (bind m k).
Proof.
  intros Hm Hk w w' r H. unfold bind in H.
  destruct (m w) as [w1 [a|e]] eqn:E.
  - destruct (Hm _ _ _ E) as (d1 & T1 & R1).
    destruct (Hk a _ _ _ H) as (d2 & T2 & R2).
    exists (d1 ++ d2). rewrite T2, T1, <- app_assoc, block_requests_app, R1, R2.
    auto.
  - injection H as <- <-. exact (Hm _ _ _ E).
Qed.

Lemma quiet_emit (e : event) :
  block_requests [e] = [] -> quiet (emit e).
Proof. intros He w w' r [= <- _]. exists [e]. auto. Qed.

Lemma quiet_sleep (ms : Z) : quiet (sleep ms).
Proof. intros w w' r [= <- _]. exists [EvSleep ms]. auto. Qed.

Lemma quiet_get_block_height : quiet (get_block_height client).
Proof.
  unfold get_block_height.
  apply quiet_bind; [now apply quiet_emit|intros _; apply quiet_ret].
Qed.

Lemma quiet_session_add (p : pending) : quiet (session_add p).
Proof. apply quiet_same. now intros w w' r [= <- _]. Qed.

Lemma quiet_fault : quiet fault.
Proof.
  apply quiet_same. intros w w' r. unfold fault.
  destruct (w_faults w) as [|[] f]; now intros [= <- _].
Qed.

Lemma quiet_roundtrip : quiet roundtrip.
Proof.
  unfold roundtrip. apply quiet_bind.
  { intros w w' r. destruct (w_in_tx w); intros [= <- _].
    - exists []. now rewrite app_nil_r.
    - exists [EvBegin]. auto. }
  intros _. apply quiet_bind; [now apply quiet_emit|intros _; apply quiet_fault].
Qed.

Lemma quiet_flush : quiet flush.
Proof.
  intros w w' r. unfold flush. destruct (w_new w) as [|p l].
  { intros [= <- _]. exists []. now rewrite app_nil_r. }
  apply quiet_bind; [apply quiet_roundtrip|]. intros _.
  apply quiet_same. intros w1 w2 r1.
  destruct (flush_rows _ _ _); now intros [= <- _].
Qed.

Lemma quiet_execute {A} (f : store -> result (store * A)) : quiet (execute f).
Proof.
  unfold execute. apply quiet_bind; [apply quiet_flush|]. intros _.
  apply quiet_bind; [apply quiet_roundtrip|]. intros _.
  apply quiet_same. intros w w' r.
  destruct (f (w_view w)) as [[st a]|e]; now intros [= <- _].
Qed.

Lemma quiet_commit : quiet commit.
Proof.
  unfold commit. apply quiet_bind; [apply quiet_flush|]. intros _.
  intros w w' r. destruct (w_in_tx w).
  - apply quiet_bind; [apply quiet_fault|]. intros _.
    intros w1 w2 r1 [= <- _]. exists [EvCommit]. auto.
  - intros [= <- _]. exists []. now rewrite app_nil_r.
Qed.

Lemma rollback_quiet (w : world) :
  exists d, w_trace (fst (rollback w)) = w_trace w ++ d /\ block_requests d = [].
Proof.
  unfold rollback. destruct (w_in_tx w); cbn.
  - exists [EvRollback]. auto.
  - exists []. now rewrite app_nil_r.
Qed.

(** The commit or the rollback that ends a session requests nothing. *)
Lemma asks_session {A} (P : list Z -> Prop) (body : M A) :
  asks P body -> asks P (get_session_context body).
Proof.
  intros Hb w w' r. unfold get_session_context.
  set (w0 := set_new [] (set_view (w_db w) w)).
  unfold bind at 1. destruct (body w0) as [wb [a|e]] eqn:B;
    destruct (Hb _ _ _ B) as (d1 & T1 & R1); cbn in T1.
  - unfold bind at 1. destruct (commit wb) as [wc [[]|e]] eqn:C;
      destruct (quiet_commit _ _ _ C) as (d2 & T2 & R2).
    + intros [= <- _]. exists (d1 ++ d2).
      rewrite T2, T1, <- app_assoc, block_requests_app, R2, app_nil_r. auto.
    + intros [= <- _]. destruct (rollback_quiet wc) as (d3 & T3 & R3).
      exists (d1 ++ d2 ++ d3).
      rewrite T3, T2, T1, <- !app_assoc, !block_requests_app, R2, R3, !app_nil_r.
      auto.
  - intros [= <- _]. destruct (rollback_quiet wb) as (d3 & T3 & R3).
    exists (d1 ++ d3).
    rewrite T3, T1, <- app_assoc, block_requests_app, R3, app_nil_r. auto.
Qed.

Lemma quiet_for_each {A} (l : list A) (body : A -> M unit) :
  (forall a, quiet (body a)) -> quiet (for_each l body).
Proof.
  intros Hb. induction l as [|a l IH]; cbn [for_each]; [apply quiet_ret|].
  apply quiet_bind; [apply Hb|]. intros _. exact IH.
Qed.

Lemma quiet_set_indexed_height (height : Z) : quiet (_set_indexed_height height).
Proof.
  unfold _set_indexed_height.
  apply quiet_bind; [apply quiet_utcnow|]. intros now. apply quiet_execute.
Qed.

Lemma quiet_index_transactions (txs : list json) :
  forall height idx addresses,
    quiet (index_transactions Decimal_str height idx txs addresses).
Proof.
  induction txs as [|tx rest IH]; intros height idx addresses;
    cbn [index_transactions]; [apply quiet_ret|].
  apply quiet_bind; [apply quiet_lift|]. intros x.
  apply quiet_bind; [apply quiet_session_add|]. intros _.
  apply quiet_bind; [apply quiet_lift|]. intros t.
  apply quiet_bind; [apply quiet_lift|]. intros a1.
  apply quiet_bind; [apply quiet_lift|]. intros a2. apply IH.
Qed.

Lemma quiet_index_blocks (blocks_data : list json) :
  forall addresses max_height,
    quiet (index_blocks Decimal_str blocks_data addresses max_height).
Proof.
  induction blocks_data as [|b l IH]; intros addresses max_height;
    cbn [index_blocks]; [apply quiet_ret|].
  apply quiet_bind; [apply quiet_lift|]. intros [[row h] txs].
  apply quiet_bind; [apply quiet_session_add|]. intros _.
  apply quiet_bind; [apply quiet_index_transactions|]. intros a. apply IH.
Qed.

Lemma quiet_index_blocks_batch (blocks_data : list json) :
  quiet (_index_blocks_batch Decimal_str blocks_data).
Proof.
  unfold _index_blocks_batch. destruct blocks_data as [|b l]; [apply quiet_ret|].
  apply asks_session.
  apply quiet_bind; [apply quiet_index_blocks|]. intros [a m].
  apply quiet_bind; [apply quiet_set_indexed_height|]. intros _.
  apply quiet_bind; [apply quiet_flush|]. intros _.
  destruct (bool_decide _); [apply quiet_ret|].
  unfold _update_accounts_batch.
  apply quiet_bind; [apply quiet_utcnow|]. intros now.
  apply quiet_for_each. intros address. apply quiet_execute.
Qed.

Lemma quiet_get_indexed_height : quiet (_get_indexed_height (decimal := decimal)).
Proof.
  unfold _get_indexed_height. apply asks_session.
  apply quiet_bind; [apply quiet_execute|].
  intros [row|]; [|apply quiet_ret].
  destruct (SyncStatus.value row); [apply quiet_lift|apply quiet_raise].
Qed.

Lemma quiet_rewind (d : Z) : quiet (rewind (decimal := decimal) d).
Proof.
  unfold rewind. apply asks_session.
  apply quiet_bind; [apply quiet_execute|]. intros _.
  apply quiet_bind; [apply quiet_execute|]. intros _.
  apply quiet_set_indexed_height.
Qed.

(** The loop over the sub-batches requests the heights of the sub-batches it
    reaches, in ascending order, once each. *)
Lemma sync_batches_requests (end_height : Z) (m : nat) :
  forall b : Z,
    asks (fun l => exists j : nat,
            (j <= m)%nat
            /\ l = range_incl b (Z.min (b + BATCH_SIZE * Z.of_nat j - 1) end_height))
         (sync_batches Decimal_str client (batch_starts_from b m) end_height).
Proof.
  induction m as [|m IH]; intros b w w' r.
  - intros [= <- _]. exists []. rewrite app_nil_r. split; [reflexivity|].
    exists 0%nat. split; [lia|]. cbn.
    now rewrite range_incl_nil by (unfold BATCH_SIZE; lia).
  - rewrite batch_starts_from_S. cbn [sync_batches].
    unfold bind at 1. rewrite gather_blocks_run, valid_blocks_fetched.
    set (be := Z.min (b + BATCH_SIZE - 1) end_height).
    set (w1 := set_trace _ w).
    assert (Hone : forall (w2 : world) d,
               w_trace w2 = w_trace w1 ++ d -> block_requests d = [] ->
               exists d', w_trace w2 = w_trace w ++ d'
                 /\ exists j : nat,
                      (j <= S m)%nat
                      /\ block_requests d'
                         = range_incl b
                             (Z.min (b + BATCH_SIZE * Z.of_nat j - 1) end_height)).
    { intros w2 d T R. exists (List.map EvGetBlock (range_incl b be) ++ d).
      split; [rewrite T; cbn; now rewrite app_assoc|].
      exists 1%nat. split; [lia|].
      rewrite block_requests_app, block_requests_get_block, R, app_nil_r.
      unfold be.
      replace (BATCH_SIZE * Z.of_nat 1) with BATCH_SIZE by (unfold BATCH_SIZE; lia).
      reflexivity. }
    destruct (List.filter (fetch_ok client) (range_incl b be)) as [|h0 hs] eqn:F.
    { intros [= <- _]. apply (Hone w1 []); [now rewrite app_nil_r|reflexivity]. }
    assert (Hle : b <= end_height).
    { destruct (Z_le_gt_dec b end_height) as [H|H]; [exact H|].
      unfold be in F. rewrite range_incl_nil in F by (unfold BATCH_SIZE; lia).
      discriminate. }
    cbn [List.map]. unfold bind at 1.
    destruct (_index_blocks_batch Decimal_str (_ :: _) w1) as [w2 [[]|e]] eqn:P;
      destruct (quiet_index_blocks_batch _ _ _ _ P) as (d2 & T2 & R2).
    + unfold bind at 1, sleep at 1. set (w3 := set_clock _ _). intros H.
      destruct (IH _ _ _ _ H) as (d3 & T3 & j & Hj & R3).
      exists (List.map EvGetBlock (range_incl b be) ++ d2 ++ [EvSleep 100] ++ d3).
      split.
      * rewrite T3. cbn [w3 w_trace set_clock set_trace]. rewrite T2. cbn.
        now rewrite <- !app_assoc.
      * exists (S j). split; [lia|].
        rewrite !block_requests_app, block_requests_get_block, R2, R3.
        cbn [block_requests List.flat_map app].
        now rewrite range_of_sub_batches by exact Hle.
    + intros [= <- _]. exact (Hone _ _ T2 R2).
Qed.

(** The scan of the detector requests heights of its list only, in the
    order of the list, at most once each. *)
Lemma scan_reorg_requests (heights : list Z) :
  asks (fun l => l `sublist_of` heights) (scan_reorg client heights).
Proof.
  induction heights as [|height rest IH]; intros w w' r; cbn [scan_reorg].
  - intros [= <- _]. exists []. now rewrite app_nil_r.
  - assert (Hskip : forall (w1 : world) d1,
               w_trace w1 = w_trace w ++ d1 -> block_requests d1 = [] ->
               scan_reorg client rest w1 = (w', r) ->
               exists d, w_trace w' = w_trace w ++ d
                         /\ block_requests d `sublist_of` height :: rest).
    { intros w1 d1 T1 R1 H. destruct (IH _ _ _ H) as (d2 & T2 & R2).
      exists (d1 ++ d2). rewrite T2, T1, <- app_assoc, block_requests_app, R1.
      split; [reflexivity|]. now apply sublist_cons. }
    assert (Htake : forall (w1 : world) d1,
               w_trace w1 = w_trace w ++ d1 -> block_requests d1 = [height] ->
               scan_reorg client rest w1 = (w', r) ->
               exists d, w_trace w' = w_trace w ++ d
                         /\ block_requests d `sublist_of` height :: rest).
    { intros w1 d1 T1 R1 H. destruct (IH _ _ _ H) as (d2 & T2 & R2).
      exists (d1 ++ d2). rewrite T2, T1, <- app_assoc, block_requests_app, R1.
      split; [reflexivity|]. now apply sublist_skip. }
    unfold bind at 1.
    destruct (execute _ w) as [w1 [indexed_block|e]] eqn:E;
      destruct (quiet_execute _ _ _ _ E) as (d1 & T1 & R1).
    + destruct indexed_block as [blk|]; [|now apply (Hskip w1 d1)].
      unfold bind at 1, get_block at 1, bind at 1, emit at 1, ret at 1.
      set (w2 := set_trace _ w1).
      assert (T2 : w_trace w2 = w_trace w ++ (d1 ++ [EvGetBlock height])).
      { cbn. now rewrite T1, <- app_assoc. }
      assert (R2 : block_requests (d1 ++ [EvGetBlock height]) = [height]).
      { now rewrite block_requests_app, R1. }
      destruct (truthy _); [|now apply (Htake w2 _ T2 R2)].
      unfold bind at 1, lift at 1.
      destruct (compute_block_hash _) as [chain_hash|e].
      * destruct (String.eqb _ _); [now apply (Htake w2 _ T2 R2)|].
        intros [= <- _]. eexists. split; [exact T2|].
        rewrite R2. apply sublist_skip, sublist_nil_l.
      * intros [= <- _]. eexists. split; [exact T2|].
        rewrite R2. apply sublist_skip, sublist_nil_l.
    + intros [= <- _]. exists d1. split; [exact T1|].
      rewrite R1. apply sublist_nil_l.
Qed.

End Requests.

Lemma range_down_length (hi lo : Z) :
  List.length (range_down hi lo) = Z.to_nat (hi + 1 - lo).
Proof. unfold range_down. now rewrite List.length_map, List.length_seq. Qed.

(** X14. A synchronisation run requests consecutive heights.  Whatever
    the node answers and however the run ends, the blocks that
    [_sync_blocks_batch] requests from the node are the heights
    [start, start + 1, ...], once each, up to the end of the last sub-batch
    it reached: never a height below [start] or above [end], never one
    twice.  (The order is the one in which the tasks are created; the tasks
    of one sub-batch run together.) *)
Theorem sync_run_requests_consecutive_heights
  {decimal : Type} (Decimal_str : json -> option decimal) (client : Node)
  (start_height end_height : Z) (w w' : world) (r : result unit) :
  _sync_blocks_batch Decimal_str client start_height end_height w = (w', r) ->
  exists (d : list event) (j : nat),
    w_trace w' = w_trace w ++ d
    /\ block_requests d
       = range_incl start_height
           (Z.min (start_height + BATCH_SIZE * Z.of_nat j - 1) end_height)
    /\ List.Forall (fun h => start_height <= h <= end_height) (block_requests d).
Proof.
  intros H. unfold _sync_blocks_batch in H. rewrite range_step_batch_starts in H.
  destruct (sync_batches_requests Decimal_str client _ _ _ _ _ _ H)
    as (d & T & j & _ & R).
  exists d, j. split; [exact T|]. split; [exact R|].
  rewrite R. apply List.Forall_forall. intros h Hh.
  apply list_elem_of_In, range_incl_bounds in Hh. lia.
Qed.

Lemma sync_run_requests_consecutive_heights_witness :
  let run := _sync_blocks_batch Decimal_of_int (forked_node 10 11) 1 10
               (at_rest empty_store) in
  exists (d : list event) (j : nat),
    w_trace (fst run) = w_trace (at_rest empty_store) ++ d
    /\ block_requests d = range_incl 1 (Z.min (1 + BATCH_SIZE * Z.of_nat j - 1) 10)
    /\ List.Forall (fun h => 1 <= h <= 10) (block_requests d).
Proof.
  intros run.
  apply (sync_run_requests_consecutive_heights
           Decimal_of_int (forked_node 10 11) 1 10 (at_rest empty_store)
           (fst run) (snd run)).
  apply surjective_pairing.
Defined.

(** X15. The reorg detector requests blocks of its window only.  With a
    watermark [W], whatever the node answers and however [detect_reorg]
    ends, the blocks it requests are heights of
    [W, W - 1, ..., max(1, W - resync_depth)], in that order and at most
    once each: at most [resync_depth + 1] requests, none when the watermark
    is 0. *)
Theorem reorg_detector_requests_only_its_window
  {decimal : Type} (settings : Settings) (client : Node)
  (w w' : world (decimal := decimal)) (r : result (option Z)) (W : Z) :
  watermark_of (w_db w) = Ok W ->
  detect_reorg settings client w = (w', r) ->
  exists d : list event,
    w_trace w' = w_trace w ++ d
    /\ block_requests d
       `sublist_of` range_down W (Z.max 1 (W - resync_depth settings))
    /\ Z.of_nat (List.length (block_requests d)) <= Z.max 0 (resync_depth settings + 1)
    /\ (W = 0 -> block_requests d = []).
Proof.
  intros HW H. unfold detect_reorg in H. unfold bind at 1 in H.
  assert (Hnone : forall d, block_requests d = [] ->
            block_requests d
            `sublist_of` range_down W (Z.max 1 (W - resync_depth settings))
            /\ Z.of_nat (List.length (block_requests d))
               <= Z.max 0 (resync_depth settings + 1)
            /\ (W = 0 -> block_requests d = [])).
  { intros d ->. split; [apply sublist_nil_l|]. cbn. split; [lia|auto]. }
  destruct (_get_indexed_height w) as [w1 [height|e]] eqn:G;
    destruct (quiet_get_indexed_height _ _ _ G) as (d1 & T1 & R1).
  - apply get_indexed_height_inv in G as (HW' & _).
    assert (height = W) by congruence. subst height.
    destruct (Z.eqb_spec W 0) as [HW0|HW0].
    + injection H as <- _. exists d1. split; [exact T1|]. now apply Hnone.
    + destruct (asks_session _ _ (scan_reorg_requests client _) _ _ _ H)
        as (d2 & T2 & R2).
      exists (d1 ++ d2). rewrite T2, T1, <- app_assoc, block_requests_app, R1.
      split; [reflexivity|]. cbn [app]. split; [exact R2|]. split; [|contradiction].
      apply sublist_length in R2. rewrite range_down_length in R2. lia.
  - injection H as <- _. exists d1. split; [exact T1|]. now apply Hnone.
Qed.

Lemma reorg_detector_requests_only_its_window_witness :
  let run := detect_reorg default_settings (forked_node 10 7) (at_rest chain_1_10) in
  exists d : list event,
    w_trace (fst run) = w_trace (at_rest chain_1_10) ++ d
    /\ block_requests d
       `sublist_of` range_down 10 (Z.max 1 (10 - resync_depth default_settings))
    /\ Z.of_nat (List.length (block_requests d))
       <= Z.max 0 (resync_depth default_settings + 1)
    /\ (10 = 0 -> block_requests d = []).
Proof.
  intros run.
  apply (reorg_detector_requests_only_its_window default_settings (forked_node 10 7)
           (at_rest chain_1_10) (fst run) (snd run) 10).
  - vm_compute. reflexivity.
  - apply surjective_pairing.
Defined.

(** X16. A cycle with an unreachable node touches nothing.  When the node
    reports height 0 (what [get_block_height] returns on any failure),
    [_sync_loop] requests no block and writes nothing, whatever the
    watermark: the committed store is unchanged, and when the cycle ends
    normally its last two steps are the call for the height and a sleep of
    the poll interval; neither the synchronisation nor the reorg check is
    run. *)
Theorem cycle_with_unreachable_node_touches_nothing
  {decimal : Type} (Decimal_str : json -> option decimal)
  (settings : Settings) (client : Node) (w w' : world) (r : result unit) :
  metrics_block_height client = 0 ->
  _sync_loop Decimal_str settings client w = (w', r) ->
  w_db w' = w_db w
  /\ exists d : list event,
       w_trace w' = w_trace w ++ d
       /\ block_requests d = []
       /\ (r = Ok tt ->
           exists d0,
             d = d0 ++ [EvGetBlockHeight;
                        EvSleep (1000 * indexer_poll_interval settings)]).
Proof.
  intros H0 H. unfold _sync_loop in H. unfold bind at 1 in H.
  destruct (_get_indexed_height w) as [w1 [height|e]] eqn:G;
    destruct (quiet_get_indexed_height _ _ _ G) as (d1 & T1 & R1);
    apply get_indexed_height_db in G.
  - unfold bind at 1, get_block_height at 1, bind at 1, emit at 1, ret at 1 in H.
    rewrite H0 in H. cbn [Z.eqb] in H. unfold sleep in H. injection H as <- <-.
    cbn. split; [exact G|].
    exists (d1 ++ [EvGetBlockHeight; EvSleep (1000 * indexer_poll_interval settings)]).
    rewrite T1, <- !app_assoc, block_requests_app, R1. cbn. eauto.
  - injection H as <- <-. split; [exact G|].
    exists d1. split; [exact T1|]. split; [exact R1|discriminate].
Qed.

Lemma cycle_with_unreachable_node_touches_nothing_witness :
  let run := _sync_loop Decimal_of_int default_settings (forked_node 0 1)
               (at_rest chain_1_10) in
  w_db (fst run) = w_db (at_rest chain_1_10)
  /\ exists d : list event,
       w_trace (fst run) = w_trace (at_rest chain_1_10) ++ d
       /\ block_requests d = []
       /\ (snd run = Ok tt ->
           exists d0,
             d = d0 ++ [EvGetBlockHeight;
                        EvSleep (1000 * indexer_poll_interval default_settings)]).
Proof.
  intros run.
  apply (cycle_with_unreachable_node_touches_nothing Decimal_of_int default_settings
           (forked_node 0 1) (at_rest chain_1_10) (fst run) (snd run)).
  - reflexivity.
  - apply surjective_pairing.
Defined.

Lemma get_indexed_height_clock {decimal} (w : world (decimal := decimal)) :
  w_clock (fst (_get_indexed_height w)) = w_clock w
  /\ w_last_resync_time (fst (_get_indexed_height w)) = w_last_resync_time w.
Proof.
  destruct w as [db view new in_tx clock faults trace lr].
  unfold _get_indexed_height, get_session_context, execute, flush,
    roundtrip, commit, rollback, bind, emit, fault, ret, lift, raise.
  cbn.
  destruct in_tx, faults as [|[] [|[] faults]]; cbn; auto;
    destruct (sync_status db !! "last_indexed_height") as [[[v|] u]|]; cbn; auto;
    destruct (int_of_str v); cbn; auto.
Qed.

(** X20. A cycle that is in sync and not due for a reorg check requests
    nothing.  When the watermark is at or above the height the node
    reports, and no more than [resync_interval] has passed since the last
    reorg check, [_sync_loop] requests no block and leaves the committed
    store and the time of the last check as they were: the cycle costs the
    read of the watermark, the call for the height and the sleep. *)
Theorem cycle_in_sync_requests_nothing
  {decimal : Type} (Decimal_str : json -> option decimal)
  (settings : Settings) (client : Node) (w w' : world) (r : result unit) (W : Z) :
  watermark_of (w_db w) = Ok W ->
  metrics_block_height client <= W ->
  w_clock w - w_last_resync_time w <= 1000 * resync_interval settings ->
  _sync_loop Decimal_str settings client w = (w', r) ->
  w_db w' = w_db w
  /\ w_last_resync_time w' = w_last_resync_time w
  /\ exists d : list event,
       w_trace w' = w_trace w ++ d /\ block_requests d = [].
Proof.
  intros HW HC HT H. unfold _sync_loop in H. unfold bind at 1 in H.
  pose proof (get_indexed_height_clock w) as [Hclock Hlast].
  destruct (_get_indexed_height w) as [w1 [height|e]] eqn:G;
    destruct (quiet_get_indexed_height _ _ _ G) as (d1 & T1 & R1);
    cbn [fst] in Hclock, Hlast.
  - apply get_indexed_height_inv in G as (HW' & D1).
    assert (height = W) by congruence. subst height.
    unfold bind at 1, get_block_height at 1, bind at 1, emit at 1, ret at 1 in H.
    set (w2 := set_trace _ w1) in H.
    destruct (metrics_block_height client =? 0).
    + unfold sleep in H. injection H as <- _. cbn.
      split; [exact D1|]. split; [exact Hlast|].
      eexists. rewrite T1, <- !app_assoc. split; [reflexivity|].
      now rewrite block_requests_app, R1.
    + replace (W <? metrics_block_height client) with false in H by lia.
      unfold bind at 1, ret at 1, bind at 1, utcnow at 1, bind at 1 in H.
      replace (1000 * resync_interval settings <? w_clock w2 - w_last_resync_time w2)
        with false in H by (cbn; lia).
      unfold sleep in H. injection H as <- _. cbn.
      split; [exact D1|]. split; [exact Hlast|].
      eexists. rewrite T1, <- !app_assoc. split; [reflexivity|].
      now rewrite block_requests_app, R1.
  - injection H as <- _. apply get_indexed_height_db in G.
    split; [exact G|]. split; [exact Hlast|]. eauto.
Qed.

Lemma cycle_in_sync_requests_nothing_witness :
  let run := _sync_loop Decimal_of_int default_settings (forked_node 10 11)
               (at_rest chain_1_10) in
  w_db (fst run) = w_db (at_rest chain_1_10)
  /\ w_last_resync_time (fst run) = w_last_resync_time (at_rest chain_1_10)
  /\ exists d : list event,
       w_trace (fst run) = w_trace (at_rest chain_1_10) ++ d
       /\ block_requests d = [].
Proof.
  intros run.
  apply (cycle_in_sync_requests_nothing Decimal_of_int default_settings
           (forked_node 10 11) (at_rest chain_1_10) (fst run) (snd run) 10).
  - vm_compute. reflexivity.
  - cbn. lia.
  - cbn. lia.
  - apply surjective_pairing.
Defined.

(** X17. The names of the transaction types round-trip.  [TxType(value)]
    on the value of a member gives that member back, and it accepts nothing
    else: a value it accepts is the text of the member it returns, so the
    nine names are distinct and a value of another type, or another text,
    is a [ValueError]. *)
Theorem tx_type_names_round_trip (t : TxType) (value : json) :
  TxType_of (JStr (TxType_value t)) = Ok t
  /\ (TxType_of value = Ok t -> value = JStr (TxType_value t))
  /\ (value <> JStr (TxType_value t) -> TxType_of value <> Ok t)
  /\ (forall e, TxType_of value = Raise e -> e = ValueError).
Proof.
  assert (Hinv : TxType_of value = Ok t -> value = JStr (TxType_value t)).
  { unfold TxType_of. destruct value; try discriminate.
    destruct (List.find _ _) as [t'|] eqn:F; [|discriminate].
    intros [= ->]. apply List.find_some in F as [_ E].
    apply String.eqb_eq in E. now subst. }
  split; [destruct t; reflexivity|]. split; [exact Hinv|].
  split; [intros Hne Hok; exact (Hne (Hinv Hok))|].
  intros e. apply TxType_of_error.
Qed.

Lemma filter_below_twice {A} (f : A -> Z) (d1 d2 : Z) (l : list A) :
  List.filter (fun x => f x <? d2) (List.filter (fun x => f x <? d1) l)
  = List.filter (fun x => f x <? Z.min d1 d2) l.
Proof.
  induction l as [|a l IH]; cbn; [reflexivity|].
  destruct (Z.ltb_spec (f a) d1); cbn;
    destruct (Z.ltb_spec (f a) d2); destruct (Z.ltb_spec (f a) (Z.min d1 d2));
    try lia; rewrite IH; reflexivity.
Qed.

(** X18. Rewinds compose to the lower one.  Two rewinds committed one
    after the other, to [d1] and then to [d2], leave the Block and
    Transaction rows that one rewind to [min d1 d2] leaves, and the accounts
    as they were; the watermark is the one of the second, [d2 - 1], also when
    [d2] is the higher of the two.  In particular a rewind repeated changes
    no row. *)
Theorem rewinds_compose_to_the_lower
  {decimal : Type} (d1 d2 : Z) (w w1 w2 : world (decimal := decimal)) :
  rewind d1 w = (w1, Ok tt) ->
  rewind d2 w1 = (w2, Ok tt) ->
  blocks (w_db w2)
  = List.filter (fun b => Block.height b <? Z.min d1 d2) (blocks (w_db w))
  /\ transactions (w_db w2)
     = List.filter (fun x => Transaction.block_height x <? Z.min d1 d2)
                   (transactions (w_db w))
  /\ accounts (w_db w2) = accounts (w_db w)
  /\ watermark_of (w_db w2) = Ok (d2 - 1)
  /\ (d1 = d2 ->
      blocks (w_db w2) = blocks (w_db w1)
      /\ transactions (w_db w2) = transactions (w_db w1)).
Proof.
  intros H1 H2.
  apply rewind_inv in H1 as (D1 & _). apply rewind_inv in H2 as (D2 & _).
  rewrite D2, D1. cbn.
  rewrite (filter_below_twice Block.height), (filter_below_twice Transaction.block_height).
  repeat split.
  - unfold watermark_of. cbn. rewrite lookup_insert_eq. cbn.
    apply int_of_str_of_int.
  - subst d2. now rewrite Z.min_id.
  - subst d2. now rewrite Z.min_id.
Qed.

Lemma rewinds_compose_to_the_lower_witness :
  let w1 := fst (rewind 8 (at_rest chain_1_10)) in
  let w2 := fst (rewind 5 w1) in
  List.map Block.height (blocks (w_db w2)) = [1; 2; 3; 4]
  /\ watermark_of (w_db w2) = Ok 4.
Proof.
  intros w1 w2.
  destruct (rewinds_compose_to_the_lower 8 5 (at_rest chain_1_10) w1 w2)
    as (B & _ & _ & W & _).
  - vm_compute. reflexivity.
  - vm_compute. reflexivity.
  - split; [rewrite B; vm_compute; reflexivity|exact W].
Defined.

(** X19. The repair of a reorg leaves, from the divergence on, blocks of
    the node only.  After the rewind of [_handle_reorg] to [d] has
    committed, and with a node that answers each request with a block of the
    height asked, however the rebuild that follows ends: the heights stored
    are those below [d] that were stored before, in place, followed by the
    heights from [d] on that the node served in the sub-batches the rebuild
    committed, in ascending order; and every Block row of height [d] or more
    holds the canonical hash of the block the node serves at its height. *)
Theorem reorg_repair_stores_the_blocks_of_the_node
  {decimal : Type} (Decimal_str : json -> option decimal) (client : Node)
  (d : Z) (w w1 w' : world) (r : result unit) :
  faithful client ->
  rewind d w = (w1, Ok tt) ->
  _handle_reorg Decimal_str client d w = (w', r) ->
  (exists j : nat,
      List.map Block.height (blocks (w_db w'))
      = List.map Block.height
          (List.filter (fun b => Block.height b <? d) (blocks (w_db w)))
        ++ List.filter (fetch_ok client)
             (range_incl d (Z.min (d + BATCH_SIZE * Z.of_nat j - 1)
                                  (metrics_block_height client))))
  /\ mirrors_from client d (w_db w').
Proof.
  intros Hf Hr H. unfold _handle_reorg in H. unfold bind at 1 in H.
  rewrite Hr in H.
  unfold bind at 1, get_block_height at 1, bind at 1, emit at 1, ret at 1 in H.
  set (w2 := set_trace _ w1) in H.
  apply rewind_inv in Hr as (D1 & _).
  assert (B2 : blocks (w_db w2)
               = List.filter (fun b => Block.height b <? d) (blocks (w_db w)))
    by (cbn; now rewrite D1).
  assert (M2 : mirrors_from client d (w_db w2)).
  { intros row. rewrite B2, list_elem_of_In, List.filter_In.
    intros [_ Hlt] Hge. lia. }
  destruct (d <=? metrics_block_height client).
  - split.
    + unfold _sync_blocks_batch in H. rewrite range_step_batch_starts in H.
      destruct (sync_batches_heights Decimal_str client _ _ Hf _ _ _ _ H)
        as (j & _ & Hj & _).
      exists j. now rewrite Hj, B2.
    + revert H M2.
      apply (keeps_sync_batches Decimal_str client (mirrors_from client d)).
      intros heights w3 w4 r3. now apply persist_mirrors_from.
  - injection H as <- _. split; [|exact M2].
    exists 0%nat. rewrite B2.
    rewrite range_incl_nil by (unfold BATCH_SIZE; lia).
    cbn. now rewrite app_nil_r.
Qed.

Lemma reorg_repair_stores_the_blocks_of_the_node_witness :
  let w' := fst (_handle_reorg Decimal_of_int (forked_node 10 7) 7
                   (at_rest chain_1_10)) in
  (exists j : nat,
      List.map Block.height (blocks (w_db w'))
      = List.map Block.height
          (List.filter (fun b => Block.height b <? 7)
                       (blocks (w_db (at_rest chain_1_10))))
        ++ List.filter (fetch_ok (forked_node 10 7))
             (range_incl 7 (Z.min (7 + BATCH_SIZE * Z.of_nat j - 1)
                                  (metrics_block_height (forked_node 10 7)))))
  /\ mirrors_from (forked_node 10 7) 7 (w_db w').
Proof.
  intros w'.
  apply (reorg_repair_stores_the_blocks_of_the_node Decimal_of_int (forked_node 10 7)
           7 (at_rest chain_1_10) (fst (rewind 7 (at_rest chain_1_10))) w'
           (snd (_handle_reorg Decimal_of_int (forked_node 10 7) 7
                   (at_rest chain_1_10)))).
  - apply forked_node_faithful.
  - vm_compute. reflexivity.
  - apply surjective_pairing.
Defined.

(** ** The reorg handler as a whole *)

Section Handler.

Context {decimal : Type}.

Local Abbreviation world := (world (decimal := decimal)).


End Handler.




(** ** The blocks a run hands to the persister *)





Section Handed.

Context {decimal : Type}.
Variable Decimal_str : json -> option decimal.
Variable client : Node.

Local Abbreviation world := (world (decimal := decimal)).




End Handed.





